(* Shallow embedding of the two load generators of the `stress` repository:
   qimi2_sim.py (fast burst: mem_burst, cpu_burst, io_burst, main) and
   stress.py (slow ramp: allocate_slow, run_cpu_ramp, main), together with
   their shared size parser parse_size.

   The outside world (cgroup pseudo-files, the allocator, the file system,
   the clock) is an oracle record; the n-th call of a reader returns the
   n-th value of the oracle.  The program state counts the calls made so far
   and accumulates the log records written through DualLogger.log. *)

From Stdlib Require Import ZArith List String Ascii Bool Lia.
Import ListNotations.
Open Scope Z_scope.

(* ------------------------------------------------------------------------- *)
(** * parse_size (identical in qimi2_sim.py and stress.py) *)

Module Size.

(** Result of a Python expression that may raise. *)
Inductive PyRes (A : Type) :=
| POk (a : A)
| PValueError
| POverflowError.
Arguments POk {A} a.
Arguments PValueError {A}.
Arguments POverflowError {A}.

(** ** Characters *)

(** [str.isspace] on ASCII: \t \n \x0b \x0c \r, \x1c-\x1f and space. *)
Definition is_space (c : ascii) : bool :=
  let n := nat_of_ascii c in
  ((9 <=? n) && (n <=? 13))%nat || ((28 <=? n) && (n <=? 32))%nat.

Fixpoint lstrip (l : list ascii) : list ascii :=
  match l with
  | c :: r => if is_space c then lstrip r else l
  | [] => []
  end.

(** [str.strip()] *)
Definition strip (l : list ascii) : list ascii := rev (lstrip (rev (lstrip l))).

(** [str.lower()] on ASCII letters. *)
Definition lower_char (c : ascii) : ascii :=
  let n := nat_of_ascii c in
  if ((65 <=? n) && (n <=? 90))%nat then ascii_of_nat (n + 32) else c.

Definition lower (l : list ascii) : list ascii := map lower_char l.

Definition is_digit (c : ascii) : bool :=
  let n := nat_of_ascii c in ((48 <=? n) && (n <=? 57))%nat.

Definition digit_val (c : ascii) : Z := Z.of_nat (nat_of_ascii c - 48).

Definition chars (s : string) : list ascii := list_ascii_of_string s.

Fixpoint chars_eqb (l1 l2 : list ascii) : bool :=
  match l1, l2 with
  | [], [] => true
  | c1 :: r1, c2 :: r2 => Ascii.eqb c1 c2 && chars_eqb r1 r2
  | _, _ => false
  end.

(** [str.endswith]; [drop_last n l] is [l[:-n]] for [n > 0]. *)
Definition ends_with (l u : list ascii) : bool :=
  (List.length u <=? List.length l)%nat && chars_eqb (skipn (List.length l - List.length u) l) u.

Definition drop_last (n : nat) (l : list ascii) : list ascii := firstn (List.length l - n) l.

(** ** Python's number grammar *)

(** The rest of a digit run, single underscores allowed between digits:
    value so far, number of digits, remaining input. *)
Fixpoint digits_more (l : list ascii) (acc : Z) (n : nat) : Z * nat * list ascii :=
  match l with
  | c :: r =>
      if is_digit c then digits_more r (acc * 10 + digit_val c) (S n)
      else if Ascii.eqb c "_"%char then
        match r with
        | d :: r' =>
            if is_digit d then digits_more r' (acc * 10 + digit_val d) (S n)
            else (acc, n, l)
        | [] => (acc, n, l)
        end
      else (acc, n, l)
  | [] => (acc, n, l)
  end.

(** A digit run that starts with a digit. *)
Definition digitpart (l : list ascii) : option (Z * nat * list ascii) :=
  match l with
  | c :: r => if is_digit c then Some (digits_more r (digit_val c) 1) else None
  | [] => None
  end.

Definition sign (l : list ascii) : Z * list ascii :=
  match l with
  | c :: r =>
      if Ascii.eqb c "-"%char then (-1, r)
      else if Ascii.eqb c "+"%char then (1, r) else (1, l)
  | [] => (1, l)
  end.

(** Python's default [sys.get_int_max_str_digits()]: [int()] of a decimal
    string with more digits raises [ValueError]. *)
Definition int_max_str_digits : nat := 4300.

(** [int(s)] in base 10. *)
Definition py_int (s : list ascii) : PyRes Z :=
  let '(sg, l) := sign (strip s) in
  match digitpart l with
  | Some (v, n, []) => if (int_max_str_digits <? n)%nat then PValueError else POk (sg * v)
  | _ => PValueError
  end.

(** A float literal: sign, decimal mantissa and power of ten, or inf / nan. *)
Inductive FloatLit :=
| DecLit (sg m e10 : Z)
| InfLit (sg : Z)
| NanLit.

(** Mantissa [digits [. [digits]]] or [. digits]: its digits read as an
    integer, and the power of ten that scales it. *)
Definition parse_mantissa (l : list ascii) : option (Z * Z * list ascii) :=
  match digitpart l with
  | Some (ip, _, c :: r) =>
      if Ascii.eqb c "."%char then
        match digitpart r with
        | Some (fp, nd, r') => Some (ip * 10 ^ Z.of_nat nd + fp, - Z.of_nat nd, r')
        | None => Some (ip, 0, r)
        end
      else Some (ip, 0, c :: r)
  | Some (ip, _, []) => Some (ip, 0, [])
  | None =>
      match l with
      | c :: r =>
          if Ascii.eqb c "."%char then
            match digitpart r with
            | Some (fp, nd, r') => Some (fp, - Z.of_nat nd, r')
            | None => None
            end
          else None
      | [] => None
      end
  end.

Definition parse_exponent (l : list ascii) : option (Z * list ascii) :=
  match l with
  | c :: r =>
      if Ascii.eqb c "e"%char || Ascii.eqb c "E"%char then
        let '(sg, r) := sign r in
        match digitpart r with
        | Some (v, _, r') => Some (sg * v, r')
        | None => None
        end
      else Some (0, l)
  | [] => Some (0, [])
  end.

(** The literal accepted by [float(s)]; [None] is a [ValueError]. *)
Definition float_lit (s : list ascii) : option FloatLit :=
  let '(sg, l) := sign (strip s) in
  let w := lower l in
  if chars_eqb w (chars "inf") || chars_eqb w (chars "infinity")
  then Some (InfLit sg)
  else if chars_eqb w (chars "nan") then Some NanLit
  else
    match parse_mantissa l with
    | Some (m, e1, r) =>
        match parse_exponent r with
        | Some (e2, []) => Some (DecLit sg m (e1 + e2))
        | _ => None
        end
    | None => None
    end.

(** ** IEEE 754 binary64 *)

(** A double: [Fin m e] is [m * 2^e]; infinities; NaN. *)
Inductive Float :=
| Fin (m e : Z)
| Inf (neg : bool)
| NaN.

(** [(n, d)] with [n / d = a / (b * 2^e)]. *)
Definition scaled (a b e : Z) : Z * Z :=
  if 0 <=? e then (a, b * 2 ^ e) else (a * 2 ^ (- e), b).

(** [n / d] rounded to the nearest integer, ties to even. *)
Definition round_half_even (n d : Z) : Z :=
  let q := n / d in
  let r := n mod d in
  if d <? 2 * r then q + 1
  else if 2 * r =? d then (if Z.even q then q else q + 1)
  else q.

(** The double nearest to [a / b] ([a, b > 0]): the exponent puts the
    quotient in [2^52, 2^53), bounded below by the subnormal exponent -1074;
    a result of 2^1024 or more is infinite. *)
Definition round_ratio (a b : Z) : Float :=
  let e0 := Z.log2 a - Z.log2 b - 52 in
  let '(n0, d0) := scaled a b e0 in
  let e1 := if n0 <? 2 ^ 52 * d0 then e0 - 1 else e0 in
  let e := Z.max e1 (-1074) in
  let '(n, d) := scaled a b e in
  let m := round_half_even n d in
  if 1024 <=? e + Z.log2 m then Inf false else Fin m e.

Definition neg_float (x : Float) : Float :=
  match x with
  | Fin m e => Fin (- m) e
  | Inf neg => Inf (negb neg)
  | NaN => NaN
  end.

(** The double nearest to [sg * a / b], [b > 0]. *)
Definition round_signed (sg a b : Z) : Float :=
  if a =? 0 then Fin 0 0
  else
    let x := round_ratio (Z.abs a) b in
    if (sg * a <? 0) then neg_float x else x.

(** [float(s)] *)
Definition py_float (s : list ascii) : option Float :=
  match float_lit s with
  | Some (DecLit sg m e10) =>
      Some (if 0 <=? e10 then round_signed sg (m * 10 ^ e10) 1
            else round_signed sg m (10 ^ (- e10)))
  | Some (InfLit sg) => Some (Inf (sg <? 0))
  | Some NanLit => Some NaN
  | None => None
  end.

(** [float(n)] for a Python int. *)
Definition float_of_int (n : Z) : Float := round_signed 1 n 1.

(** The product of two doubles, rounded. *)
Definition float_mul (x y : Float) : Float :=
  match x, y with
  | NaN, _ | _, NaN => NaN
  | Inf n1, Inf n2 => Inf (xorb n1 n2)
  | Inf n1, Fin m e | Fin m e, Inf n1 =>
      if m =? 0 then NaN else Inf (xorb n1 (m <? 0))
  | Fin m1 e1, Fin m2 e2 =>
      let p := m1 * m2 in
      let e := e1 + e2 in
      if 0 <=? e then round_signed 1 (p * 2 ^ e) 1 else round_signed 1 p (2 ^ (- e))
  end.

(** [int(x)] for a double: truncation toward zero. *)
Definition int_of_float (x : Float) : PyRes Z :=
  match x with
  | Fin m e => POk (if 0 <=? e then m * 2 ^ e else Z.quot m (2 ^ (- e)))
  | Inf _ => POverflowError
  | NaN => PValueError
  end.

(** ** parse_size *)

Definition units : list (string * Z) :=
  [("k"%string, 1024)%Z; ("ki"%string, 1024)%Z; ("m"%string, 1024 ^ 2)%Z; ("mi"%string, 1024 ^ 2)%Z;
   ("g"%string, 1024 ^ 3)%Z; ("gi"%string, 1024 ^ 3)%Z; ("t"%string, 1024 ^ 4)%Z; ("ti"%string, 1024 ^ 4)%Z].

Definition unit_key (u : string * Z) : Z := - Z.of_nat (String.length (fst u)).

Fixpoint insert_by_key (x : string * Z) (l : list (string * Z)) : list (string * Z) :=
  match l with
  | [] => [x]
  | y :: r => if unit_key x <? unit_key y then x :: y :: r else y :: insert_by_key x r
  end.

(** [sorted(units.items(), key=lambda x: -len(x[0]))]: a stable sort. *)
Definition sorted_units : list (string * Z) :=
  fold_left (fun acc x => insert_by_key x acc) units [].

Fixpoint try_units (s : list ascii) (us : list (string * Z)) : PyRes Z :=
  match us with
  | (u, mul) :: r =>
      if ends_with s (chars u) then
        match py_float (drop_last (String.length u) s) with
        | Some x => int_of_float (float_mul x (float_of_int mul))
        | None => PValueError
        end
      else try_units s r
  | [] => py_int s
  end.

Definition parse_size (s : string) : PyRes Z :=
  try_units (lower (strip (chars s))) sorted_units.

(** The value of a run of decimal digits, read left to right. *)
Definition digits_value (l : list ascii) : Z :=
  fold_left (fun acc c => acc * 10 + digit_val c) l 0.

Definition dstep (acc : Z) (c : ascii) : Z := acc * 10 + digit_val c.

(** The characters of a decimal number with a fractional part. *)
Definition digit_or_point (c : ascii) : Prop := is_digit c = true \/ c = "."%char.

End Size.

(* ------------------------------------------------------------------------- *)
(** * time.sleep *)

Module Time.
Import Size.

(** The integer nearest to the double [m * 2^e] away from zero: [ceil] of a
    non-negative value, [floor] of a negative one (CPython's
    [_PyTime_ROUND_UP], the rounding of timeouts). *)
Definition round_away (m e : Z) : Z :=
  if 0 <=? e then m * 2 ^ e
  else if 0 <=? m then - ((- m) / 2 ^ (- e))
  else m / 2 ^ (- e).

(** [time.sleep(secs)] for a float [secs] (CPython's [time_sleep] and
    [_PyTime_FromSecondsObject]): NaN raises [ValueError]; the duration in
    nanoseconds is the double [secs * 1e9] rounded away from zero, and
    [OverflowError] is raised unless it lies in [-2^63, 2^63); a negative
    duration then raises [ValueError]; otherwise the call returns. *)
Definition py_sleep (secs : Float) : PyRes unit :=
  match secs with
  | NaN => PValueError
  | _ =>
      match float_mul secs (float_of_int (10 ^ 9)) with
      | Fin m e =>
          let ns := round_away m e in
          if (ns <? - 2 ^ 63) || (2 ^ 63 <=? ns) then POverflowError
          else if ns <? 0 then PValueError else POk tt
      | Inf _ => POverflowError
      | NaN => PValueError
      end
  end.

End Time.

(* ------------------------------------------------------------------------- *)
(** * human *)

Module Human.
Import Size.

(** [x < n] for a double and a Python int, compared exactly. *)
Definition float_lt_int (x : Float) (n : Z) : bool :=
  match x with
  | Fin m e => if 0 <=? e then m * 2 ^ e <? n else m <? n * 2 ^ (- e)
  | Inf neg => neg
  | NaN => false
  end.

(** [x /= 1024]: the quotient of [x] by [1024.0 = 2^10], rounded. *)
Definition float_div_1024 (x : Float) : Float :=
  match x with
  | Fin m e =>
      if 0 <=? e - 10 then round_signed 1 (m * 2 ^ (e - 10)) 1
      else round_signed 1 m (2 ^ (10 - e))
  | Inf neg => Inf neg
  | NaN => NaN
  end.

(** The decimal digits of [n >= 0], prepended to [acc]. *)
Fixpoint dec_digits (fuel : nat) (n : Z) (acc : list ascii) : list ascii :=
  match fuel with
  | O => acc
  | S f =>
      let acc := ascii_of_nat (48 + Z.to_nat (n mod 10)) :: acc in
      if n <? 10 then acc else dec_digits f (n / 10) acc
  end.

(** [str(n)] for a Python int (a number below [2^k] has at most [k] digits). *)
Definition str_of_int (n : Z) : list ascii :=
  let ds := dec_digits (S (Z.to_nat (Z.log2 (Z.abs n)))) (Z.abs n) [] in
  if n <? 0 then "-"%char :: ds else ds.

(** Two decimal digits of [0 <= r < 100]. *)
Definition pad2 (r : Z) : list ascii :=
  [ascii_of_nat (48 + Z.to_nat (r / 10)); ascii_of_nat (48 + Z.to_nat (r mod 10))].

(** [a / b] ([a >= 0], [b > 0]) with two decimals, rounded half to even,
    after a minus sign when [neg]. *)
Definition fixed2 (neg : bool) (a b : Z) : list ascii :=
  let r := round_half_even (a * 100) b in
  (if neg then ["-"%char] else []) ++ str_of_int (r / 100) ++ "."%char :: pad2 (r mod 100).

(** [f"{x:.2f}"]: the exact value of the double, correctly rounded. *)
Definition format_2f (x : Float) : list ascii :=
  match x with
  | Fin m e => let '(a, b) := scaled (Z.abs m) 1 (- e) in fixed2 (m <? 0) a b
  | Inf neg => if neg then chars "-inf" else chars "inf"
  | NaN => chars "nan"
  end.

Definition human_units : list string := ["B"; "KiB"; "MiB"; "GiB"; "TiB"]%string.

(** [for u in units: if f < 1024 or u == "TiB": return f"{f:.2f} {u}"; f /= 1024];
    [None] is falling off the loop (the function returns [None]). *)
Fixpoint human_loop (f : Float) (us : list string) : option (list ascii) :=
  match us with
  | [] => None
  | u :: r =>
      if float_lt_int f 1024 || String.eqb u "TiB" then
        Some (format_2f f ++ " "%char :: chars u)
      else human_loop (float_div_1024 f) r
  end.

(** [human(n)] of stress.py, and of qimi2_sim.py on an int: [float(n)]
    raises [OverflowError] when [n] rounds beyond the largest double. *)
Definition human_num (n : Z) : PyRes (option (list ascii)) :=
  match float_of_int n with
  | Inf _ => POverflowError
  | f => POk (human_loop f human_units)
  end.

(** [human(n)] returns without raising. *)
Definition human_ok (n : Z) : bool :=
  match human_num n with POverflowError => false | _ => true end.

(** [human(n)] of qimi2_sim.py: [None] is printed as [n/a]. *)
Definition human (n : option Z) : PyRes (option (list ascii)) :=
  match n with
  | None => POk (Some (chars "n/a"))
  | Some n => human_num n
  end.

(** Reference for the statements: [n] divided exactly by the power of 1024
    of its unit (the largest below [n], TiB at most), printed with two
    decimals. *)
Definition human_unit_index (n : Z) : nat :=
  if n <? 1024 then 0
  else if n <? 1024 ^ 2 then 1
  else if n <? 1024 ^ 3 then 2
  else if n <? 1024 ^ 4 then 3 else 4.

(** The least magnitude that [float] rounds to an infinity:
    [2^1024 - 2^970], half an ulp above the largest double. *)
Definition human_max : Z := 2 ^ 1024 - 2 ^ 970.

Definition human_exact (n : Z) : list ascii :=
  let j := human_unit_index n in
  fixed2 false n (1024 ^ Z.of_nat j) ++ " "%char :: chars (nth j human_units ""%string).

End Human.

(* ------------------------------------------------------------------------- *)
(** * Memory pressure engine: mem_burst (qimi2_sim.py) and allocate_slow
    (stress.py). *)

Module Mem.
Import Size Time Human.

(** Python exceptions that can leave the allocation loop: [bytearray] raises
    [OverflowError] on a count out of the range of [Py_ssize_t],
    [ValueError] on a negative count and [MemoryError] when the platform
    cannot satisfy the allocation; [human] raises [OverflowError] on a
    number too large for a double; [time.sleep] raises [ValueError] or
    [OverflowError]. *)
Inductive Exn := MemoryError | ValueError | OverflowError.

(** The log lines written by the two engines, with the numbers they print
    (before formatting by [human]). *)
Inductive LogRecord :=
| LBurstStart (want block headroom : Z) (lim : option Z)
| LSlowStart (total block : Z) (pause : Float) (headroom : Z)
| LHeadroomStop (cur lim : Z)
| LPlan (bsz allocated : Z)
| LAllocated (allocated : Z) (nblocks : nat) (cur peak : option Z)
| LMemoryError (allocated want : Z)
| LDone (allocated : Z) (nblocks : nat).

(** The world as seen by the engines: the value returned by the n-th call of
    read_mem_current, of read_cgroup_limits (its memory component), of
    read_mem_peak and of read_self_rss, and whether the n-th [bytearray]
    allocation succeeds. *)
Record Env := mkEnv {
  cur_at : nat -> option Z;
  lim_at : nat -> option Z;
  peak_at : nat -> option Z;
  rss_at : nat -> option Z;
  alloc_ok : nat -> bool
}.

(** Calls made so far to each reader and to the allocator, and the log. *)
Record St := mkSt {
  ncur : nat;
  nlim : nat;
  npeak : nat;
  nrss : nat;
  nalloc : nat;
  logs : list LogRecord
}.

Definition st0 : St := mkSt 0 0 0 0 0 [].

Definition log (s : St) (r : LogRecord) : St :=
  mkSt (ncur s) (nlim s) (npeak s) (nrss s) (nalloc s) (logs s ++ [r]).

Definition read_mem_current (env : Env) (s : St) : option Z * St :=
  (cur_at env (ncur s), mkSt (S (ncur s)) (nlim s) (npeak s) (nrss s) (nalloc s) (logs s)).

(** [lim,_,_ = read_cgroup_limits()] *)
Definition read_mem_limit (env : Env) (s : St) : option Z * St :=
  (lim_at env (nlim s), mkSt (ncur s) (S (nlim s)) (npeak s) (nrss s) (nalloc s) (logs s)).

Definition read_mem_peak (env : Env) (s : St) : option Z * St :=
  (peak_at env (npeak s), mkSt (ncur s) (nlim s) (S (npeak s)) (nrss s) (nalloc s) (logs s)).

Definition read_self_rss (env : Env) (s : St) : option Z * St :=
  (rss_at env (nrss s), mkSt (ncur s) (nlim s) (npeak s) (S (nrss s)) (nalloc s) (logs s)).

(** A number printed by [human(x)], or by [human(x) if x else 'n/a']:
    [None] is printed as [n/a] without raising, and [human(0)] never
    raises, so both forms raise exactly when [human] of the number does. *)
Definition human_opt_ok (o : option Z) : bool :=
  match o with Some n => human_ok n | None => true end.

(** [logger.log(f"...")] of a line that prints the numbers [vals] with
    [human]: the f-string is evaluated before the call, so when [human]
    raises [OverflowError] on one of them nothing is logged and the
    exception propagates.  The ratio [cur/lim*100] computed for the
    progress lines raises [OverflowError] only when [cur] itself is beyond
    the range of [human], so it adds no case of its own. *)
Definition log_human (vals : list (option Z)) (s : St) (r : LogRecord) : option Exn * St :=
  if forallb human_opt_ok vals then (None, log s r) else (Some OverflowError, s).

(** [blk = bytearray(bsz); touch_pages(blk)]: a count out of the range of
    [Py_ssize_t] ([-2^63 .. 2^63 - 1]) raises [OverflowError] and a negative
    count raises [ValueError], both before any allocation; otherwise the
    allocation succeeds or raises [MemoryError].  The block itself is
    zero-filled with one byte set per page; only its size matters to the
    engine, so a block is its size. *)
Definition bytearray (env : Env) (n : Z) (s : St) : option Exn * St :=
  if (n <? - 2 ^ 63) || (2 ^ 63 <=? n) then (Some OverflowError, s)
  else if n <? 0 then (Some ValueError, s)
  else (if alloc_ok env (nalloc s) then None else Some MemoryError,
        mkSt (ncur s) (nlim s) (npeak s) (nrss s) (S (nalloc s)) (logs s)).

(** [lim is not None and cur is not None and cur >= max(0, lim - headroom)];
    returns the two values printed by the headroom-stop record. *)
Definition headroom_stop (lim cur : option Z) (headroom : Z) : option (Z * Z) :=
  match lim, cur with
  | Some l, Some c => if Z.max 0 (l - headroom) <=? c then Some (c, l) else None
  | _, _ => None
  end.

(** Outcome of one iteration of the [while allocated < want] body. *)
Inductive IterRes :=
| Next (allocated : Z) (blocks : list Z) (s : St)
| Break (allocated : Z) (blocks : list Z) (s : St)
| Raise (e : Exn) (allocated : Z) (blocks : list Z) (s : St).

Definition iter_state (r : IterRes) : St :=
  match r with Next _ _ s | Break _ _ s | Raise _ _ _ s => s end.

Definition is_break (r : IterRes) : bool :=
  match r with Break _ _ _ => true | _ => false end.

Definition is_stop (o : option (Z * Z)) : bool :=
  match o with Some _ => true | None => false end.

(** [logger.log(f"... {human(cur)} / {human(lim)}"); break] *)
Definition stop_iter (allocated : Z) (blocks : list Z) (c l : Z) (s : St) : IterRes :=
  match log_human [Some c; Some l] s (LHeadroomStop c l) with
  | (Some e, s) => Raise e allocated blocks s
  | (None, s) => Break allocated blocks s
  end.

(** The part of the body shared by both engines: plan the next block and
    log the plan, allocate and touch the block, append it, re-sample the
    telemetry and log progress (qimi2_sim.py 101-108, stress.py 122-130).
    The engines differ in what they print: [plan_vals] are the numbers the
    plan line prints besides [bsz] and [allocated] (stress.py prints the
    usage read at the top of the iteration), and [post] makes the engine's
    further reads after the allocation and returns the numbers its progress
    line prints besides [allocated], [cur] and [peak]. *)
Definition alloc_block (env : Env) (want block allocated : Z) (blocks : list Z)
    (plan_vals : list (option Z)) (post : St -> list (option Z) * St) (s : St) : IterRes :=
  let remain := want - allocated in
  let bsz := Z.min block remain in
  match log_human (Some bsz :: Some allocated :: plan_vals) s (LPlan bsz allocated) with
  | (Some e, s) => Raise e allocated blocks s
  | (None, s) =>
      match bytearray env bsz s with
      | (Some e, s) => Raise e allocated blocks s
      | (None, s) =>
          let blocks := blocks ++ [bsz] in
          let allocated := allocated + bsz in
          let '(cur, s) := read_mem_current env s in
          let '(peak, s) := read_mem_peak env s in
          let '(vals, s) := post s in
          match log_human (Some allocated :: cur :: peak :: vals) s
                  (LAllocated allocated (List.length blocks) cur peak) with
          | (Some e, s) => Raise e allocated blocks s
          | (None, s) => Next allocated blocks s
          end
      end
  end.

(** After an allocation of mem_burst the progress line also prints [lim],
    the value read before the loop. *)
Definition burst_post (lim : option Z) (s : St) : list (option Z) * St := ([lim], s).

(** After an allocation of allocate_slow: [rss = read_self_rss()] (and
    [read_mem_events_v2()], printed as a dict, which cannot raise); the
    progress line also prints [rss] and [lim]. *)
Definition slow_post (env : Env) (lim : option Z) (s : St) : list (option Z) * St :=
  let '(rss, s) := read_self_rss env s in ([rss; lim], s).

(** Loop body of mem_burst: [lim] is the value read once before the loop. *)
Definition burst_iter (env : Env) (want block headroom : Z) (lim : option Z)
    (allocated : Z) (blocks : list Z) (s : St) : IterRes :=
  let '(cur, s) := read_mem_current env s in
  match headroom_stop lim cur headroom with
  | Some (c, l) => stop_iter allocated blocks c l s
  | None => alloc_block env want block allocated blocks [] (burst_post lim) s
  end.

(** [time.sleep(pause_sec)] *)
Definition sleep (pause : Float) : option Exn :=
  match py_sleep pause with
  | POk _ => None
  | PValueError => Some ValueError
  | POverflowError => Some OverflowError
  end.

(** Loop body of allocate_slow: current usage and limit are both read at the
    top of every iteration, and the iteration ends with a pause. *)
Definition slow_iter (env : Env) (total block : Z) (pause : Float) (headroom : Z)
    (allocated : Z) (blocks : list Z) (s : St) : IterRes :=
  let '(cur, s) := read_mem_current env s in
  let '(lim, s) := read_mem_limit env s in
  match headroom_stop lim cur headroom with
  | Some (c, l) => stop_iter allocated blocks c l s
  | None =>
      match alloc_block env total block allocated blocks [cur] (slow_post env lim) s with
      | Next a b s' =>
          match sleep pause with
          | None => Next a b s'
          | Some e => Raise e a b s'
          end
      | r => r
      end
  end.

Inductive LoopRes :=
| LoopDone (allocated : Z) (blocks : list Z) (s : St)
| LoopRaised (e : Exn) (allocated : Z) (blocks : list Z) (s : St)
| OutOfFuel.

(** [while allocated < want: body]; every unit of fuel is one evaluation of
    the loop guard, running out of fuel stands for a loop that does not end. *)
Fixpoint mem_loop (body : Z -> list Z -> St -> IterRes) (fuel : nat)
    (want allocated : Z) (blocks : list Z) (s : St) : LoopRes :=
  match fuel with
  | O => OutOfFuel
  | S f =>
      if allocated <? want then
        match body allocated blocks s with
        | Next a b s' => mem_loop body f want a b s'
        | Break a b s' => LoopDone a b s'
        | Raise e a b s' => LoopRaised e a b s'
        end
      else LoopDone allocated blocks s
  end.

(** What an engine call ends in: it returns its blocks, lets an exception
    escape, or never returns. *)
Inductive EngineRes :=
| Ret (blocks : list Z) (s : St)
| Exc (e : Exn) (s : St)
| Diverges.

(** The numbers of mem_burst's start line. *)
Definition burst_start_vals (want block headroom : Z) (lim : option Z) : list (option Z) :=
  [Some want; Some block; Some headroom; lim].

(** Lines 92-94 of qimi2_sim.py: the limit is read once, then the start
    line is logged, unless its f-string raises. *)
Definition burst_prelude (env : Env) (want block headroom : Z) (s : St)
    : option Z * St :=
  let '(lim, s) := read_mem_limit env s in
  (lim, snd (log_human (burst_start_vals want block headroom lim) s
                       (LBurstStart want block headroom lim))).

(** The start line is outside the [try], so its [OverflowError] escapes;
    [except MemoryError] logs the partial total, and that line's own
    [OverflowError] escapes too. *)
Definition mem_burst (fuel : nat) (env : Env) (want block headroom : Z) (s : St)
    : EngineRes :=
  let '(lim, s) := burst_prelude env want block headroom s in
  if negb (forallb human_opt_ok (burst_start_vals want block headroom lim))
  then Exc OverflowError s
  else
    match mem_loop (burst_iter env want block headroom lim) fuel want 0 [] s with
    | LoopDone _ blocks s => Ret blocks s
    | LoopRaised MemoryError allocated blocks s =>
        match log_human [Some allocated; Some want] s (LMemoryError allocated want) with
        | (None, s) => Ret blocks s
        | (Some e, s) => Exc e s
        end
    | LoopRaised e _ _ s => Exc e s
    | OutOfFuel => Diverges
    end.

(** The last line of allocate_slow: [logger.log(f"[mem] done: {human(allocated)} ...")];
    [return blocks]. *)
Definition slow_done (allocated : Z) (blocks : list Z) (s : St) : EngineRes :=
  match log_human [Some allocated] s (LDone allocated (List.length blocks)) with
  | (None, s) => Ret blocks s
  | (Some e, s) => Exc e s
  end.

Definition allocate_slow (fuel : nat) (env : Env) (total block : Z) (pause : Float)
    (headroom : Z) (s : St) : EngineRes :=
  match log_human [Some total; Some block; Some headroom] s
          (LSlowStart total block pause headroom) with
  | (Some e, s) => Exc e s
  | (None, s) =>
      match mem_loop (slow_iter env total block pause headroom) fuel total 0 [] s with
      | LoopDone allocated blocks s => slow_done allocated blocks s
      | LoopRaised MemoryError allocated blocks s =>
          match log_human [Some allocated; Some total] s (LMemoryError allocated total) with
          | (None, s) => slow_done allocated blocks s
          | (Some e, s) => Exc e s
          end
      | LoopRaised e _ _ s => Exc e s
      | OutOfFuel => Diverges
      end
  end.

(** ** Vocabulary for the statements *)

Fixpoint sum (l : list Z) : Z :=
  match l with [] => 0 | x :: r => x + sum r end.

(** [shaped block want acc b]: starting from a running total [acc], every
    block of [b] was appended while the total was below [want] and has size
    [min(block, want - total)], the total then growing by that size. *)
Fixpoint shaped (block want acc : Z) (b : list Z) : Prop :=
  match b with
  | [] => True
  | x :: r => acc < want /\ x = Z.min block (want - acc) /\ shaped block want (acc + x) r
  end.

(** What one pass of a loop body does to the running total and the block
    list (whatever the world answers): an appended block was allocated, so
    its size is not negative. *)
Definition body_spec (body : Z -> list Z -> St -> IterRes) (want block : Z) : Prop :=
  forall a b s,
  let x := Z.min block (want - a) in
  match body a b s with
  | Next a' b' _ => a' = a + x /\ b' = b ++ [x] /\ 0 <= x
  | Break a' b' _ => a' = a /\ b' = b
  | Raise MemoryError a' b' _ => a' = a /\ b' = b
  | Raise _ a' b' _ => (a' = a /\ b' = b) \/ (a' = a + x /\ b' = b ++ [x] /\ 0 <= x)
  end.

(** Every value the telemetry readers return can be printed by [human]
    (true of any value below 2^1024 - 2^970, so of every value a 64-bit
    kernel reports). *)
Definition printable (env : Env) : Prop :=
  forall n, human_opt_ok (cur_at env n) = true /\ human_opt_ok (lim_at env n) = true /\
            human_opt_ok (peak_at env n) = true /\ human_opt_ok (rss_at env n) = true.

(** An environment with no telemetry in which every allocation succeeds. *)
Definition env_free : Env :=
  mkEnv (fun _ => None) (fun _ => None) (fun _ => None) (fun _ => None) (fun _ => true).

Definition MiB : Z := 1048576.

(** The headroom scenario of the spec: the limit is 200 MiB, the usage
    sampled before the third allocation is 160 MiB, earlier samples 10 MiB. *)
Definition env_headroom : Env :=
  mkEnv (fun n => if Nat.eqb n 4 then Some (160 * MiB) else Some (10 * MiB))
        (fun _ => Some (200 * MiB)) (fun _ => None) (fun _ => None) (fun _ => true).

(** A limit that drops after its first read: 1000 bytes, then 0, with a
    constant usage of 10 bytes. *)
Definition env_limit_drops : Env :=
  mkEnv (fun _ => Some 10) (fun n => if Nat.eqb n 0 then Some 1000 else Some 0)
        (fun _ => None) (fun _ => None) (fun _ => true).

(** A body that always allocates the next block. *)
Definition body_total (body : Z -> list Z -> St -> IterRes) (want block : Z) : Prop :=
  forall a b s, 0 <= a < want ->
  exists s', body a b s = Next (a + Z.min block (want - a)) (b ++ [Z.min block (want - a)]) s'.

(** The conditions under which an iteration allocates its block and goes on:
    the running total is between 0 and the target, every printed number can
    be printed and the block is below 2^63. *)
Definition iter_ok (env : Env) (want block a : Z) : Prop :=
  printable env /\ 0 <= a < want /\ human_ok want = true /\ Z.min block want < 2 ^ 63 /\
  0 <= block.

End Mem.

(* ------------------------------------------------------------------------- *)
(** * io_burst (qimi2_sim.py) *)

Module Io.
Import Human.

Inductive IoMsg := MSkipped | MWriting | MDone | MError | MRemoved.

(** What io_burst does, in order, with the outcome of each call
    ([true]: it returned, [false]: it raised). [Chunk ok] is
    [bytes(1024*1024)], which raises [MemoryError] when it fails.
    [Write n ret] is [f.write(chunk[:n])] of [n] zero bytes on the
    unbuffered file: [Some k] when it returned [k], the number of bytes
    written, which may be less than [n] (the loop does not look at it);
    [None] when it raised [OSError]. *)
Inductive IoAct :=
| Makedirs (ok : bool)
| Mkstemp (ok : bool)
| Fdopen (ok : bool)
| Chunk (ok : bool)
| Write (n : Z) (ret : option Z)
| Flush (ok : bool)
| Fsync (ok : bool)
| Close (ok : bool)
| Remove (ok : bool)
| IoLog (m : IoMsg).

(** Outcomes of the calls; [write_ret i n] is that of the [i]-th write,
    of [n] bytes. *)
Record IoEnv := mkIoEnv {
  makedirs_ok : bool;
  mkstemp_ok : bool;
  fdopen_ok : bool;
  chunk_alloc_ok : bool;
  write_ret : nat -> Z -> option Z;
  flush_ok : bool;
  fsync_ok : bool;
  close_ok : bool;
  remove_ok : bool
}.

(** [IoRaise]: an exception escapes io_burst (from makedirs, mkstemp or the
    [human(size_bytes)] of the start log, which are outside the [try]). *)
Inductive IoRes :=
| IoReturn (tr : list IoAct)
| IoRaise (tr : list IoAct)
| IoOutOfFuel.

(** [len(chunk)]: [bytes(1024*1024)]. *)
Definition chunk_len : Z := 1024 * 1024.

(** [while left > 0: n = min(left, len(chunk)); f.write(chunk[:n]); left -= n];
    [i] counts the writes. [Some (true, tr)]: the loop ended; [Some (false, tr)]:
    a write raised. *)
Fixpoint write_loop (fuel : nat) (env : IoEnv) (i : nat) (left : Z) (tr : list IoAct)
  : option (bool * list IoAct) :=
  match fuel with
  | O => None
  | S f =>
      if 0 <? left then
        let n := Z.min left chunk_len in
        match write_ret env i n with
        | Some k => write_loop f env (S i) (left - n) (tr ++ [Write n (Some k)])
        | None => Some (false, tr ++ [Write n None])
        end
      else Some (true, tr)
  end.

(** The body of [with os.fdopen(fd, "wb", buffering=0) as f:]; the file is
    closed when the block is left, normally or by an exception. The
    boolean says whether the [with] statement completed without raising. *)
Definition with_file (fuel : nat) (env : IoEnv) (size : Z) (tr : list IoAct)
  : option (bool * list IoAct) :=
  if negb (fdopen_ok env) then Some (false, tr ++ [Fdopen false])
  else if negb (chunk_alloc_ok env) then
    Some (false, tr ++ [Fdopen true; Chunk false; Close (close_ok env)])
  else
    match write_loop fuel env 0 size (tr ++ [Fdopen true; Chunk true]) with
    | None => None
    | Some (wok, tr1) =>
        let '(bok, tr2) :=
          if negb wok then (false, tr1)
          else if negb (flush_ok env) then (false, tr1 ++ [Flush false])
          else (fsync_ok env, tr1 ++ [Flush true; Fsync (fsync_ok env)]) in
        Some (bok && close_ok env, tr2 ++ [Close (close_ok env)])
    end.

Definition io_burst (fuel : nat) (env : IoEnv) (size : Z) : IoRes :=
  if size <=? 0 then IoReturn [IoLog MSkipped]
  else if negb (makedirs_ok env) then IoRaise [Makedirs false]
  else if negb (mkstemp_ok env) then IoRaise [Makedirs true; Mkstemp false]
  (* logger.log(f"[io] writing {human(size_bytes)} to {path}") *)
  else if negb (human_ok size) then IoRaise [Makedirs true; Mkstemp true]
  else
    let tr0 := [Makedirs true; Mkstemp true; IoLog MWriting] in
    match with_file fuel env size tr0 with
    | None => IoOutOfFuel
    | Some (ok, tr1) =>
        let tr2 := tr1 ++ [IoLog (if ok then MDone else MError)] in
        (* finally: try: os.remove(path); log *)
        IoReturn (tr2 ++ Remove (remove_ok env) :: (if remove_ok env then [IoLog MRemoved] else []))
    end.

(** Enough fuel for the write loop: one more than the number of chunks. *)
Definition io_fuel (size : Z) : nat := (Z.to_nat (size / chunk_len) + 2)%nat.

(** Bytes written by the writes of a trace, as their return values say. *)
Fixpoint written (tr : list IoAct) : Z :=
  match tr with
  | Write _ (Some k) :: r => k + written r
  | _ :: r => written r
  | [] => 0
  end.

(** Bytes passed to the writes of a trace that returned. *)
Fixpoint requested (tr : list IoAct) : Z :=
  match tr with
  | Write n (Some _) :: r => n + requested r
  | _ :: r => requested r
  | [] => 0
  end.

(** The size of the [k]-th write of the loop that starts with [left] bytes. *)
Definition chunk_at (left : Z) (k : nat) : Z := Z.min (left - Z.of_nat k * chunk_len) chunk_len.

(** The number of writes of the loop: [ceil(left / 1 MiB)]. *)
Definition nchunks (left : Z) : nat := Z.to_nat ((left + chunk_len - 1) / chunk_len).

(** Actions that touch the file's data. *)
Definition data_act (a : IoAct) : bool :=
  match a with
  | Write _ _ | Flush _ | Fsync _ => true
  | _ => false
  end.

Definition creates_file (a : IoAct) : bool :=
  match a with
  | Mkstemp _ => true
  | _ => false
  end.

(** A write of at most one chunk, and of at least one byte. *)
Definition chunk_ok (a : IoAct) : Prop :=
  match a with
  | Write n _ => 0 < n <= chunk_len
  | _ => True
  end.

Definition all_writes_ok : IoEnv :=
  mkIoEnv true true true true (fun _ n => Some n) true true true true.


End Io.

(* ------------------------------------------------------------------------- *)
(** * The orchestration: main and the CPU phases *)

Module Orch.
Import Size Time.

(** The concurrent units a main process starts with [mp.Process]. *)
Inductive PUnit := IOUnit | CpuRampUnit.

(** The steps of a run, in the order the process performs them. Timeouts
    are in milliseconds; [None] is a [join()] without timeout. [Sleep secs]
    is a call [time.sleep(secs)]. *)
Inductive Action :=
| ReadLimits
| LogLimits
| ReadCpuStat
| ParseSizes
| RunMemEngine
| StartUnit (u : PUnit)
| LogUnitStarted (u : PUnit)
| JoinUnit (u : PUnit) (timeout_ms : option Z)
| GetAffinity
| StartCpuWorker (i : nat) (pin : option Z)
| LogWorkerStarted (i : nat)
| JoinCpuWorker (i : nat) (timeout_ms : option Z)
| Sleep (secs : Float)
| ReadMemCurrent
| ReadMemPeak
| ReadMemEvents
| ReadSelfRss
| LogSummary
| CloseLog.

Definition punit_eq_dec : forall u v : PUnit, {u = v} + {u <> v}.
Proof. decide equality. Defined.

Definition float_eq_dec : forall x y : Float, {x = y} + {x <> y}.
Proof. decide equality; first [apply Z.eq_dec | apply Bool.bool_dec]. Defined.

Definition action_eq_dec : forall a b : Action, {a = b} + {a <> b}.
Proof.
  decide equality;
    first [apply punit_eq_dec | apply float_eq_dec | apply Z.eq_dec | apply Nat.eq_dec
          | decide equality; apply Z.eq_dec].
Defined.

(** [pin = avail[i % len(avail)] if not no_affinity and avail else None] *)
Definition pin_for (avail : option (list Z)) (no_affinity : bool) (i : nat) : option Z :=
  if no_affinity then None
  else match avail with
       | Some (x :: r) => Some (nth (i mod List.length (x :: r)) (x :: r) 0)
       | _ => None
       end.

(** cpu_burst (qimi2_sim.py): start [nproc] workers, then [p.join()] each. *)
Definition cpu_burst (nproc : nat) (avail : option (list Z)) (no_affinity : bool) : list Action :=
  GetAffinity ::
  flat_map (fun i => [StartCpuWorker i (pin_for avail no_affinity i); LogWorkerStarted i])
           (seq 0 nproc)
  ++ map (fun i => JoinCpuWorker i None) (seq 0 nproc).

(** main (qimi2_sim.py), Burst mode, on a run in which no step raises:
    [cpus] is [args.cpus]. *)
Definition main_burst (cpus : Z) (avail : option (list Z)) (no_affinity : bool) : list Action :=
  [ReadLimits; LogLimits; ReadCpuStat; ParseSizes; RunMemEngine; ParseSizes; StartUnit IOUnit]
  ++ cpu_burst (Z.to_nat (Z.max 1 cpus)) avail no_affinity
  ++ [JoinUnit IOUnit (Some 1000); ReadMemCurrent; ReadMemPeak; ReadCpuStat; LogSummary; CloseLog].

(** The ramp loop of run_cpu_ramp (stress.py). [clock k] is the value of
    the [k]-th call to [time.time()] in milliseconds. [time.sleep] is
    [py_sleep]: an exception it raises leaves the loop and run_cpu_ramp.
    Starting a process and logging are taken not to raise. *)
Inductive RampRes :=
| RampDone (started : nat) (tr : list Action)
| RampRaised (tr : list Action).

(** The float [0.5]. *)
Definition half_second : Float := Fin 1 (-1).

Fixpoint ramp_loop (fuel : nat) (clock : nat -> Z) (k : nat) (stop_at : Z) (total : nat)
    (ramp_every : Float) (avail : option (list Z)) (no_affinity : bool) (started : nat)
    (tr : list Action) : option RampRes :=
  match fuel with
  | O => None
  | S f =>
      if clock k <? stop_at then
        if (started <? total)%nat then
          let tr1 := tr ++ [StartCpuWorker started (pin_for avail no_affinity started);
                            LogWorkerStarted started; Sleep ramp_every] in
          match py_sleep ramp_every with
          | POk _ => ramp_loop f clock (S k) stop_at total ramp_every avail no_affinity (S started) tr1
          | _ => Some (RampRaised tr1)
          end
        else
          let tr1 := tr ++ [Sleep half_second] in
          match py_sleep half_second with
          | POk _ => ramp_loop f clock (S k) stop_at total ramp_every avail no_affinity started tr1
          | _ => Some (RampRaised tr1)
          end
      else Some (RampDone started tr)
  end.

(** run_cpu_ramp: [stop_at = time.time() + max(1, duration)], the ramp loop,
    then [p.join(timeout=1.0)] for each worker. [Some (RampRaised tr)] is a
    run that ended with an exception. *)
Definition run_cpu_ramp (fuel : nat) (clock : nat -> Z) (total : nat) (duration : Z)
    (ramp_every : Float) (avail : option (list Z)) (no_affinity : bool) : option RampRes :=
  let stop_at := clock O + Z.max 1 duration * 1000 in
  match ramp_loop fuel clock 1 stop_at total ramp_every avail no_affinity 0 [GetAffinity] with
  | Some (RampDone started tr) =>
      Some (RampDone started (tr ++ map (fun i => JoinCpuWorker i (Some 1000)) (seq 0 started)))
  | r => r
  end.

(** Position of the first occurrence of [a] ([length tr] if none). *)
Fixpoint idx (a : Action) (tr : list Action) : nat :=
  match tr with
  | [] => O
  | x :: r => if action_eq_dec x a then O else S (idx a r)
  end.

(** [b] occurs in [tr], and [a] occurs before the first [b]. *)
Definition before (a b : Action) (tr : list Action) : Prop :=
  (idx a tr < idx b tr < List.length tr)%nat.

Definition beforeb (a b : Action) (tr : list Action) : bool :=
  (idx a tr <? idx b tr)%nat && (idx b tr <? List.length tr)%nat.

(** A clock that advances one second per call. *)
Definition clock_1s (k : nat) : Z := Z.of_nat k * 1000.

(** The two halves of cpu_burst's trace after [GetAffinity]: the worker
    starts of [range(s, s + n)] and the joins of those workers. *)
Definition workers_part (avail : option (list Z)) (no_affinity : bool) (s n : nat) : list Action :=
  flat_map (fun i => [StartCpuWorker i (pin_for avail no_affinity i); LogWorkerStarted i]) (seq s n).

Definition joins_part (s n : nat) : list Action := map (fun i => JoinCpuWorker i None) (seq s n).

End Orch.

(* ------------------------------------------------------------------------- *)
(** * The telemetry readers and touch_pages *)

Module Files.
Import Size.

(** The files the readers open: [fs p] is the text [open(p).read()]
    returns (newlines already translated), [None] when opening or reading
    [p] raises. *)
Definition FS := string -> option (list ascii).

(** [str.split()]: the maximal runs of non-space characters. *)
Fixpoint split_ws_aux (l cur : list ascii) : list (list ascii) :=
  match l with
  | [] => match cur with [] => [] | _ => [rev cur] end
  | c :: r =>
      if is_space c then
        match cur with
        | [] => split_ws_aux r []
        | _ => rev cur :: split_ws_aux r []
        end
      else split_ws_aux r (c :: cur)
  end.

Definition split_ws (l : list ascii) : list (list ascii) := split_ws_aux l [].

(** [for line in f]: the lines of the text, each with its ["\n"], the last
    one without it when the text does not end in a newline. *)
Fixpoint lines_aux (l cur : list ascii) : list (list ascii) :=
  match l with
  | [] => match cur with [] => [] | _ => [rev cur] end
  | c :: r =>
      if Ascii.eqb c "010"%char then rev (c :: cur) :: lines_aux r []
      else lines_aux r (c :: cur)
  end.

Definition lines (l : list ascii) : list (list ascii) := lines_aux l [].

(** [str.startswith] *)
Definition starts_with (l p : list ascii) : bool :=
  (List.length p <=? List.length l)%nat && chars_eqb (firstn (List.length p) l) p.

(** [with open(p) as f: x = int(f.read().strip())]: [None] when the file
    cannot be read or does not hold an integer. *)
Definition read_int (fs : FS) (p : string) : option Z :=
  match fs p with
  | Some c => match py_int (strip c) with POk n => Some n | _ => None end
  | None => None
  end.

(** [for p in ps: try: return int(open(p).read().strip()) except: pass]. *)
Fixpoint first_int (fs : FS) (ps : list string) : option Z :=
  match ps with
  | [] => None
  | p :: r => match read_int fs p with Some n => Some n | None => first_int fs r end
  end.

Definition read_mem_current (fs : FS) : option Z :=
  first_int fs ["/sys/fs/cgroup/memory.current"; "/sys/fs/cgroup/memory/memory.usage_in_bytes";
                "/sys/fs/cgroup/memory.usage_in_bytes"]%string.

Definition read_mem_peak (fs : FS) : option Z :=
  first_int fs ["/sys/fs/cgroup/memory.peak"; "/sys/fs/cgroup/memory/memory.max_usage_in_bytes";
                "/sys/fs/cgroup/memory.max_usage_in_bytes"]%string.

(** The [memory.max] block: ["max"] leaves [None], an integer is taken, anything
    else raises inside the [try] and leaves [None]. *)
Definition read_memory_max (fs : FS) : option Z :=
  match fs "/sys/fs/cgroup/memory.max"%string with
  | Some c =>
      let v := strip c in
      if chars_eqb v (chars "max") then None
      else match py_int v with POk n => Some n | _ => None end
  | None => None
  end.

(** The [cpu.max] block: [cpu_quota] is assigned before [int(a[1])] runs, so
    a bad period leaves the quota set. *)
Definition read_cpu_max (fs : FS) : option Z * option Z :=
  match fs "/sys/fs/cgroup/cpu.max"%string with
  | Some c =>
      match split_ws (strip c) with
      | [a0; a1] =>
          if chars_eqb a0 (chars "max") then (None, None)
          else match py_int a0 with
               | POk q => match py_int a1 with
                          | POk p => (Some q, Some p)
                          | _ => (Some q, None)
                          end
               | _ => (None, None)
               end
      | _ => (None, None)
      end
  | None => (None, None)
  end.

(** The cgroup v1 fallback for the CPU quota, taken only for [q > 0]. *)
Definition cpu_v1 (fs : FS) (qp : option Z * option Z) : option Z * option Z :=
  match read_int fs "/sys/fs/cgroup/cpu/cpu.cfs_quota_us"%string with
  | Some q =>
      match read_int fs "/sys/fs/cgroup/cpu/cpu.cfs_period_us"%string with
      | Some p => if 0 <? q then (Some q, Some p) else qp
      | None => qp
      end
  | None => qp
  end.

Definition read_cgroup_limits (fs : FS) : option Z * option Z * option Z :=
  let mem_limit :=
    match read_memory_max fs with
    | Some n => Some n
    | None => first_int fs ["/sys/fs/cgroup/memory/memory.limit_in_bytes";
                            "/sys/fs/cgroup/memory.limit_in_bytes"]%string
    end in
  let qp := read_cpu_max fs in
  let '(q, p) :=
    match qp with
    | (Some _, Some _) => qp
    | _ => cpu_v1 fs qp
    end in
  (mem_limit, q, p).

(** A Python dict from strings to ints, in insertion order: [d[k] = v]
    replaces the value of an existing key in place, or appends. *)
Definition Dict := list (list ascii * Z).

Fixpoint dict_set (d : Dict) (k : list ascii) (v : Z) : Dict :=
  match d with
  | [] => [(k, v)]
  | (k', v') :: r => if chars_eqb k' k then (k', v) :: r else (k', v') :: dict_set r k v
  end.

(** [d.get(k, default)] *)
Fixpoint dict_get (d : Dict) (k : list ascii) (default : Z) : Z :=
  match d with
  | [] => default
  | (k', v) :: r => if chars_eqb k' k then v else dict_get r k default
  end.

Definition dict_mem (d : Dict) (k : list ascii) : bool :=
  existsb (fun kv => chars_eqb (fst kv) k) d.

(** [k, v = line.strip().split(); int(v)]: [None] when the line does not
    split into exactly two fields (the unpacking raises) or [v] is not an
    integer. *)
Definition kv_line (line : list ascii) : option (list ascii * Z) :=
  match split_ws (strip line) with
  | [k; v] => match py_int v with POk n => Some (k, n) | _ => None end
  | _ => None
  end.

(** [for line in f: k, v = line.strip().split(); d[k] = int(v)] on the dict
    [d]: [true] when the loop ends, [false] when a line raises; the entries
    stored before the failing line stay in [d]. *)
Fixpoint kv_lines (ls : list (list ascii)) (d : Dict) : bool * Dict :=
  match ls with
  | [] => (true, d)
  | line :: r =>
      match kv_line line with
      | Some (k, n) => kv_lines r (dict_set d k n)
      | None => (false, d)
      end
  end.

(** Reference for the statements: the value on the last of the lines
    that names the key [k]. *)
Fixpoint last_value (ls : list (list ascii)) (k : list ascii) : option Z :=
  match ls with
  | [] => None
  | l :: r =>
      match last_value r k with
      | Some v => Some v
      | None =>
          match kv_line l with
          | Some (k', v) => if chars_eqb k' k then Some v else None
          | None => None
          end
      end
  end.

Definition read_cpu_stat_v2 (fs : FS) : Dict :=
  match fs "/sys/fs/cgroup/cpu.stat"%string with
  | Some c => snd (kv_lines (lines c) [])
  | None => []
  end.

(** The loop of read_mem_events_v2 (stress.py): [break] after the first file
    read to its end, [continue] after an exception, the same dict [d]
    throughout. *)
Fixpoint events_loop (fs : FS) (names : list string) (d : Dict) : Dict :=
  match names with
  | [] => d
  | n :: r =>
      match fs ("/sys/fs/cgroup/" ++ n)%string with
      | Some c =>
          match kv_lines (lines c) d with
          | (true, d') => d'
          | (false, d') => events_loop fs r d'
          end
      | None => events_loop fs r d
      end
  end.

Definition read_mem_events_v2 (fs : FS) : Dict :=
  events_loop fs ["memory.events.local"; "memory.events"]%string [].

(** The loop of read_self_rss (stress.py): at the first line starting with
    [VmRSS:], [int(line.split()[1]) * 1024]; an exception there (no second
    field, not an integer) ends the function with [None]. *)
Fixpoint rss_lines (ls : list (list ascii)) : option Z :=
  match ls with
  | [] => None
  | line :: r =>
      if starts_with line (chars "VmRSS:") then
        match nth_error (split_ws line) 1 with
        | Some w => match py_int w with POk kb => Some (kb * 1024) | _ => None end
        | None => None
        end
      else rss_lines r
  end.

Definition read_self_rss (fs : FS) : option Z :=
  match fs "/proc/self/status"%string with
  | Some c => rss_lines (lines c)
  | None => None
  end.

(** ** touch_pages *)

Definition PAGE_SIZE : Z := 4096.

(** [range(start, stop, step)] for [step > 0]. *)
Definition range (start stop step : Z) : list Z :=
  map (fun k => start + step * Z.of_nat k)
      (seq 0 (Z.to_nat ((stop - start + step - 1) / step))).

(** [buf[i] = v] for [0 <= i < len(buf)]. *)
Fixpoint set_nth (l : list Z) (i : nat) (v : Z) : list Z :=
  match l, i with
  | [], _ => []
  | _ :: r, O => v :: r
  | x :: r, S j => x :: set_nth r j v
  end.

(** A bytearray is the list of its bytes. *)
Definition touch_pages (buf : list Z) : list Z :=
  fold_left (fun b off => set_nth b (Z.to_nat off) 1)
            (range 0 (Z.of_nat (List.length buf)) PAGE_SIZE) buf.

(** [bytearray(n)] for [n >= 0]: [n] zero bytes. *)
Definition zeros (n : Z) : list Z := repeat 0 (Z.to_nat n).

End Files.

(* ------------------------------------------------------------------------- *)
(** * Proofs about parse_size *)

Module SizeProofs.
Import Size.

(** ** Rounding a value that is already a double *)

Lemma scaled_eq : forall a b e,
  scaled a b e = (a * 2 ^ Z.max 0 (- e), b * 2 ^ Z.max 0 e).
Proof.
  intros a b e. unfold scaled. destruct (0 <=? e) eqn:E.
  - apply Z.leb_le in E. rewrite (Z.max_l 0 (- e)) by lia. rewrite Z.max_r by lia.
    rewrite Z.pow_0_r, Z.mul_1_r. reflexivity.
  - apply Z.leb_gt in E. rewrite (Z.max_r 0 (- e)) by lia. rewrite Z.max_l by lia.
    rewrite Z.pow_0_r, Z.mul_1_r. reflexivity.
Qed.

Lemma pow2_split : forall x y, 0 <= x -> 0 <= y -> 2 ^ (x + y) = 2 ^ x * 2 ^ y.
Proof. intros. apply Z.pow_add_r; lia. Qed.

Lemma pow2_pos : forall x, 0 < 2 ^ x \/ x < 0.
Proof.
  intros x. destruct (Z.lt_ge_cases x 0); [right; auto|left; apply Z.pow_pos_nonneg; lia].
Qed.

Lemma pow2_gt0 : forall x, 0 <= x -> 0 < 2 ^ x.
Proof. intros. apply Z.pow_pos_nonneg; lia. Qed.

Lemma round_half_even_exact : forall q d, 0 < d -> round_half_even (q * d) d = q.
Proof.
  intros q d Hd. unfold round_half_even.
  rewrite Z.div_mul by lia. rewrite Z.mod_mul by lia.
  replace (d <? 2 * 0) with false by (symmetry; apply Z.ltb_ge; lia).
  replace (2 * 0 =? d) with false by (symmetry; apply Z.eqb_neq; lia). reflexivity.
Qed.

(** The exponent chosen by [round_ratio] leaves a quotient of at least
    2^52. *)
Lemma round_ratio_normal : forall a b,
  0 < a -> 0 < b ->
  let e0 := Z.log2 a - Z.log2 b - 52 in
  let e1 := if a * 2 ^ Z.max 0 (- e0) <? 2 ^ 52 * (b * 2 ^ Z.max 0 e0) then e0 - 1 else e0 in
  2 ^ 52 * (b * 2 ^ Z.max 0 e1) <= a * 2 ^ Z.max 0 (- e1).
Proof.
  intros a b Ha Hb e0 e1.
  destruct (Z.log2_spec a Ha) as [Ha1 Ha2]. destruct (Z.log2_spec b Hb) as [Hb1 Hb2].
  pose proof (Z.log2_nonneg a). pose proof (Z.log2_nonneg b).
  unfold e1. destruct (_ <? _) eqn:T.
  2: { apply Z.ltb_ge in T. lia. }
  clear T. set (la := Z.log2 a) in *. set (lb := Z.log2 b) in *.
  rewrite Z.pow_succ_r in Ha2, Hb2 by lia.
  destruct (Z.le_gt_cases 1 e0) as [He|He].
  - rewrite (Z.max_r 0 (e0 - 1)) by lia. rewrite (Z.max_l 0 (- (e0 - 1))) by lia.
    rewrite Z.pow_0_r, Z.mul_1_r.
    assert (E : 2 ^ la = 2 ^ 52 * 2 ^ lb * 2 * 2 ^ (e0 - 1)).
    { replace la with (52 + lb + 1 + (e0 - 1)) by (unfold e0 in *; lia).
      rewrite !pow2_split by lia. rewrite Z.pow_1_r. ring. }
    pose proof (pow2_gt0 (e0 - 1) ltac:(lia)). nia.
  - rewrite (Z.max_l 0 (e0 - 1)) by lia. rewrite (Z.max_r 0 (- (e0 - 1))) by lia.
    rewrite Z.pow_0_r, Z.mul_1_r.
    assert (E : 2 ^ 52 * 2 ^ lb * 2 = 2 ^ la * 2 ^ (- (e0 - 1))).
    { rewrite <- (pow2_split la) by lia.
      replace (la + - (e0 - 1)) with (52 + lb + 1) by (unfold e0 in *; lia).
      rewrite !pow2_split by lia. rewrite Z.pow_1_r. ring. }
    pose proof (pow2_gt0 (- (e0 - 1)) ltac:(lia)). nia.
Qed.

Lemma pow2_le_split : forall x y, 0 <= x <= y -> 2 ^ y = 2 ^ x * 2 ^ (y - x).
Proof. intros. rewrite <- pow2_split by lia. f_equal. lia. Qed.

Lemma pow2_ge2 : forall x, 1 <= x -> 2 <= 2 ^ x.
Proof.
  intros x Hx. replace x with (1 + (x - 1)) by lia.
  rewrite pow2_split by lia. rewrite Z.pow_1_r.
  pose proof (pow2_gt0 (x - 1) ltac:(lia)). lia.
Qed.

(** A ratio [a / b] that equals [n * 2^k] for a 53-bit [n], in the range of
    the doubles, is rounded to itself. *)
Lemma round_ratio_exact : forall a b n k,
  0 < b -> 0 < n < 2 ^ 53 -> -1074 <= k -> Z.log2 n + k < 1024 ->
  a * 2 ^ Z.max 0 (- k) = n * 2 ^ Z.max 0 k * b ->
  exists j, 0 <= j /\ round_ratio a b = Fin (n * 2 ^ j) (k - j).
Proof.
  intros a b n k Hb Hn Hk Hlog Heq.
  assert (Ha : 0 < a).
  { pose proof (pow2_gt0 (Z.max 0 (- k)) ltac:(lia)).
    pose proof (pow2_gt0 (Z.max 0 k) ltac:(lia)). nia. }
  pose proof (round_ratio_normal a b Ha Hb) as Hnorm. cbv zeta in Hnorm.
  unfold round_ratio. cbv zeta.
  rewrite (scaled_eq a b (Z.log2 a - Z.log2 b - 52)). cbv beta iota.
  set (e1 := if _ <? _ then _ else _) in *.
  clearbody e1.
  assert (P53 : 2 ^ 53 = 2 * 2 ^ 52) by reflexivity.
  assert (He1 : e1 <= k).
  { destruct (Z.le_gt_cases e1 k) as [|Hgt]; [assumption|exfalso].
    pose proof (pow2_ge2 (e1 - k) ltac:(lia)) as HP.
    destruct (Z.le_gt_cases 0 k) as [Hk0|Hk0].
    - rewrite (Z.max_r 0 e1), (Z.max_l 0 (- e1)), Z.pow_0_r, Z.mul_1_r in Hnorm by lia.
      rewrite (Z.max_l 0 (- k)), (Z.max_r 0 k), Z.pow_0_r, Z.mul_1_r in Heq by lia.
      rewrite (pow2_le_split k e1) in Hnorm by lia.
      pose proof (pow2_gt0 k Hk0). subst a.
      assert (2 ^ 52 * 2 ^ (e1 - k) * (2 ^ k * b) <= n * (2 ^ k * b)) by nia.
      apply Z.mul_le_mono_pos_r in H0; nia.
    - destruct (Z.le_gt_cases 0 e1) as [He0|He0].
      + rewrite (Z.max_r 0 e1), (Z.max_l 0 (- e1)), Z.pow_0_r, Z.mul_1_r in Hnorm by lia.
        rewrite (Z.max_r 0 (- k)), (Z.max_l 0 k), Z.pow_0_r, Z.mul_1_r in Heq by lia.
        assert (E : 2 ^ (e1 - k) = 2 ^ e1 * 2 ^ (- k)) by (rewrite <- pow2_split by lia; f_equal; lia).
        pose proof (pow2_gt0 (- k) ltac:(lia)).
        assert (2 ^ 52 * 2 ^ (e1 - k) * b <= n * b) by nia.
        apply Z.mul_le_mono_pos_r in H0; nia.
      + rewrite (Z.max_l 0 e1), (Z.max_r 0 (- e1)), Z.pow_0_r, Z.mul_1_r in Hnorm by lia.
        rewrite (Z.max_r 0 (- k)), (Z.max_l 0 k), Z.pow_0_r, Z.mul_1_r in Heq by lia.
        assert (E : 2 ^ (- k) = 2 ^ (- e1) * 2 ^ (e1 - k)) by (rewrite <- pow2_split by lia; f_equal; lia).
        pose proof (pow2_gt0 (- e1) ltac:(lia)).
        assert (2 ^ 52 * 2 ^ (e1 - k) * b <= n * b) by nia.
        apply Z.mul_le_mono_pos_r in H0; nia. }
  set (e := Z.max e1 (-1074)).
  assert (He : -1074 <= e <= k) by (unfold e; lia).
  clearbody e.
  rewrite (scaled_eq a b e). cbv beta iota.
  assert (Hex : a * 2 ^ Z.max 0 (- e) = n * 2 ^ (k - e) * (b * 2 ^ Z.max 0 e)).
  { destruct (Z.le_gt_cases 0 e) as [He0|He0].
    - rewrite (Z.max_r 0 e), (Z.max_l 0 (- e)), Z.pow_0_r, Z.mul_1_r by lia.
      rewrite (Z.max_l 0 (- k)), (Z.max_r 0 k), Z.pow_0_r, Z.mul_1_r in Heq by lia.
      rewrite Heq, (pow2_le_split e k) by lia. ring.
    - rewrite (Z.max_l 0 e), (Z.max_r 0 (- e)), Z.pow_0_r, Z.mul_1_r by lia.
      destruct (Z.le_gt_cases 0 k) as [Hk0|Hk0].
      + rewrite (Z.max_l 0 (- k)), (Z.max_r 0 k), Z.pow_0_r, Z.mul_1_r in Heq by lia.
        rewrite Heq. replace (k - e) with (k + - e) by lia.
        rewrite pow2_split by lia. ring.
      + rewrite (Z.max_r 0 (- k)), (Z.max_l 0 k), Z.pow_0_r, Z.mul_1_r in Heq by lia.
        rewrite (pow2_le_split (- k) (- e)) by lia.
        replace (- e - - k) with (k - e) by lia.
        rewrite Z.mul_assoc, Heq. ring. }
  rewrite Hex, round_half_even_exact
    by (pose proof (pow2_gt0 (Z.max 0 e) ltac:(lia)); nia).
  rewrite Z.log2_mul_pow2 by lia.
  replace (1024 <=? e + (k - e + Z.log2 n)) with false by (symmetry; apply Z.leb_gt; lia).
  exists (k - e). split; [lia|]. replace (k - (k - e)) with e by lia. reflexivity.
Qed.

(** ** Strings *)

Lemma digits_more_all : forall l acc n,
  Forall (fun c => is_digit c = true) l ->
  digits_more l acc n = (fold_left dstep l acc, (n + List.length l)%nat, []).
Proof.
  induction l as [|c r IH]; intros acc n Hl; simpl.
  - rewrite Nat.add_0_r. reflexivity.
  - inversion Hl; subst. rewrite H1. rewrite IH by assumption.
    f_equal. f_equal. lia.
Qed.

Lemma digits_more_stop : forall l c r acc n,
  Forall (fun c => is_digit c = true) l ->
  is_digit c = false -> Ascii.eqb c "_"%char = false ->
  digits_more (l ++ c :: r) acc n = (fold_left dstep l acc, (n + List.length l)%nat, c :: r).
Proof.
  induction l as [|x l IH]; intros c r acc n Hl Hc Hu; simpl.
  - rewrite Hc, Hu, Nat.add_0_r. reflexivity.
  - inversion Hl; subst. rewrite H1. rewrite IH by assumption.
    f_equal. f_equal. lia.
Qed.

Lemma digitpart_all : forall d,
  d <> [] -> Forall (fun c => is_digit c = true) d ->
  digitpart d = Some (digits_value d, List.length d, []).
Proof.
  intros [|c r] Hne Hd; [congruence|].
  inversion Hd; subst. simpl. rewrite H1. rewrite digits_more_all by assumption.
  reflexivity.
Qed.

Lemma digitpart_stop : forall d c r,
  d <> [] -> Forall (fun c => is_digit c = true) d ->
  is_digit c = false -> Ascii.eqb c "_"%char = false ->
  exists v n, digitpart (d ++ c :: r) = Some (v, n, c :: r).
Proof.
  intros [|x d] c r Hne Hd Hc Hu; [congruence|].
  inversion Hd; subst. simpl. rewrite H1. rewrite digits_more_stop by assumption.
  eauto.
Qed.

Lemma lstrip_spaces : forall w l,
  Forall (fun c => is_space c = true) w -> lstrip (w ++ l) = lstrip l.
Proof.
  induction w as [|c w IH]; intros l Hw; simpl; [reflexivity|].
  inversion Hw; subst. rewrite H1. apply IH; assumption.
Qed.

Lemma lstrip_solid : forall l r,
  l <> [] -> Forall (fun c => is_space c = false) l -> lstrip (l ++ r) = l ++ r.
Proof.
  intros [|c l] r Hne Hl; [congruence|]. inversion Hl; subst. simpl. rewrite H1. reflexivity.
Qed.

(** Surrounding whitespace is removed, nothing else. *)
Lemma strip_solid : forall w1 l w2,
  Forall (fun c => is_space c = true) w1 -> Forall (fun c => is_space c = true) w2 ->
  l <> [] -> Forall (fun c => is_space c = false) l ->
  strip (w1 ++ l ++ w2) = l.
Proof.
  intros w1 l w2 H1 H2 Hne Hl. unfold strip.
  rewrite lstrip_spaces by assumption. rewrite lstrip_solid by assumption.
  rewrite rev_app_distr. rewrite lstrip_spaces by (apply Forall_rev; assumption).
  rewrite <- (app_nil_r (rev l)). rewrite lstrip_solid.
  - rewrite app_nil_r. apply rev_involutive.
  - intro E. apply Hne. rewrite <- (rev_involutive l), E. reflexivity.
  - apply Forall_rev; assumption.
Qed.

Lemma digit_not_space : forall c, is_digit c = true -> is_space c = false.
Proof.
  intros c H. unfold is_digit, is_space in *.
  apply andb_prop in H as [H1 H2]. apply Nat.leb_le in H1, H2.
  apply orb_false_intro; apply andb_false_iff; right; apply Nat.leb_gt; lia.
Qed.

Lemma lower_char_id : forall c, (nat_of_ascii c < 65)%nat -> lower_char c = c.
Proof.
  intros c H. unfold lower_char.
  replace (65 <=? nat_of_ascii c)%nat with false by (symmetry; apply Nat.leb_gt; lia).
  reflexivity.
Qed.

Lemma digit_lower : forall c, is_digit c = true -> lower_char c = c.
Proof.
  intros c H. apply lower_char_id. unfold is_digit in H.
  apply andb_prop in H as [_ H]. apply Nat.leb_le in H. lia.
Qed.

Lemma space_lower : forall c, is_space c = true -> lower_char c = c.
Proof.
  intros c H. apply lower_char_id. unfold is_space in H.
  apply orb_prop in H as [H|H]; apply andb_prop in H as [_ H]; apply Nat.leb_le in H; lia.
Qed.

Lemma lower_id : forall P l, (forall c, P c -> lower_char c = c) -> Forall P l -> lower l = l.
Proof.
  intros P l HP Hl. unfold lower. induction Hl; simpl; [reflexivity|].
  rewrite HP, IHHl by assumption. reflexivity.
Qed.

Lemma is_space_lower : forall c, is_space (lower_char c) = is_space c.
Proof.
  intros c. unfold lower_char.
  destruct ((65 <=? nat_of_ascii c) && (nat_of_ascii c <=? 90))%nat eqn:E; [|reflexivity].
  apply andb_prop in E as [E1 E2]. apply Nat.leb_le in E1, E2.
  unfold is_space. rewrite nat_ascii_embedding by lia.
  replace ((28 <=? nat_of_ascii c) && (nat_of_ascii c <=? 32))%nat with false
    by (symmetry; apply andb_false_iff; right; apply Nat.leb_gt; lia).
  replace ((9 <=? nat_of_ascii c) && (nat_of_ascii c <=? 13))%nat with false
    by (symmetry; apply andb_false_iff; right; apply Nat.leb_gt; lia).
  replace ((28 <=? nat_of_ascii c + 32) && (nat_of_ascii c + 32 <=? 32))%nat with false
    by (symmetry; apply andb_false_iff; right; apply Nat.leb_gt; lia).
  replace ((9 <=? nat_of_ascii c + 32) && (nat_of_ascii c + 32 <=? 13))%nat with false
    by (symmetry; apply andb_false_iff; right; apply Nat.leb_gt; lia).
  reflexivity.
Qed.

Lemma chars_eqb_eq : forall x y, chars_eqb x y = true -> x = y.
Proof.
  induction x as [|a x IH]; intros [|b y] H; simpl in H; try discriminate; [reflexivity|].
  apply andb_prop in H as [H1 H2]. apply Ascii.eqb_eq in H1. subst. f_equal. auto.
Qed.

Lemma chars_eqb_refl : forall x, chars_eqb x x = true.
Proof. induction x; simpl; [reflexivity|]. rewrite Ascii.eqb_refl. assumption. Qed.

Lemma ends_with_split : forall l v, ends_with l v = true -> exists p, l = p ++ v.
Proof.
  intros l v H. unfold ends_with in H. apply andb_prop in H as [_ H].
  apply chars_eqb_eq in H. exists (firstn (List.length l - List.length v) l).
  rewrite <- H at 2. symmetry. apply firstn_skipn.
Qed.

Lemma ends_with_app : forall p q v,
  (List.length v <= List.length q)%nat -> ends_with (p ++ q) v = ends_with q v.
Proof.
  intros p q v H. unfold ends_with. rewrite length_app.
  replace (List.length v <=? List.length p + List.length q)%nat with true
    by (symmetry; apply Nat.leb_le; lia).
  replace (List.length v <=? List.length q)%nat with true by (symmetry; apply Nat.leb_le; lia).
  rewrite skipn_app. rewrite (skipn_all2 p) by lia.
  replace (List.length p + List.length q - List.length v - List.length p)%nat
    with (List.length q - List.length v)%nat by lia.
  reflexivity.
Qed.

Lemma drop_last_app : forall p q, drop_last (List.length q) (p ++ q) = p.
Proof.
  intros p q. unfold drop_last. rewrite length_app.
  replace (List.length p + List.length q - List.length q)%nat with (List.length p) by lia.
  rewrite firstn_app, Nat.sub_diag, firstn_O, app_nil_r. apply firstn_all.
Qed.

Lemma digit_eqb : forall c x, is_digit c = true -> is_digit x = false -> Ascii.eqb c x = false.
Proof. intros c x H1 H2. destruct (Ascii.eqb_spec c x); subst; congruence. Qed.

Lemma sign_digit : forall c r, is_digit c = true -> sign (c :: r) = (1, c :: r).
Proof.
  intros c r H. simpl. rewrite !(digit_eqb c) by (assumption || reflexivity). reflexivity.
Qed.

Lemma strip_digits : forall d,
  d <> [] -> Forall (fun c => is_digit c = true) d -> strip d = d.
Proof.
  intros d Hne Hd. rewrite <- (app_nil_r d) at 1. rewrite <- (app_nil_l (d ++ [])).
  apply strip_solid; auto.
  eapply Forall_impl; [|exact Hd]. apply digit_not_space.
Qed.

(** [int(d)] for a run of digits. *)
Lemma py_int_digits : forall d,
  d <> [] -> Forall (fun c => is_digit c = true) d ->
  py_int d = if (List.length d <=? int_max_str_digits)%nat then POk (digits_value d)
             else PValueError.
Proof.
  intros d Hne Hd. unfold py_int. rewrite strip_digits by assumption.
  destruct d as [|c r]; [congruence|]. inversion Hd; subst.
  rewrite sign_digit by assumption. rewrite digitpart_all by assumption.
  rewrite Z.mul_1_l. rewrite Nat.ltb_antisym. destruct (_ <=? _)%nat; reflexivity.
Qed.

(** [int(d1 + "." + d2)] raises [ValueError]. *)
Lemma py_int_point : forall d1 d2,
  d1 <> [] -> Forall (fun c => is_digit c = true) d1 ->
  Forall (fun c => is_digit c = true) d2 ->
  py_int (d1 ++ "."%char :: d2) = PValueError.
Proof.
  intros d1 d2 Hne H1 H2. unfold py_int.
  rewrite <- (app_nil_r (d1 ++ _)), <- (app_nil_l ((d1 ++ _) ++ [])).
  rewrite strip_solid; auto.
  2: { destruct d1; simpl; congruence. }
  2: { apply Forall_app; split.
       - eapply Forall_impl; [|exact H1]. apply digit_not_space.
       - constructor; [reflexivity|]. eapply Forall_impl; [|exact H2]. apply digit_not_space. }
  destruct d1 as [|c r]; [congruence|]. inversion H1; subst.
  rewrite <- app_comm_cons, sign_digit by assumption.
  rewrite app_comm_cons.
  destruct (digitpart_stop (c :: r) "."%char d2) as (v & n & E);
    [congruence | assumption | reflexivity | reflexivity |].
  rewrite E. reflexivity.
Qed.

(** [float(d)] for a run of digits is the double nearest to its value. *)
Lemma py_float_digits : forall d,
  d <> [] -> Forall (fun c => is_digit c = true) d ->
  py_float d = Some (float_of_int (digits_value d)).
Proof.
  intros d Hne Hd. unfold py_float, float_lit. rewrite strip_digits by assumption.
  assert (Hm : parse_mantissa d = Some (digits_value d, 0, [])).
  { unfold parse_mantissa. rewrite digitpart_all by assumption. reflexivity. }
  destruct d as [|c r]; [congruence|]. inversion Hd; subst.
  rewrite sign_digit by assumption. cbv beta iota zeta.
  rewrite (lower_id (fun c => is_digit c = true)) by (exact digit_lower || assumption).
  simpl chars. cbn [chars_eqb].
  rewrite !(digit_eqb c) by (assumption || reflexivity). cbn [andb orb].
  rewrite Hm. simpl. rewrite Z.mul_1_r. reflexivity.
Qed.

Lemma sorted_units_eq : sorted_units =
  [("ki"%string, 1024); ("mi"%string, 1024 ^ 2); ("gi"%string, 1024 ^ 3); ("ti"%string, 1024 ^ 4);
   ("k"%string, 1024); ("m"%string, 1024 ^ 2); ("g"%string, 1024 ^ 3); ("t"%string, 1024 ^ 4)].
Proof. reflexivity. Qed.

Lemma ends_with_last_digit : forall d' c q v,
  (List.length v <= S (List.length q))%nat ->
  ends_with ((d' ++ [c]) ++ q) v = ends_with (c :: q) v.
Proof. intros. rewrite <- app_assoc. apply ends_with_app. simpl. lia. Qed.

Lemma drop_last_len : forall n p q, n = List.length q -> drop_last n (p ++ q) = p.
Proof. intros n p q ->. apply drop_last_app. Qed.

(** A run of digits followed by a unit: [try_units] strips exactly that
    unit and multiplies by its factor. *)
Lemma try_units_unit : forall d u mul,
  d <> [] -> Forall (fun c => is_digit c = true) d -> In (u, mul) units ->
  try_units (d ++ chars u) sorted_units =
  match py_float d with
  | Some x => int_of_float (float_mul x (float_of_int mul))
  | None => PValueError
  end.
Proof.
  intros d u mul Hne Hd Hin.
  destruct (exists_last Hne) as (d' & c & ->).
  apply Forall_app in Hd as [_ Hc]. inversion Hc as [|? ? Hc1 _]; subst.
  rewrite sorted_units_eq.
  unfold units in Hin.
  repeat (destruct Hin as [E|Hin]; [injection E as <- <-|]); [..|destruct Hin];
    cbn [try_units];
    rewrite ?ends_with_last_digit by (simpl; lia);
    repeat match goal with
    | |- context [ends_with (c :: ?q) ?v] =>
        let b := eval cbn in (ends_with (c :: q) v) in
        change (ends_with (c :: q) v) with b
    end;
    rewrite ?(digit_eqb c "k"%char), ?(digit_eqb c "i"%char), ?(digit_eqb c "m"%char),
      ?(digit_eqb c "g"%char), ?(digit_eqb c "t"%char) by (assumption || reflexivity);
    cbn [andb];
    rewrite drop_last_len by reflexivity; reflexivity.
Qed.

Lemma round_signed_pos : forall a b, 0 < a -> round_signed 1 a b = round_ratio a b.
Proof.
  intros a b Ha. unfold round_signed.
  replace (a =? 0) with false by (symmetry; apply Z.eqb_neq; lia).
  replace (1 * a <? 0) with false by (symmetry; apply Z.ltb_ge; lia).
  rewrite Z.abs_eq by lia. reflexivity.
Qed.

Lemma log2_lt_53 : forall n, 0 < n < 2 ^ 53 -> Z.log2 n < 53.
Proof. intros n Hn. apply Z.log2_lt_pow2; lia. Qed.

(** [float(2^k)] is exact. *)
Lemma float_of_pow2 : forall k, 0 <= k <= 1000 ->
  exists j, 0 <= j /\ float_of_int (2 ^ k) = Fin (2 ^ j) (k - j).
Proof.
  intros k Hk. unfold float_of_int. rewrite round_signed_pos by (apply pow2_gt0; lia).
  assert (Z.log2 1 = 0) by reflexivity.
  destruct (round_ratio_exact (2 ^ k) 1 1 k) as (j & Hj & E); try lia.
  - rewrite (Z.max_l 0 (- k)), (Z.max_r 0 k) by lia. rewrite Z.pow_0_r. lia.
  - exists j. rewrite Z.mul_1_l in E. auto.
Qed.

(** [int(float(n) * float(2^k))] for a 53-bit [n] is [n * 2^k]. *)
Lemma int_float_mul_exact : forall n k,
  0 <= n < 2 ^ 53 -> 0 <= k <= 900 ->
  int_of_float (float_mul (float_of_int n) (float_of_int (2 ^ k))) = POk (n * 2 ^ k).
Proof.
  intros n k Hn Hk.
  destruct (float_of_pow2 k ltac:(lia)) as (j2 & Hj2 & E2). rewrite E2.
  destruct (Z.eq_dec n 0) as [->|Hn0].
  - cbn. destruct (0 <=? k - j2); reflexivity.
  - unfold float_of_int at 1. rewrite round_signed_pos by lia.
    pose proof (log2_lt_53 n ltac:(lia)).
    destruct (round_ratio_exact n 1 n 0) as (j1 & Hj1 & E1); try lia.
    { cbn. ring. }
    rewrite E1. unfold float_mul.
    set (p := n * 2 ^ j1 * 2 ^ j2).
    assert (Hp : p = n * 2 ^ (j1 + j2)) by (unfold p; rewrite pow2_split by lia; ring).
    assert (HL : Z.log2 n + k < 1024) by (pose proof (log2_lt_53 n); lia).
    destruct (0 <=? 0 - j1 + (k - j2)) eqn:Ee.
    + apply Z.leb_le in Ee. rewrite round_signed_pos
        by (unfold p; pose proof (pow2_gt0 j1 Hj1); pose proof (pow2_gt0 j2 Hj2);
            pose proof (pow2_gt0 _ Ee); nia).
      destruct (round_ratio_exact (p * 2 ^ (0 - j1 + (k - j2))) 1 n k) as (j & Hj & E); try lia.
      { rewrite (Z.max_l 0 (- k)), (Z.max_r 0 k), Z.pow_0_r by lia.
        rewrite Hp, !Z.mul_1_r, <- Z.mul_assoc, <- pow2_split by lia.
        f_equal. f_equal. lia. }
      rewrite E. unfold int_of_float.
      destruct (0 <=? k - j) eqn:Ek.
      * apply Z.leb_le in Ek. rewrite <- Z.mul_assoc, <- pow2_split by lia.
        f_equal. f_equal. f_equal. lia.
      * apply Z.leb_gt in Ek. rewrite (pow2_le_split k j) by lia.
        replace (- (k - j)) with (j - k) by lia.
        rewrite Z.mul_assoc, Z.quot_mul by (pose proof (pow2_gt0 (j - k)); lia).
        reflexivity.
    + apply Z.leb_gt in Ee. rewrite round_signed_pos
        by (unfold p; pose proof (pow2_gt0 j1 Hj1); pose proof (pow2_gt0 j2 Hj2); nia).
      destruct (round_ratio_exact p (2 ^ (- (0 - j1 + (k - j2)))) n k) as (j & Hj & E);
        try (pose proof (pow2_gt0 (- (0 - j1 + (k - j2))) ltac:(lia)); lia).
      { rewrite (Z.max_l 0 (- k)), (Z.max_r 0 k), Z.pow_0_r by lia.
        rewrite Hp, Z.mul_1_r, <- Z.mul_assoc, <- pow2_split by lia.
        f_equal. f_equal. lia. }
      rewrite E. unfold int_of_float.
      destruct (0 <=? k - j) eqn:Ek.
      * apply Z.leb_le in Ek. rewrite <- Z.mul_assoc, <- pow2_split by lia.
        f_equal. f_equal. f_equal. lia.
      * apply Z.leb_gt in Ek. rewrite (pow2_le_split k j) by lia.
        replace (- (k - j)) with (j - k) by lia.
        rewrite Z.mul_assoc, Z.quot_mul by (pose proof (pow2_gt0 (j - k)); lia).
        reflexivity.
Qed.

Lemma ends_with_last : forall l' x v,
  v <> [] -> ends_with (l' ++ [x]) v = true -> x = last v x.
Proof.
  intros l' x v Hv H. apply ends_with_split in H as [p H].
  destruct (exists_last Hv) as (v' & y & ->).
  rewrite app_assoc in H. apply app_inj_tail in H as [_ ->].
  symmetry. apply last_last.
Qed.

(** An input whose last character is a digit or a point matches no unit. *)
Lemma try_units_no_unit : forall l' x,
  is_digit x = true \/ x = "."%char ->
  try_units (l' ++ [x]) sorted_units = py_int (l' ++ [x]).
Proof.
  intros l' x Hx. rewrite sorted_units_eq. cbn [try_units].
  repeat match goal with
  | |- context [ends_with (l' ++ [x]) ?v] =>
      let E := fresh "E" in
      destruct (ends_with (l' ++ [x]) v) eqn:E;
      [exfalso; apply ends_with_last in E;
         [cbn in E; subst x; destruct Hx as [Hx|Hx]; [vm_compute in Hx|]; discriminate Hx
         | cbn; discriminate]
      |]
  end.
  reflexivity.
Qed.

Lemma digits_value_nonneg : forall d, 0 <= digits_value d.
Proof.
  intros d. unfold digits_value.
  assert (G : forall acc, 0 <= acc -> 0 <= fold_left (fun acc c => acc * 10 + digit_val c) d acc).
  { induction d as [|c r IH]; intros acc Hacc; simpl; [assumption|].
    apply IH. unfold digit_val. lia. }
  apply G. lia.
Qed.

Lemma units_solid : forall u mul, In (u, mul) units -> Forall (fun c => is_space c = false) (chars u).
Proof.
  intros u mul Hin. unfold units in Hin.
  repeat (destruct Hin as [E|Hin]; [injection E as <- <-; repeat constructor|]); destruct Hin.
Qed.

Lemma units_pow2 : forall u mul, In (u, mul) units -> exists p, 1 <= p <= 4 /\ mul = 2 ^ (10 * p).
Proof.
  intros u mul Hin. unfold units in Hin.
  repeat (destruct Hin as [E|Hin];
          [injection E as <- <-;
           first [exists 1; split; [lia | reflexivity] | exists 2; split; [lia | reflexivity]
                 | exists 3; split; [lia | reflexivity] | exists 4; split; [lia | reflexivity]]|]);
    destruct Hin.
Qed.

Lemma units_nonempty : forall u mul, In (u, mul) units -> chars u <> [].
Proof.
  intros u mul Hin. unfold units in Hin.
  repeat (destruct Hin as [E|Hin]; [injection E as <- <-; discriminate|]); destruct Hin.
Qed.

Lemma lower_app : forall l1 l2, lower (l1 ++ l2) = lower l1 ++ lower l2.
Proof. intros. apply map_app. Qed.

Lemma lower_solid : forall u' u mul,
  In (u, mul) units -> lower u' = chars u -> Forall (fun c => is_space c = false) u'.
Proof.
  intros u' u mul Hin Hl. pose proof (units_solid u mul Hin) as Hs.
  rewrite <- Hl in Hs. unfold lower in Hs. apply Forall_map in Hs.
  eapply Forall_impl; [|exact Hs]. intros c Hc. cbv beta in Hc. rewrite is_space_lower in Hc. exact Hc.
Qed.

(** ** C8: numbers with a unit *)

(** C8 counterexample: ["9007199254740993k"] is not 9007199254740993 * 1024;
    the number goes through a double, which rounds it to 2^53, and the
    result is 2^63. *)
Lemma parse_size_rounds_cex :
  parse_size "9007199254740993k" = POk 9223372036854775808 /\
  9223372036854775808 <> 9007199254740993 * 1024.
Proof. split; [vm_compute; reflexivity | lia]. Qed.

(** C8 (amended): an integer below 2^53 written in decimal digits,
    followed by a unit from the table in any letter case, with optional
    surrounding whitespace, parses to the integer times the unit's factor
    1024^p. *)
Theorem parse_size_unit_exact : forall w1 d u' w2 u mul,
  Forall (fun c => is_space c = true) w1 -> Forall (fun c => is_space c = true) w2 ->
  d <> [] -> Forall (fun c => is_digit c = true) d -> digits_value d < 2 ^ 53 ->
  In (u, mul) units -> lower u' = chars u ->
  parse_size (string_of_list_ascii (w1 ++ d ++ u' ++ w2)) = POk (digits_value d * mul).
Proof.
  intros w1 d u' w2 u mul H1 H2 Hne Hd Hlt Hin Hl.
  unfold parse_size. unfold chars at 1. rewrite list_ascii_of_string_of_list_ascii.
  rewrite (app_assoc d u' w2). rewrite strip_solid; try assumption.
  2: { destruct d; [congruence|]. discriminate. }
  2: { apply Forall_app. split; [|exact (lower_solid u' u mul Hin Hl)].
       eapply Forall_impl; [|exact Hd]. apply digit_not_space. }
  rewrite lower_app, Hl, (lower_id _ d digit_lower Hd).
  rewrite (try_units_unit d u mul) by assumption. rewrite py_float_digits by assumption.
  destruct (units_pow2 u mul Hin) as (p & Hp & ->).
  apply int_float_mul_exact; [split; [apply digits_value_nonneg | assumption] | lia].
Qed.

Lemma parse_size_unit_exact_witness :
  parse_size (string_of_list_ascii ([" "%char] ++ ["1"%char; "2"%char] ++ ["M"%char; "i"%char] ++ []))
  = POk (digits_value ["1"%char; "2"%char] * 1024 ^ 2) /\
  parse_size " 12Mi" = POk 12582912.
Proof.
  split.
  - apply (parse_size_unit_exact _ _ _ _ "mi"%string (1024 ^ 2)).
    + repeat constructor.
    + constructor.
    + discriminate.
    + repeat constructor.
    + vm_compute. reflexivity.
    + simpl. tauto.
    + reflexivity.
  - vm_compute. reflexivity.
Defined.

(** ** C9: numbers without a unit *)

(** C9 counterexample: a bare number with a fractional part is handed to
    [int], which raises [ValueError]. *)
Lemma parse_size_fraction_cex : parse_size "1.5" = PValueError.
Proof. vm_compute. reflexivity. Qed.

Lemma digit_or_point_lower : forall c, digit_or_point c -> lower_char c = c.
Proof. intros c [H| ->]; [apply digit_lower; assumption | reflexivity]. Qed.

Lemma digit_or_point_solid : forall c, digit_or_point c -> is_space c = false.
Proof. intros c [H| ->]; [apply digit_not_space; assumption | reflexivity]. Qed.

Lemma last_digit_or_point : forall l,
  l <> [] -> Forall digit_or_point l ->
  exists l' x, l = l' ++ [x] /\ (is_digit x = true \/ x = "."%char).
Proof.
  intros l Hne Hl. destruct (exists_last Hne) as (l' & x & E). exists l', x. split; [exact E|].
  rewrite E in Hl. apply Forall_app in Hl as [_ Hx]. inversion Hx. assumption.
Qed.

(** C9 (amended): a bare integer in decimal digits, with optional
    surrounding whitespace, parses to its value as a raw byte count when it
    has at most 4300 digits, and raises [ValueError] (int()'s digit limit)
    when it has more; the same digits followed by a fractional part make
    [parse_size] raise [ValueError]. *)
Theorem parse_size_bare_integer : forall w1 d w2,
  Forall (fun c => is_space c = true) w1 -> Forall (fun c => is_space c = true) w2 ->
  d <> [] -> Forall (fun c => is_digit c = true) d ->
  parse_size (string_of_list_ascii (w1 ++ d ++ w2)) =
    (if (List.length d <=? int_max_str_digits)%nat then POk (digits_value d) else PValueError) /\
  (forall d2, Forall (fun c => is_digit c = true) d2 ->
     parse_size (string_of_list_ascii (w1 ++ (d ++ "."%char :: d2) ++ w2)) = PValueError).
Proof.
  intros w1 d w2 H1 H2 Hne Hd.
  assert (Hdp : Forall digit_or_point d)
    by (eapply Forall_impl; [|exact Hd]; intros c Hc; left; exact Hc).
  split.
  - unfold parse_size. unfold chars at 1. rewrite list_ascii_of_string_of_list_ascii.
    rewrite strip_solid; try assumption.
    2: { eapply Forall_impl; [|exact Hd]. apply digit_not_space. }
    rewrite (lower_id _ d digit_lower Hd).
    destruct (last_digit_or_point d Hne Hdp) as (d' & x & E & Hx).
    rewrite E, try_units_no_unit, <- E by assumption.
    apply py_int_digits; assumption.
  - intros d2 Hd2.
    assert (Hl : Forall digit_or_point (d ++ "."%char :: d2)).
    { apply Forall_app. split; [exact Hdp|]. constructor; [right; reflexivity|].
      eapply Forall_impl; [|exact Hd2]. intros c Hc. left. exact Hc. }
    assert (Hne' : d ++ "."%char :: d2 <> []) by (destruct d; [congruence|]; discriminate).
    unfold parse_size. unfold chars at 1. rewrite list_ascii_of_string_of_list_ascii.
    rewrite strip_solid; try assumption.
    2: { eapply Forall_impl; [|exact Hl]. apply digit_or_point_solid. }
    rewrite (lower_id _ _ digit_or_point_lower Hl).
    destruct (last_digit_or_point _ Hne' Hl) as (l' & x & E & Hx).
    rewrite E, try_units_no_unit, <- E by assumption.
    apply py_int_point; assumption.
Qed.

Lemma parse_size_bare_integer_witness :
  parse_size (string_of_list_ascii ([] ++ ["4"%char; "2"%char] ++ [" "%char])) = POk 42 /\
  parse_size (string_of_list_ascii ([] ++ (["4"%char; "2"%char] ++ "."%char :: ["5"%char]) ++ [" "%char]))
  = PValueError.
Proof.
  destruct (parse_size_bare_integer [] ["4"%char; "2"%char] [" "%char]) as [Ha Hb].
  - constructor.
  - repeat constructor.
  - discriminate.
  - repeat constructor.
  - split; [exact Ha|]. apply Hb. repeat constructor.
Defined.
Lemma lower_solid_any : forall x,
  Forall (fun c => is_space c = false) (lower x) -> Forall (fun c => is_space c = false) x.
Proof.
  intros x H. unfold lower in H. apply Forall_map in H.
  eapply Forall_impl; [|exact H]. intros c Hc. cbv beta in Hc. rewrite is_space_lower in Hc. exact Hc.
Qed.

(** Surrounding whitespace is stripped, then the lowered text is matched
    against the units. *)
Lemma parse_size_solid : forall w1 x w2,
  Forall (fun c => is_space c = true) w1 -> Forall (fun c => is_space c = true) w2 ->
  Forall (fun c => is_space c = false) (lower x) -> lower x <> [] ->
  parse_size (string_of_list_ascii (w1 ++ x ++ w2)) = try_units (lower x) sorted_units.
Proof.
  intros w1 x w2 H1 H2 Hx Hne. unfold parse_size. unfold chars at 1.
  rewrite list_ascii_of_string_of_list_ascii.
  rewrite strip_solid; [reflexivity|assumption|assumption| |apply lower_solid_any; assumption].
  intros ->. exact (Hne eq_refl).
Qed.

(** Blank input: [int("")] raises [ValueError]. *)
Theorem parse_size_blank : forall w,
  Forall (fun c => is_space c = true) w -> parse_size (string_of_list_ascii w) = PValueError.
Proof.
  intros w H. unfold parse_size, chars. rewrite list_ascii_of_string_of_list_ascii.
  assert (E : strip w = []).
  { unfold strip. rewrite <- (app_nil_r w), lstrip_spaces by assumption. reflexivity. }
  rewrite E. reflexivity.
Qed.

Lemma parse_size_blank_witness : parse_size (string_of_list_ascii [" "%char; "009"%char]) = PValueError.
Proof. apply parse_size_blank. repeat constructor. Defined.

Ltac unit_cases Hin :=
  unfold units in Hin;
  repeat (destruct Hin as [E|Hin]; [injection E as <- <-; vm_compute; reflexivity|]);
  destruct Hin.

Ltac nonfinite_case H1 H2 Hs Hl Hu Hin :=
  rewrite parse_size_solid by
    (first [ assumption
           | rewrite lower_app, <- Hs, Hl; apply Forall_app; split; [repeat constructor | exact Hu]
           | rewrite lower_app, <- Hs; discriminate ]);
  rewrite lower_app, <- Hs, Hl; unit_cases Hin.

(** parse_size of an infinity with a unit, in any letter case and with
    optional surrounding whitespace, raises [OverflowError]
    ([int(float('inf') * mul)]); a NaN with a unit raises [ValueError]. *)
Theorem parse_size_nonfinite_unit : forall w1 s u' w2 u mul,
  Forall (fun c => is_space c = true) w1 -> Forall (fun c => is_space c = true) w2 ->
  In (u, mul) units -> lower u' = chars u ->
  (In (lower s) (map chars ["inf"%string; "+inf"%string; "-inf"%string; "infinity"%string;
                      "+infinity"%string; "-infinity"%string]) ->
   parse_size (string_of_list_ascii (w1 ++ (s ++ u') ++ w2)) = POverflowError) /\
  (In (lower s) (map chars ["nan"%string; "+nan"%string; "-nan"%string]) ->
   parse_size (string_of_list_ascii (w1 ++ (s ++ u') ++ w2)) = PValueError).
Proof.
  intros w1 s u' w2 u mul H1 H2 Hin Hl.
  pose proof (units_solid u mul Hin) as Hu.
  split; intros Hs; cbn [map chars list_ascii_of_string] in Hs;
    repeat (destruct Hs as [Hs|Hs]; [nonfinite_case H1 H2 Hs Hl Hu Hin|]); destruct Hs.
Qed.

Lemma parse_size_nonfinite_unit_witness :
  parse_size (string_of_list_ascii ([] ++ (["I"%char; "n"%char; "F"%char] ++ ["G"%char]) ++ [])) =
  POverflowError /\
  parse_size (string_of_list_ascii ([] ++ (["N"%char; "a"%char; "N"%char] ++ ["k"%char]) ++ [])) =
  PValueError.
Proof.
  split.
  - apply (proj1 (parse_size_nonfinite_unit [] ["I"%char; "n"%char; "F"%char] ["G"%char] []
                    "g"%string (1024 ^ 3) ltac:(constructor) ltac:(constructor)
                    ltac:(simpl; tauto) eq_refl)).
    simpl. tauto.
  - apply (proj2 (parse_size_nonfinite_unit [] ["N"%char; "a"%char; "N"%char] ["k"%char] []
                    "k"%string 1024 ltac:(constructor) ltac:(constructor)
                    ltac:(simpl; tauto) eq_refl)).
    simpl. tauto.
Defined.

(** The unit is found by the last character before it, whatever that
    character is, as long as it cannot end a unit itself. *)
Lemma try_units_unit_last : forall p c u mul,
  Ascii.eqb c "k"%char = false -> Ascii.eqb c "i"%char = false -> Ascii.eqb c "m"%char = false ->
  Ascii.eqb c "g"%char = false -> Ascii.eqb c "t"%char = false ->
  In (u, mul) units ->
  try_units ((p ++ [c]) ++ chars u) sorted_units =
  match py_float (p ++ [c]) with
  | Some x => int_of_float (float_mul x (float_of_int mul))
  | None => PValueError
  end.
Proof.
  intros p c u mul Hk Hi Hm Hg Ht Hin.
  rewrite sorted_units_eq.
  unfold units in Hin.
  repeat (destruct Hin as [E|Hin]; [injection E as <- <-|]); [..|destruct Hin];
    cbn [try_units];
    rewrite ?ends_with_last_digit by (simpl; lia);
    repeat match goal with
    | |- context [ends_with (c :: ?q) ?v] =>
        let b := eval cbn in (ends_with (c :: q) v) in
        change (ends_with (c :: q) v) with b
    end;
    rewrite ?Hk, ?Hi, ?Hm, ?Hg, ?Ht;
    cbn [andb];
    rewrite drop_last_len by reflexivity; reflexivity.
Qed.

Lemma neg_float_involutive : forall x, neg_float (neg_float x) = x.
Proof. intros [m e|n|]; cbn; [rewrite Z.opp_involutive|rewrite negb_involutive|]; reflexivity. Qed.

Lemma round_signed_opp : forall a b, round_signed 1 (- a) b = neg_float (round_signed 1 a b).
Proof.
  intros a b. unfold round_signed. destruct (Z.eqb_spec a 0) as [->|Ha]; [reflexivity|].
  replace (- a =? 0) with false by (symmetry; apply Z.eqb_neq; lia).
  rewrite Z.abs_opp.
  destruct (Z.ltb_spec (1 * - a) 0), (Z.ltb_spec (1 * a) 0); try lia;
    rewrite ?neg_float_involutive; reflexivity.
Qed.

Lemma round_signed_minus : forall a b, 0 <= a -> round_signed (-1) a b = neg_float (round_signed 1 a b).
Proof.
  intros a b Ha. replace (round_signed (-1) a b) with (round_signed 1 (- a) b).
  - apply round_signed_opp.
  - unfold round_signed. destruct (Z.eqb_spec a 0) as [->|Ha0]; [reflexivity|].
    replace (- a =? 0) with false by (symmetry; apply Z.eqb_neq; lia).
    rewrite Z.abs_opp. replace (-1 * a) with (1 * - a) by ring. reflexivity.
Qed.

Lemma float_mul_neg_l : forall x y, float_mul (neg_float x) y = neg_float (float_mul x y).
Proof.
  intros [m1 e1|n1|] [m2 e2|n2|]; cbn [neg_float float_mul]; try reflexivity.
  - replace (- m1 * m2) with (- (m1 * m2)) by ring.
    destruct (0 <=? e1 + e2).
    + replace (- (m1 * m2) * 2 ^ (e1 + e2)) with (- (m1 * m2 * 2 ^ (e1 + e2))) by ring.
      apply round_signed_opp.
    + apply round_signed_opp.
  - destruct (Z.eqb_spec m1 0) as [->|Hm]; [reflexivity|].
    replace (- m1 =? 0) with false by (symmetry; apply Z.eqb_neq; lia).
    destruct (Z.ltb_spec (- m1) 0), (Z.ltb_spec m1 0); try lia; destruct n2; reflexivity.
  - destruct (Z.eqb_spec m2 0) as [->|Hm]; [reflexivity|].
    destruct n1, (m2 <? 0); reflexivity.
  - destruct n1, n2; reflexivity.
Qed.

Lemma int_of_float_neg : forall x,
  int_of_float (neg_float x) =
  match int_of_float x with POk n => POk (- n) | PValueError => PValueError
                          | POverflowError => POverflowError end.
Proof.
  intros [m e|n|]; cbn [neg_float int_of_float]; try reflexivity.
  destruct (0 <=? e) eqn:E; [f_equal; ring|].
  apply Z.leb_gt in E. rewrite Z.quot_opp_l; [reflexivity|].
  pose proof (pow2_gt0 (- e)). lia.
Qed.

(** [float("-" + d)] for a run of digits. *)
Lemma py_float_neg_digits : forall d,
  d <> [] -> Forall (fun c => is_digit c = true) d ->
  py_float ("-"%char :: d) = Some (neg_float (float_of_int (digits_value d))).
Proof.
  intros d Hne Hd.
  assert (Hst : strip ("-"%char :: d) = "-"%char :: d).
  { rewrite <- (app_nil_r ("-"%char :: d)) at 1. rewrite <- (app_nil_l (("-"%char :: d) ++ [])).
    apply strip_solid; [constructor|constructor|discriminate|].
    constructor; [reflexivity|]. eapply Forall_impl; [|exact Hd]. apply digit_not_space. }
  unfold py_float, float_lit. rewrite Hst.
  change (sign ("-"%char :: d)) with (-1, d).
  assert (Hm : parse_mantissa d = Some (digits_value d, 0, [])).
  { unfold parse_mantissa. rewrite digitpart_all by assumption. reflexivity. }
  destruct d as [|c r]; [congruence|]. inversion Hd; subst.
  cbv beta iota zeta.
  rewrite (lower_id (fun c => is_digit c = true)) by (exact digit_lower || assumption).
  simpl chars. cbn [chars_eqb].
  rewrite !(digit_eqb c) by (assumption || reflexivity). cbn [andb orb].
  rewrite Hm. cbn [parse_exponent Z.add Z.leb Z.pow Z.opp]. rewrite Z.mul_1_r.
  unfold float_of_int. apply f_equal. apply round_signed_minus. apply digits_value_nonneg.
Qed.

(** parse_size accepts a minus sign: an integer below 2^53 in decimal
    digits after a [-], followed by a unit in any letter case, with optional
    surrounding whitespace, parses to the negative size [-(N * 1024^p)]. *)
Theorem parse_size_negative_unit : forall w1 d u' w2 u mul,
  Forall (fun c => is_space c = true) w1 -> Forall (fun c => is_space c = true) w2 ->
  d <> [] -> Forall (fun c => is_digit c = true) d -> digits_value d < 2 ^ 53 ->
  In (u, mul) units -> lower u' = chars u ->
  parse_size (string_of_list_ascii (w1 ++ ("-"%char :: d ++ u') ++ w2)) = POk (- (digits_value d * mul)).
Proof.
  intros w1 d u' w2 u mul H1 H2 Hne Hd Hlt Hin Hl.
  assert (Hlow : lower ("-"%char :: d ++ u') = ("-"%char :: d) ++ chars u).
  { change (lower ("-"%char :: d ++ u')) with ("-"%char :: lower (d ++ u')).
    rewrite lower_app, Hl, (lower_id _ d digit_lower Hd). reflexivity. }
  rewrite parse_size_solid; [|assumption|assumption| |].
  2: { rewrite Hlow. apply Forall_app. split; [|exact (units_solid u mul Hin)].
       constructor; [reflexivity|]. eapply Forall_impl; [|exact Hd]. apply digit_not_space. }
  2: { rewrite Hlow. discriminate. }
  rewrite Hlow.
  destruct (exists_last Hne) as (d' & c & Ed).
  assert (Hc : is_digit c = true) by (rewrite Ed in Hd; apply Forall_app in Hd as [_ Hc];
                                      inversion Hc; assumption).
  change (("-"%char :: d) ++ chars u) with ((["-"%char] ++ d) ++ chars u).
  rewrite Ed, app_assoc.
  rewrite (try_units_unit_last (["-"%char] ++ d') c u mul) by (assumption || apply digit_eqb; (assumption || reflexivity)).
  rewrite <- app_assoc, <- Ed. cbn [app].
  rewrite py_float_neg_digits by assumption.
  rewrite float_mul_neg_l, int_of_float_neg.
  destruct (units_pow2 u mul Hin) as (p & Hp & ->).
  rewrite int_float_mul_exact; [reflexivity| |lia].
  split; [apply digits_value_nonneg | assumption].
Qed.

Lemma parse_size_negative_unit_witness :
  parse_size (string_of_list_ascii ([] ++ ("-"%char :: ["3"%char] ++ ["K"%char]) ++ [])) =
  POk (- (digits_value ["3"%char] * 1024)) /\
  parse_size "-3K" = POk (-3072).
Proof.
  split.
  - apply (parse_size_negative_unit [] ["3"%char] ["K"%char] [] "k"%string 1024).
    + constructor.
    + constructor.
    + discriminate.
    + repeat constructor.
    + vm_compute. reflexivity.
    + simpl. tauto.
    + reflexivity.
  - vm_compute. reflexivity.
Defined.
End SizeProofs.

(* ------------------------------------------------------------------------- *)
(** * Proofs about human *)

Module HumanProofs.
Import Size Human SizeProofs.

Lemma rhe_scale : forall x d c, 0 < d -> 0 < c ->
  round_half_even (x * c) (d * c) = round_half_even x d.
Proof.
  intros x d c Hd Hc. unfold round_half_even.
  rewrite Z.div_mul_cancel_r, Z.mul_mod_distr_r by lia.
  pose proof (Z.mod_pos_bound x d Hd).
  destruct (d <? 2 * (x mod d)) eqn:E1; destruct (d * c <? 2 * (x mod d * c)) eqn:E2;
    try (apply Z.ltb_lt in E1 || apply Z.ltb_ge in E1);
    try (apply Z.ltb_lt in E2 || apply Z.ltb_ge in E2); try nia; try reflexivity.
  destruct (2 * (x mod d) =? d) eqn:E3; destruct (2 * (x mod d * c) =? d * c) eqn:E4;
    try (apply Z.eqb_eq in E3 || apply Z.eqb_neq in E3);
    try (apply Z.eqb_eq in E4 || apply Z.eqb_neq in E4); try nia; reflexivity.
Qed.

Lemma pow1024 : forall i, 0 <= i -> 1024 ^ i = 2 ^ (10 * i).
Proof. intros i Hi. rewrite Z.pow_mul_r by lia. reflexivity. Qed.

(** A double [n * 2^j * 2^(-10i-j)], i.e. [n / 1024^i] exactly. *)
Lemma human_lt : forall n i j, 0 <= i -> 0 <= j ->
  float_lt_int (Fin (n * 2 ^ j) (- (10 * i) - j)) 1024 = (n <? 1024 ^ (i + 1)).
Proof.
  intros n i j Hi Hj. unfold float_lt_int.
  rewrite pow1024 by lia. rewrite Z.mul_add_distr_l, Z.mul_1_r, pow2_split by lia.
  destruct (0 <=? - (10 * i) - j) eqn:E.
  - apply Z.leb_le in E. assert (i = 0) by lia. assert (j = 0) by lia. subst.
    replace (- (10 * 0) - 0) with 0 by lia. rewrite Z.pow_0_r, !Z.mul_1_r. reflexivity.
  - replace (- (- (10 * i) - j)) with (10 * i + j) by lia.
    rewrite pow2_split by lia.
    pose proof (pow2_gt0 j Hj). pose proof (pow2_gt0 (10 * i) ltac:(lia)).
    assert (2 ^ 10 = 1024) by reflexivity.
    destruct (Z.ltb_spec (n * 2 ^ j) (1024 * (2 ^ (10 * i) * 2 ^ j)));
      destruct (Z.ltb_spec n (2 ^ (10 * i) * 2 ^ 10)); try reflexivity; nia.
Qed.

Lemma human_fmt : forall n i j, 0 <= n -> 0 <= i -> 0 <= j ->
  format_2f (Fin (n * 2 ^ j) (- (10 * i) - j)) = fixed2 false n (1024 ^ i).
Proof.
  intros n i j Hn Hi Hj. unfold format_2f.
  pose proof (pow2_gt0 j Hj). pose proof (pow2_gt0 (10 * i) ltac:(lia)).
  rewrite Z.abs_eq by nia.
  replace (- (- (10 * i) - j)) with (10 * i + j) by lia.
  unfold scaled. replace (0 <=? 10 * i + j) with true by (symmetry; apply Z.leb_le; lia).
  replace (n * 2 ^ j <? 0) with false by (symmetry; apply Z.ltb_ge; nia).
  unfold fixed2. rewrite pow1024 by lia. rewrite pow2_split by lia.
  replace (n * 2 ^ j * 100) with (n * 100 * 2 ^ j) by ring.
  rewrite Z.mul_1_l, rhe_scale by lia. reflexivity.
Qed.

Lemma human_div : forall n i j, 0 < n < 2 ^ 53 -> 0 <= i <= 3 -> 0 <= j ->
  exists j', 0 <= j' /\
  float_div_1024 (Fin (n * 2 ^ j) (- (10 * i) - j)) = Fin (n * 2 ^ j') (- (10 * (i + 1)) - j').
Proof.
  intros n i j Hn Hi Hj. unfold float_div_1024.
  replace (0 <=? - (10 * i) - j - 10) with false by (symmetry; apply Z.leb_gt; lia).
  pose proof (pow2_gt0 j Hj).
  rewrite round_signed_pos by nia.
  pose proof (log2_lt_53 n Hn). pose proof (Z.log2_nonneg n).
  destruct (round_ratio_exact (n * 2 ^ j) (2 ^ (10 - (- (10 * i) - j))) n (- (10 * (i + 1))))
    as (j' & Hj' & E); try lia; try (apply pow2_gt0; lia).
  - rewrite (Z.max_r 0 (- - (10 * (i + 1)))), (Z.max_l 0 (- (10 * (i + 1)))), Z.pow_0_r by lia.
    replace (10 - (- (10 * i) - j)) with (j + - - (10 * (i + 1))) by lia.
    rewrite pow2_split by lia. ring.
  - exists j'. split; [exact Hj'|]. rewrite E. reflexivity.
Qed.

Lemma human_start : forall n, 0 < n < 2 ^ 53 ->
  exists j, 0 <= j /\ float_of_int n = Fin (n * 2 ^ j) (- (10 * 0) - j).
Proof.
  intros n Hn. unfold float_of_int. rewrite round_signed_pos by lia.
  pose proof (log2_lt_53 n Hn). pose proof (Z.log2_nonneg n).
  destruct (round_ratio_exact n 1 n 0) as (j & Hj & E); try lia.
  { cbn. ring. }
  exists j. split; [exact Hj|]. rewrite E. reflexivity.
Qed.

Lemma human_step : forall n i j u r, 0 <= n -> 0 <= i -> 0 <= j ->
  human_loop (Fin (n * 2 ^ j) (- (10 * i) - j)) (u :: r) =
  if (n <? 1024 ^ (i + 1)) || String.eqb u "TiB"
  then Some (fixed2 false n (1024 ^ i) ++ " "%char :: chars u)
  else human_loop (float_div_1024 (Fin (n * 2 ^ j) (- (10 * i) - j))) r.
Proof.
  intros n i j u r Hn Hi Hj. cbn [human_loop].
  rewrite human_lt, human_fmt by lia. reflexivity.
Qed.

(** human (stress.py, and qimi2_sim.py on an int) is exact for every
    [0 <= n < 2^53]: [float(n)] and the divisions by 1024 lose nothing, so
    the unit is B below 1024, KiB below 1024^2, MiB below 1024^3, GiB below
    1024^4 and TiB above (never a larger unit), and the number printed is
    [n / 1024^k] for that unit, rounded once, to two decimals. *)
Theorem human_num_exact : forall n, 0 <= n < 2 ^ 53 ->
  human_num n = POk (Some (human_exact n)).
Proof.
  intros n Hn. destruct (Z.eq_dec n 0) as [->|Hn0]; [reflexivity|].
  destruct (human_start n ltac:(lia)) as (j0 & Hj0 & E0).
  unfold human_num. rewrite E0. cbv iota beta.
  unfold human_units, human_exact, human_unit_index.
  rewrite human_step by lia. change (String.eqb "B" "TiB") with false. rewrite orb_false_r.
  destruct (n <? 1024 ^ (0 + 1)) eqn:L1; change (1024 ^ (0 + 1)) with 1024 in L1;
    rewrite L1; [reflexivity|].
  destruct (human_div n 0 j0 ltac:(lia) ltac:(lia) Hj0) as (j1 & Hj1 & E1). rewrite E1.
  rewrite human_step by lia. change (String.eqb "KiB" "TiB") with false. rewrite orb_false_r.
  destruct (n <? 1024 ^ (0 + 1 + 1)) eqn:L2; change (1024 ^ (0 + 1 + 1)) with (1024 ^ 2) in L2;
    rewrite L2; [reflexivity|].
  destruct (human_div n (0 + 1) j1 ltac:(lia) ltac:(lia) Hj1) as (j2 & Hj2 & E2). rewrite E2.
  rewrite human_step by lia. change (String.eqb "MiB" "TiB") with false. rewrite orb_false_r.
  destruct (n <? 1024 ^ (0 + 1 + 1 + 1)) eqn:L3;
    change (1024 ^ (0 + 1 + 1 + 1)) with (1024 ^ 3) in L3; rewrite L3; [reflexivity|].
  destruct (human_div n (0 + 1 + 1) j2 ltac:(lia) ltac:(lia) Hj2) as (j3 & Hj3 & E3). rewrite E3.
  rewrite human_step by lia. change (String.eqb "GiB" "TiB") with false. rewrite orb_false_r.
  destruct (n <? 1024 ^ (0 + 1 + 1 + 1 + 1)) eqn:L4;
    change (1024 ^ (0 + 1 + 1 + 1 + 1)) with (1024 ^ 4) in L4; rewrite L4; [reflexivity|].
  destruct (human_div n (0 + 1 + 1 + 1) j3 ltac:(lia) ltac:(lia) Hj3) as (j4 & Hj4 & E4).
  rewrite E4, human_step by lia. change (String.eqb "TiB" "TiB") with true.
  rewrite orb_true_r. reflexivity.
Qed.

Lemma human_num_exact_witness :
  (0 <= 1536 < 2 ^ 53) /\ human_num 1536 = POk (Some (human_exact 1536)).
Proof. split; [lia|]. apply human_num_exact. lia. Defined.

Lemma fixed2_whole : forall k d, 0 < d ->
  fixed2 false (k * d) d = str_of_int k ++ "."%char :: pad2 0.
Proof.
  intros k d Hd. unfold fixed2.
  replace (k * d * 100) with ((k * 100) * d) by ring.
  rewrite round_half_even_exact by exact Hd.
  rewrite Z.div_mul, Z.mod_mul by lia. reflexivity.
Qed.

Lemma human_unit_index_whole : forall k j, 1 <= k -> (j <= 4)%nat -> (k < 1024 \/ j = 4%nat) ->
  human_unit_index (k * 1024 ^ Z.of_nat j) = j.
Proof.
  intros k j Hk Hj Hkj. unfold human_unit_index.
  destruct j as [|[|[|[|[|j]]]]]; try lia; cbn [Z.of_nat];
  repeat match goal with
  | |- context [?a <? ?b] =>
      let E := fresh in destruct (Z.ltb_spec a b) as [E|E]; simpl in E
  end; first [reflexivity | exfalso; lia].
Qed.

(** human on a whole number of units: for [k >= 1] units of B, KiB, MiB,
    GiB ([k < 1024]) or TiB (any [k]), below [2^53] bytes, human prints
    [str(k)] followed by [.00] and the unit. *)
Theorem human_num_whole : forall k j, 1 <= k -> (j <= 4)%nat -> (k < 1024 \/ j = 4%nat) ->
  k * 1024 ^ Z.of_nat j < 2 ^ 53 ->
  human_num (k * 1024 ^ Z.of_nat j) =
  POk (Some (str_of_int k ++ chars ".00 " ++ chars (nth j human_units ""%string))).
Proof.
  intros k j Hk Hj Hkj Hb.
  assert (Hp : 0 < 1024 ^ Z.of_nat j) by (apply Z.pow_pos_nonneg; lia).
  rewrite human_num_exact by nia. unfold human_exact.
  rewrite human_unit_index_whole by assumption. rewrite fixed2_whole by exact Hp.
  rewrite <- app_assoc. reflexivity.
Qed.

Lemma human_num_whole_witness :
  human_num (2048 * 1024 ^ Z.of_nat 4) =
  POk (Some (str_of_int 2048 ++ chars ".00 " ++ chars (nth 4 human_units ""%string))).
Proof. apply human_num_whole; lia. Defined.


(** ** When [human] raises *)

Lemma rhe_range : forall n d, 0 < d ->
  round_half_even n d = n / d \/ (round_half_even n d = n / d + 1 /\ d <= 2 * (n mod d)).
Proof.
  intros n d Hd. unfold round_half_even.
  destruct (d <? 2 * (n mod d)) eqn:E1; [right; apply Z.ltb_lt in E1; split; [reflexivity|lia]|].
  destruct (2 * (n mod d) =? d) eqn:E2.
  - apply Z.eqb_eq in E2. destruct (Z.even (n / d)); [left; reflexivity|right; split; [reflexivity|lia]].
  - left; reflexivity.
Qed.

Lemma rhe_up_odd : forall n d, 0 < d -> d <= 2 * (n mod d) -> Z.even (n / d) = false ->
  round_half_even n d = n / d + 1.
Proof.
  intros n d Hd H He. unfold round_half_even.
  destruct (d <? 2 * (n mod d)) eqn:E1; [reflexivity|].
  apply Z.ltb_ge in E1. replace (2 * (n mod d) =? d) with true by (symmetry; apply Z.eqb_eq; lia).
  rewrite He. reflexivity.
Qed.

Lemma round_ratio_int : forall a, 1 <= a ->
  (round_ratio a 1 = Inf false /\ human_max <= a) \/
  ((exists m e, round_ratio a 1 = Fin m e) /\ a < human_max).
Proof.
  intros a Ha.
  assert (HM1 : human_max < 2 ^ 1024) by (apply Z.ltb_lt; vm_compute; reflexivity).
  assert (HM2 : 2 * 2 ^ 1022 < human_max) by (apply Z.ltb_lt; vm_compute; reflexivity).
  unfold round_ratio. rewrite scaled_eq. cbv beta iota zeta.
  replace (Z.log2 1) with 0 by reflexivity.
  pose proof (Z.log2_spec a ltac:(lia)) as [HL1 HL2].
  pose proof (Z.log2_nonneg a) as HL0.
  rewrite Z.pow_succ_r in HL2 by lia.
  set (L := Z.log2 a) in *.
  replace (L - 0 - 52) with (L - 52) by lia.
  destruct (Z.lt_ge_cases L 52) as [HL|HL].
  - rewrite (Z.max_r 0 (- (L - 52))) by lia. rewrite (Z.max_l 0 (L - 52)) by lia.
    assert (E : 2 ^ 52 = 2 ^ L * 2 ^ (- (L - 52))).
    { rewrite <- pow2_split by lia. f_equal. lia. }
    pose proof (pow2_gt0 (- (L - 52)) ltac:(lia)).
    replace (a * 2 ^ (- (L - 52)) <? 2 ^ 52 * (1 * 2 ^ 0)) with false
      by (symmetry; apply Z.ltb_ge; rewrite Z.pow_0_r; nia).
    rewrite (Z.max_l (L - 52) (-1074)) by lia. rewrite scaled_eq. cbv beta iota zeta.
    rewrite (Z.max_r 0 (- (L - 52))) by lia. rewrite (Z.max_l 0 (L - 52)) by lia.
    rewrite Z.pow_0_r, Z.mul_1_r.
    pose proof (round_half_even_exact (a * 2 ^ (- (L - 52))) 1 ltac:(lia)) as Hr.
    rewrite Z.mul_1_r in Hr. rewrite Hr.
    assert (Hl : Z.log2 (a * 2 ^ (- (L - 52))) = 52) by (rewrite Z.log2_mul_pow2 by lia; unfold L; lia).
    rewrite Hl.
    replace (1024 <=? L - 52 + 52) with false by (symmetry; apply Z.leb_gt; lia).
    right. split; [eauto|].
    assert (2 ^ L <= 2 ^ 1022) by (apply Z.pow_le_mono_r; lia). lia.
  - rewrite (Z.max_l 0 (- (L - 52))) by lia. rewrite (Z.max_r 0 (L - 52)) by lia.
    rewrite Z.pow_0_r, Z.mul_1_r, Z.mul_1_l.
    assert (E : 2 ^ L = 2 ^ 52 * 2 ^ (L - 52)).
    { rewrite <- pow2_split by lia. f_equal. lia. }
    replace (a <? 2 ^ 52 * 2 ^ (L - 52)) with false by (symmetry; apply Z.ltb_ge; lia).
    rewrite (Z.max_l (L - 52) (-1074)) by lia. rewrite scaled_eq. cbv beta iota zeta.
    rewrite (Z.max_l 0 (- (L - 52))) by lia. rewrite (Z.max_r 0 (L - 52)) by lia.
    rewrite Z.pow_0_r, Z.mul_1_r, Z.mul_1_l.
    set (D := 2 ^ (L - 52)) in *.
    assert (HD : 0 < D) by (apply pow2_gt0; lia).
    pose proof (Z.div_mod a D ltac:(lia)) as Hdm.
    pose proof (Z.mod_pos_bound a D HD) as Hr.
    set (q := a / D) in *. set (r := a mod D) in *.
    assert (Hq : 2 ^ 52 <= q < 2 ^ 53).
    { assert (2 ^ 53 = 2 * 2 ^ 52) by reflexivity. split; nia. }
    assert (Hm : round_half_even a D = q \/ (round_half_even a D = q + 1 /\ D <= 2 * r))
      by (apply rhe_range; lia).
    assert (Hlog : Z.log2 (round_half_even a D) = 52 \/
                   (Z.log2 (round_half_even a D) = 53 /\ q = 2 ^ 53 - 1 /\ D <= 2 * r)).
    { destruct (Z.eq_dec q (2 ^ 53 - 1)) as [Hq1|Hq1].
      - destruct Hm as [-> | [-> Hr2]].
        + left. apply Z.log2_unique; [lia|]. rewrite Hq1. split; [lia|reflexivity].
        + right. rewrite Hq1. replace (2 ^ 53 - 1 + 1) with (2 ^ 53) by lia.
          rewrite Z.log2_pow2 by lia. auto.
      - left. apply Z.log2_unique; [lia|].
        destruct Hm as [-> | [-> _]]; change (2 ^ (52 + 1)) with (2 ^ 53); lia. }
    destruct (Z.lt_ge_cases L 1023) as [H1|H1]; [|destruct (Z.eq_dec L 1023) as [H2|H2]].
    + replace (1024 <=? L - 52 + Z.log2 (round_half_even a D)) with false
        by (symmetry; apply Z.leb_gt; lia).
      right. split; [eauto|].
      assert (2 ^ L <= 2 ^ 1022) by (apply Z.pow_le_mono_r; lia). lia.
    + assert (HD971 : D = 2 ^ 971) by (unfold D; rewrite H2; reflexivity).
      assert (HMD : human_max = (2 ^ 53 - 1) * D + D / 2).
      { rewrite HD971. apply Z.eqb_eq. vm_compute. reflexivity. }
      assert (HD2 : D = 2 * (D / 2)) by (rewrite HD971; reflexivity).
      destruct Hlog as [Hlog | (Hlog & Hq1 & Hr2)].
      * rewrite Hlog. replace (1024 <=? L - 52 + 52) with false by (symmetry; apply Z.leb_gt; lia).
        right. split; [eauto|].
        destruct (Z.eq_dec q (2 ^ 53 - 1)) as [Hq1|Hq1].
        -- destruct Hm as [Hm | [Hm Hr2]].
           ++ (* rounded down: 2 r <= D with r mod ... *)
              destruct (Z.lt_ge_cases (2 * r) D) as [Hr3|Hr3]; [nia|].
              exfalso. assert (Z.even q = false) by (rewrite Hq1; reflexivity).
              assert (round_half_even a D = q + 1)
                by (apply rhe_up_odd; [lia|lia|assumption]). lia.
           ++ exfalso. rewrite Hm in Hlog. rewrite Hq1 in Hlog.
              replace (2 ^ 53 - 1 + 1) with (2 ^ 53) in Hlog by lia.
              rewrite Z.log2_pow2 in Hlog by lia. lia.
        -- assert (q <= 2 ^ 53 - 2) by lia. nia.
      * rewrite Hlog. replace (1024 <=? L - 52 + 53) with true by (symmetry; apply Z.leb_le; lia).
        left. split; [reflexivity|]. rewrite Hq1 in Hdm. nia.
    + assert (H3 : 1024 <= L) by lia.
      replace (1024 <=? L - 52 + Z.log2 (round_half_even a D)) with true
        by (symmetry; apply Z.leb_le; lia).
      left. split; [reflexivity|].
      assert (2 ^ 1024 <= 2 ^ L) by (apply Z.pow_le_mono_r; lia). lia.
Qed.

(** [human(n)] raises [OverflowError] exactly when [|n|] is at least
    [2^1024 - 2^970], the least magnitude [float] rounds to infinity. *)
Lemma human_ok_iff : forall n, human_ok n = (Z.abs n <? human_max).
Proof.
  intros n. unfold human_ok, human_num, float_of_int, round_signed.
  destruct (Z.eqb_spec n 0) as [->|Hn].
  - symmetry. apply Z.ltb_lt. cbn. apply Z.ltb_lt. vm_compute. reflexivity.
  - destruct (round_ratio_int (Z.abs n) ltac:(lia)) as [[E H]|[[m [e E]] H]]; rewrite E.
    + replace (Z.abs n <? human_max) with false by (symmetry; apply Z.ltb_ge; lia).
      destruct (1 * n <? 0); reflexivity.
    + replace (Z.abs n <? human_max) with true by (symmetry; apply Z.ltb_lt; lia).
      destruct (1 * n <? 0); reflexivity.
Qed.

Lemma human_ok_mono : forall x y, Z.abs x <= Z.abs y -> human_ok y = true -> human_ok x = true.
Proof.
  intros x y Hxy Hy. rewrite human_ok_iff in *. apply Z.ltb_lt in Hy. apply Z.ltb_lt. lia.
Qed.

(** Every number below 2^1023 in magnitude can be printed. *)
Lemma human_ok_small : forall x, Z.abs x <= 2 ^ 1023 -> human_ok x = true.
Proof.
  intros x Hx. rewrite human_ok_iff. apply Z.ltb_lt.
  assert (2 ^ 1023 < human_max) by (apply Z.ltb_lt; vm_compute; reflexivity). lia.
Qed.

Lemma human_loop_units : forall f, exists str, human_loop f human_units = Some str.
Proof.
  intros f. cbn [human_loop human_units].
  replace (String.eqb "TiB" "TiB") with true by reflexivity. rewrite orb_true_r.
  repeat match goal with |- context [if ?c then _ else _] => destruct c end; eauto.
Qed.

(** human (both scripts) on an int [n]: it raises [OverflowError] exactly
    when [|n| >= 2^1024 - 2^970]; below that it returns a string. *)
Theorem human_overflow_exact : forall n,
  (human_num n = POverflowError <-> human_max <= Z.abs n) /\
  (Z.abs n < human_max -> exists str, human_num n = POk (Some str)).
Proof.
  intros n. pose proof (human_ok_iff n) as H. unfold human_ok in H. split.
  - destruct (human_num n) eqn:E.
    + split; [discriminate|]. intros Hge. symmetry in H. apply Z.ltb_lt in H. lia.
    + split; [discriminate|]. unfold human_num in E. destruct (float_of_int n); discriminate.
    + split; [|reflexivity]. intros _. symmetry in H. apply Z.ltb_ge in H. exact H.
  - intros Hlt. unfold human_num in *. destruct (float_of_int n) as [m e|neg|] eqn:E.
    + destruct (human_loop_units (Fin m e)) as [str Hs]. exists str. rewrite Hs. reflexivity.
    + apply Z.ltb_lt in Hlt. rewrite Hlt in H. discriminate.
    + destruct (human_loop_units NaN) as [str Hs]. exists str. rewrite Hs. reflexivity.
Qed.

Lemma human_overflow_exact_witness :
  human_num (2 ^ 1024) = POverflowError /\ exists str, human_num 1 = POk (Some str).
Proof.
  split.
  - apply (proj1 (human_overflow_exact (2 ^ 1024))). apply Z.leb_le. vm_compute. reflexivity.
  - apply (proj2 (human_overflow_exact 1)). apply Z.ltb_lt. vm_compute. reflexivity.
Defined.

End HumanProofs.
(* ------------------------------------------------------------------------- *)
(** * Proofs about the memory engine *)

Module MemProofs.
Import Size Time Human HumanProofs Mem.

(** ** Boolean tests as propositions *)

Ltac bool_facts :=
  repeat match goal with
  | H : (_ <? _) = true |- _ => apply Z.ltb_lt in H
  | H : (_ <? _) = false |- _ => apply Z.ltb_ge in H
  | H : (_ <=? _) = true |- _ => apply Z.leb_le in H
  | H : (_ <=? _) = false |- _ => apply Z.leb_gt in H
  | H : (_ || _) = true |- _ => apply orb_true_iff in H
  | H : (_ || _) = false |- _ => apply orb_false_iff in H; destruct H
  end.

(** Split every [if] and every pair match of the goal. *)
Ltac split_ifs :=
  repeat (cbn beta iota zeta;
          match goal with
          | |- context [if ?c then _ else _] => destruct c eqn:?
          | |- context [match ?p with (_, _) => _ end] => destruct p eqn:?
          end).

(** The telemetry of a printable world, rewritten away. *)
Ltac printable_rw Hp :=
  repeat match goal with
  | |- context [human_opt_ok (cur_at _ ?n)] => rewrite (proj1 (Hp n))
  | |- context [human_opt_ok (lim_at _ ?n)] => rewrite (proj1 (proj2 (Hp n)))
  | |- context [human_opt_ok (peak_at _ ?n)] => rewrite (proj1 (proj2 (proj2 (Hp n))))
  | |- context [human_opt_ok (rss_at _ ?n)] => rewrite (proj2 (proj2 (proj2 (Hp n))))
  end.

(** ** Lists of blocks *)

Lemma sum_app : forall l1 l2, sum (l1 ++ l2) = sum l1 + sum l2.
Proof. induction l1 as [|x r IH]; intros; simpl; [|rewrite IH]; lia. Qed.

Lemma sum_nonneg : forall l, Forall (fun x => 0 <= x) l -> 0 <= sum l.
Proof. induction 1; simpl; lia. Qed.

Lemma shaped_snoc : forall block want b acc x,
  shaped block want acc (b ++ [x]) <->
  shaped block want acc b /\ acc + sum b < want /\ x = Z.min block (want - (acc + sum b)).
Proof.
  induction b as [|y r IH]; intros acc x; simpl.
  - rewrite !Z.add_0_r. tauto.
  - rewrite IH. rewrite !Z.add_assoc. tauto.
Qed.

Lemma shaped_bound : forall block want b acc,
  shaped block want acc b -> b <> [] -> acc + sum b <= want.
Proof.
  induction b as [|x r IH]; intros acc Hs Hne; [congruence|].
  simpl in Hs. destruct Hs as (Hlt & Hx & Hr).
  destruct r as [|y r'].
  - simpl. lia.
  - specialize (IH (acc + x) Hr ltac:(discriminate)). simpl in *. lia.
Qed.


(** ** One iteration *)

Lemma stop_iter_spec : forall a b c l s,
  match stop_iter a b c l s with
  | Break a' b' s' => a' = a /\ b' = b /\ human_ok c && human_ok l = true /\
                      In (LHeadroomStop c l) (logs s')
  | Raise e a' b' _ => e = OverflowError /\ a' = a /\ b' = b /\ human_ok c && human_ok l = false
  | Next _ _ _ => False
  end.
Proof.
  intros. unfold stop_iter, log_human. cbn [forallb human_opt_ok].
  rewrite andb_true_r. destruct (human_ok c && human_ok l) eqn:E; cbn.
  - repeat split; auto. apply in_or_app. right. left. reflexivity.
  - auto.
Qed.

Lemma alloc_block_spec : forall env want block a b pv post s,
  let x := Z.min block (want - a) in
  match alloc_block env want block a b pv post s with
  | Next a' b' _ => a' = a + x /\ b' = b ++ [x] /\ 0 <= x
  | Break _ _ _ => False
  | Raise MemoryError a' b' _ => a' = a /\ b' = b
  | Raise _ a' b' _ => (a' = a /\ b' = b) \/ (a' = a + x /\ b' = b ++ [x] /\ 0 <= x)
  end.
Proof.
  intros. unfold alloc_block, log_human, bytearray, read_mem_current, read_mem_peak.
  split_ifs; bool_facts; subst x; auto; try (right; repeat split; auto; lia);
    repeat split; auto; lia.
Qed.

Lemma burst_iter_spec : forall env want block headroom lim,
  body_spec (burst_iter env want block headroom lim) want block.
Proof.
  intros env want block headroom lim a b s x. unfold burst_iter. simpl.
  destruct (headroom_stop _ _ _) as [[c l]|].
  - match goal with |- context [stop_iter a b c l ?s1] =>
      pose proof (stop_iter_spec a b c l s1) as H; destruct (stop_iter a b c l s1) as [| |[| |]]
    end; intuition.
  - match goal with |- context [alloc_block env want block a b ?pv ?post ?s1] =>
      pose proof (alloc_block_spec env want block a b pv post s1) as H; cbv zeta in H; subst x;
      destruct (alloc_block env want block a b pv post s1) as [| |[| |]]
    end; intuition.
Qed.

Lemma slow_iter_spec : forall env total block pause headroom,
  body_spec (slow_iter env total block pause headroom) total block.
Proof.
  intros env total block pause headroom a b s x. unfold slow_iter. simpl.
  destruct (headroom_stop _ _ _) as [[c l]|].
  - match goal with |- context [stop_iter a b c l ?s1] =>
      pose proof (stop_iter_spec a b c l s1) as H; destruct (stop_iter a b c l s1) as [| |[| |]]
    end; intuition.
  - match goal with |- context [alloc_block env total block a b ?pv ?post ?s1] =>
      pose proof (alloc_block_spec env total block a b pv post s1) as H; cbv zeta in H; subst x;
      destruct (alloc_block env total block a b pv post s1) as [| |[| |]]
    end; try (unfold sleep; destruct (py_sleep pause)); intuition.
Qed.

(** ** The loop *)

Lemma mem_loop_S : forall body f want a b s,
  mem_loop body (S f) want a b s =
  if a <? want then
    match body a b s with
    | Next a' b' s' => mem_loop body f want a' b' s'
    | Break a' b' s' => LoopDone a' b' s'
    | Raise e a' b' s' => LoopRaised e a' b' s'
    end
  else LoopDone a b s.
Proof. reflexivity. Qed.

(** Wherever the loop ends, the running total is the sum of the appended
    blocks, the blocks are shaped and none is negative. *)
Lemma mem_loop_inv : forall body want block,
  body_spec body want block ->
  forall fuel a b s, a = sum b -> shaped block want 0 b -> Forall (fun x => 0 <= x) b ->
  match mem_loop body fuel want a b s with
  | LoopDone a' b' _ | LoopRaised _ a' b' _ =>
      a' = sum b' /\ shaped block want 0 b' /\ Forall (fun x => 0 <= x) b'
  | OutOfFuel => True
  end.
Proof.
  intros body want block Hb fuel. induction fuel as [|f IH]; intros a b s Ha Hs Hn; simpl; auto.
  destruct (a <? want) eqn:Hlt; [|auto].
  apply Z.ltb_lt in Hlt. specialize (Hb a b s). simpl in Hb.
  assert (Hext : forall x, x = Z.min block (want - a) -> 0 <= x ->
            a + x = sum (b ++ [x]) /\ shaped block want 0 (b ++ [x]) /\
            Forall (fun x => 0 <= x) (b ++ [x])).
  { intros x -> Hx. rewrite sum_app, shaped_snoc. simpl. subst a.
    repeat split; auto; try lia. apply Forall_app. auto. }
  destruct (body a b s) as [a' b' s'|a' b' s'|[| |] a' b' s'].
  - destruct Hb as (-> & -> & Hx). destruct (Hext _ eq_refl Hx) as (? & ? & ?). apply IH; auto.
  - destruct Hb as [-> ->]. auto.
  - destruct Hb as [-> ->]. auto.
  - destruct Hb as [[-> ->]|(-> & -> & Hx)]; auto; apply Hext; auto.
  - destruct Hb as [[-> ->]|(-> & -> & Hx)]; auto; apply Hext; auto.
Qed.

(** A property of the running total kept by every completed pass, with the
    exceptions a pass may raise, bounds what the whole loop may raise. *)
Lemma mem_loop_raises : forall (body : Z -> list Z -> St -> IterRes) want
    (P : Z -> Prop) (ok : Exn -> Prop),
  (forall a b s, P a -> a < want ->
     match body a b s with
     | Next a' _ _ => P a'
     | Break _ _ _ => True
     | Raise e _ _ _ => ok e
     end) ->
  forall fuel a b s, P a ->
  match mem_loop body fuel want a b s with
  | LoopRaised e _ _ _ => ok e
  | _ => True
  end.
Proof.
  intros body want P ok Hb fuel. induction fuel as [|f IH]; intros a b s Ha; simpl; auto.
  destruct (Z.ltb_spec a want) as [Hlt|Hge]; auto.
  specialize (Hb a b s Ha Hlt). destruct (body a b s); [apply IH; auto|auto|auto].
Qed.


Lemma burst_loop_total : forall fuel env want block headroom lim s,
  match mem_loop (burst_iter env want block headroom lim) fuel want 0 [] s with
  | LoopDone a b _ | LoopRaised _ a b _ =>
      a = sum b /\ shaped block want 0 b /\ Forall (fun x => 0 <= x) b
  | OutOfFuel => True
  end.
Proof. intros. apply mem_loop_inv; simpl; auto. apply burst_iter_spec. Qed.

Lemma slow_loop_total : forall fuel env total block pause headroom s,
  match mem_loop (slow_iter env total block pause headroom) fuel total 0 [] s with
  | LoopDone a b _ | LoopRaised _ a b _ =>
      a = sum b /\ shaped block total 0 b /\ Forall (fun x => 0 <= x) b
  | OutOfFuel => True
  end.
Proof. intros. apply mem_loop_inv; simpl; auto. apply slow_iter_spec. Qed.

(** The loop's running total when it ends lies between 0 and the target
    (or is 0). *)
Lemma loop_total_range : forall block want a b,
  a = sum b -> shaped block want 0 b -> Forall (fun x => 0 <= x) b ->
  0 <= a /\ (a <= want \/ a = 0).
Proof.
  intros block want a b Ha Hs Hn. pose proof (sum_nonneg b Hn).
  destruct b as [|x r]; [simpl in *; lia|].
  pose proof (shaped_bound block want (x :: r) 0 Hs ltac:(discriminate)). lia.
Qed.

(** ** The engines around their loops *)

Lemma mem_burst_eq : forall fuel env want block headroom s,
  let lim := lim_at env (nlim s) in
  let s1 := mkSt (ncur s) (S (nlim s)) (npeak s) (nrss s) (nalloc s) (logs s) in
  mem_burst fuel env want block headroom s =
  if forallb human_opt_ok (burst_start_vals want block headroom lim) then
    match mem_loop (burst_iter env want block headroom lim) fuel want 0 []
            (log s1 (LBurstStart want block headroom lim)) with
    | LoopDone _ blocks s => Ret blocks s
    | LoopRaised MemoryError allocated blocks s =>
        match log_human [Some allocated; Some want] s (LMemoryError allocated want) with
        | (None, s) => Ret blocks s
        | (Some e, s) => Exc e s
        end
    | LoopRaised e _ _ s => Exc e s
    | OutOfFuel => Diverges
    end
  else Exc OverflowError s1.
Proof.
  intros. unfold mem_burst, burst_prelude, read_mem_limit, log_human.
  cbn beta iota zeta. fold lim s1.
  destruct (forallb human_opt_ok (burst_start_vals want block headroom lim)); reflexivity.
Qed.

Lemma allocate_slow_eq : forall fuel env total block pause headroom s,
  forallb human_opt_ok [Some total; Some block; Some headroom] = true ->
  allocate_slow fuel env total block pause headroom s =
  match mem_loop (slow_iter env total block pause headroom) fuel total 0 []
          (log s (LSlowStart total block pause headroom)) with
  | LoopDone allocated blocks s => slow_done allocated blocks s
  | LoopRaised MemoryError allocated blocks s =>
      match log_human [Some allocated; Some total] s (LMemoryError allocated total) with
      | (None, s) => slow_done allocated blocks s
      | (Some e, s) => Exc e s
      end
  | LoopRaised e _ _ s => Exc e s
  | OutOfFuel => Diverges
  end.
Proof. intros. unfold allocate_slow, log_human at 1. rewrite H. reflexivity. Qed.

Lemma allocate_slow_start_raises : forall fuel env total block pause headroom s,
  forallb human_opt_ok [Some total; Some block; Some headroom] = false ->
  allocate_slow fuel env total block pause headroom s = Exc OverflowError s.
Proof. intros. unfold allocate_slow, log_human at 1. rewrite H. reflexivity. Qed.

(** ** One iteration, case by case *)

Lemma headroom_stop_none : forall l cur h,
  (forall c, cur = Some c -> c < Z.max 0 (l - h)) -> headroom_stop (Some l) cur h = None.
Proof.
  intros l [c|] h H; simpl; [|reflexivity].
  specialize (H c eq_refl). destruct (Z.max 0 (l - h) <=? c) eqn:E; [|reflexivity].
  apply Z.leb_le in E. lia.
Qed.

Lemma headroom_stop_some : forall l c h,
  0 <= c -> l - h <= c -> headroom_stop (Some l) (Some c) h = Some (c, l).
Proof.
  intros l c h H0 H1. simpl.
  replace (Z.max 0 (l - h) <=? c) with true by (symmetry; apply Z.leb_le; lia). reflexivity.
Qed.

Lemma in_log : forall s r, In r (logs (log s r)).
Proof. intros. simpl. apply in_or_app. right. left. reflexivity. Qed.

Lemma in_log_later : forall s r r', In r (logs s) -> In r (logs (log s r')).
Proof. intros. simpl. apply in_or_app. left. assumption. Qed.

Lemma sleep_ok : forall pause, py_sleep pause = POk tt -> sleep pause = None.
Proof. intros pause H. unfold sleep. rewrite H. reflexivity. Qed.

(** An allocation that succeeds, in a printable world, with printable
    running totals. *)
Lemma alloc_block_next : forall env want block a b pv post s,
  printable env ->
  alloc_ok env (nalloc s) = true -> 0 <= Z.min block (want - a) < 2 ^ 63 ->
  forallb human_opt_ok (Some (Z.min block (want - a)) :: Some a :: pv) = true ->
  human_ok (a + Z.min block (want - a)) = true ->
  (forall s0, forallb human_opt_ok (fst (post s0)) = true /\
              ncur (snd (post s0)) = ncur s0 /\ nlim (snd (post s0)) = nlim s0 /\
              nalloc (snd (post s0)) = nalloc s0) ->
  exists s', alloc_block env want block a b pv post s =
               Next (a + Z.min block (want - a)) (b ++ [Z.min block (want - a)]) s'
          /\ ncur s' = S (ncur s) /\ nlim s' = nlim s /\ nalloc s' = S (nalloc s).
Proof.
  intros env want block a b pv post s Hp Hok Hx Hplan Hsum Hpost.
  unfold alloc_block, log_human at 1. cbv zeta. rewrite Hplan.
  unfold bytearray.
  replace ((Z.min block (want - a) <? - 2 ^ 63) || (2 ^ 63 <=? Z.min block (want - a)))
    with false by (symmetry; apply orb_false_iff; split; [apply Z.ltb_ge | apply Z.leb_gt]; lia).
  replace (Z.min block (want - a) <? 0) with false by (symmetry; apply Z.ltb_ge; lia).
  cbn [log ncur nlim npeak nrss nalloc logs]. rewrite Hok.
  unfold read_mem_current, read_mem_peak. cbn [ncur nlim npeak nrss nalloc logs].
  match goal with |- context [post ?s0] =>
    destruct (Hpost s0) as (H1 & H2 & H3 & H4); destruct (post s0) as [vals s2] end.
  cbn [fst snd ncur nlim nalloc] in *. unfold log_human.
  cbn [forallb human_opt_ok]. rewrite Hsum, H1. printable_rw Hp. cbn.
  eexists. split; [reflexivity|]. cbn. auto.
Qed.

Lemma burst_post_spec : forall lim, human_opt_ok lim = true ->
  forall s0, forallb human_opt_ok (fst (burst_post lim s0)) = true /\
             ncur (snd (burst_post lim s0)) = ncur s0 /\ nlim (snd (burst_post lim s0)) = nlim s0 /\
             nalloc (snd (burst_post lim s0)) = nalloc s0.
Proof. intros lim H s0. cbn. rewrite H. auto. Qed.

Lemma slow_post_spec : forall env lim, printable env -> human_opt_ok lim = true ->
  forall s0, forallb human_opt_ok (fst (slow_post env lim s0)) = true /\
             ncur (snd (slow_post env lim s0)) = ncur s0 /\
             nlim (snd (slow_post env lim s0)) = nlim s0 /\
             nalloc (snd (slow_post env lim s0)) = nalloc s0.
Proof. intros env lim Hp H s0. cbn. rewrite H. printable_rw Hp. auto. Qed.

Lemma alloc_block_memory_error : forall env want block a b pv post s,
  alloc_ok env (nalloc s) = false -> 0 <= Z.min block (want - a) < 2 ^ 63 ->
  forallb human_opt_ok (Some (Z.min block (want - a)) :: Some a :: pv) = true ->
  exists s', alloc_block env want block a b pv post s = Raise MemoryError a b s'.
Proof.
  intros env want block a b pv post s Hko Hx Hplan.
  unfold alloc_block, log_human at 1. cbv zeta. rewrite Hplan.
  unfold bytearray.
  replace ((Z.min block (want - a) <? - 2 ^ 63) || (2 ^ 63 <=? Z.min block (want - a)))
    with false by (symmetry; apply orb_false_iff; split; [apply Z.ltb_ge | apply Z.leb_gt]; lia).
  replace (Z.min block (want - a) <? 0) with false by (symmetry; apply Z.ltb_ge; lia).
  cbn [log ncur nlim npeak nrss nalloc logs]. rewrite Hko. eexists. reflexivity.
Qed.

Lemma burst_iter_stop : forall env want block headroom lim a b s c l,
  headroom_stop lim (cur_at env (ncur s)) headroom = Some (c, l) ->
  burst_iter env want block headroom lim a b s =
  stop_iter a b c l (mkSt (S (ncur s)) (nlim s) (npeak s) (nrss s) (nalloc s) (logs s)).
Proof. intros. unfold burst_iter. simpl. rewrite H. reflexivity. Qed.

Lemma slow_iter_stop : forall env total block pause headroom a b s c l,
  headroom_stop (lim_at env (nlim s)) (cur_at env (ncur s)) headroom = Some (c, l) ->
  slow_iter env total block pause headroom a b s =
  stop_iter a b c l (mkSt (S (ncur s)) (S (nlim s)) (npeak s) (nrss s) (nalloc s) (logs s)).
Proof. intros. unfold slow_iter. simpl. rewrite H. reflexivity. Qed.

Lemma stop_iter_break : forall a b c l s,
  human_ok c = true -> human_ok l = true ->
  stop_iter a b c l s = Break a b (log s (LHeadroomStop c l)).
Proof.
  intros a b c l s Hc Hl. unfold stop_iter, log_human. cbn [forallb human_opt_ok].
  rewrite Hc, Hl. reflexivity.
Qed.

Lemma iter_ok_intro : forall env want block a,
  printable env -> 0 <= a < want -> human_ok want = true -> Z.min block want < 2 ^ 63 ->
  0 <= block -> iter_ok env want block a.
Proof. intros. unfold iter_ok. auto. Qed.

Lemma iter_ok_facts : forall env want block a,
  iter_ok env want block a ->
  0 <= Z.min block (want - a) < 2 ^ 63 /\ human_ok (Z.min block (want - a)) = true /\
  human_ok a = true /\ human_ok (a + Z.min block (want - a)) = true.
Proof.
  intros env want block a (Hp & Ha & Hw & Hb & Hb0).
  repeat split; try lia; apply (human_ok_mono _ want); auto; lia.
Qed.

Lemma burst_iter_next : forall env want block headroom lim a b s,
  iter_ok env want block a -> human_opt_ok lim = true ->
  headroom_stop lim (cur_at env (ncur s)) headroom = None ->
  alloc_ok env (nalloc s) = true ->
  exists s', burst_iter env want block headroom lim a b s =
               Next (a + Z.min block (want - a)) (b ++ [Z.min block (want - a)]) s'
          /\ ncur s' = S (S (ncur s)) /\ nlim s' = nlim s /\ nalloc s' = S (nalloc s).
Proof.
  intros env want block headroom lim a b s Hi Hl Hh Hok.
  destruct (iter_ok_facts env want block a Hi) as (Hx & H1 & H2 & H3).
  unfold burst_iter, read_mem_current. cbn [ncur nlim npeak nrss nalloc logs fst snd].
  rewrite Hh.
  destruct (alloc_block_next env want block a b [] (burst_post lim)
              (mkSt (S (ncur s)) (nlim s) (npeak s) (nrss s) (nalloc s) (logs s)))
    as (s' & E & E1 & E2 & E3); auto.
  - apply Hi.
  - cbn. rewrite H1, H2. reflexivity.
  - apply burst_post_spec; auto.
  - rewrite E. exists s'. cbn in *. auto.
Qed.

Lemma slow_iter_next : forall env total block pause headroom a b s,
  iter_ok env total block a -> py_sleep pause = POk tt ->
  headroom_stop (lim_at env (nlim s)) (cur_at env (ncur s)) headroom = None ->
  alloc_ok env (nalloc s) = true ->
  exists s', slow_iter env total block pause headroom a b s =
               Next (a + Z.min block (total - a)) (b ++ [Z.min block (total - a)]) s'
          /\ ncur s' = S (S (ncur s)) /\ nlim s' = S (nlim s) /\ nalloc s' = S (nalloc s).
Proof.
  intros env total block pause headroom a b s Hi Hsl Hh Hok.
  destruct (iter_ok_facts env total block a Hi) as (Hx & H1 & H2 & H3).
  destruct Hi as [Hp Hi'].
  unfold slow_iter, read_mem_current, read_mem_limit. cbn [ncur nlim npeak nrss nalloc logs fst snd].
  rewrite Hh.
  destruct (alloc_block_next env total block a b [cur_at env (ncur s)] (slow_post env (lim_at env (nlim s)))
              (mkSt (S (ncur s)) (S (nlim s)) (npeak s) (nrss s) (nalloc s) (logs s)))
    as (s' & E & E1 & E2 & E3); auto.
  - cbn. rewrite H1, H2. printable_rw Hp. reflexivity.
  - apply slow_post_spec; auto. apply Hp.
  - rewrite E, (sleep_ok pause Hsl). exists s'. cbn in *. auto.
Qed.

(** ** What escapes the loops *)

Lemma alloc_block_raises : forall env want block a b pv post s,
  iter_ok env want block a -> forallb human_opt_ok pv = true ->
  (forall s0, forallb human_opt_ok (fst (post s0)) = true) ->
  match alloc_block env want block a b pv post s with
  | Next a' _ _ => 0 <= a'
  | Break _ _ _ => True
  | Raise e _ _ _ => e = MemoryError
  end.
Proof.
  intros env want block a b pv post s Hi Hpv Hpost.
  destruct (iter_ok_facts env want block a Hi) as (Hx & H1 & H2 & H3).
  destruct Hi as (Hp & Ha & _).
  unfold alloc_block, log_human at 1. cbv zeta. cbn [forallb human_opt_ok].
  rewrite H1, H2, Hpv. cbn [andb].
  unfold bytearray.
  replace ((Z.min block (want - a) <? - 2 ^ 63) || (2 ^ 63 <=? Z.min block (want - a)))
    with false by (symmetry; apply orb_false_iff; split; [apply Z.ltb_ge | apply Z.leb_gt]; lia).
  replace (Z.min block (want - a) <? 0) with false by (symmetry; apply Z.ltb_ge; lia).
  cbn [log ncur nlim npeak nrss nalloc logs].
  destruct (alloc_ok env _); [|reflexivity].
  unfold read_mem_current, read_mem_peak. cbn [ncur nlim npeak nrss nalloc logs].
  match goal with |- context [post ?s0] =>
    pose proof (Hpost s0) as H4; destruct (post s0) as [vals s2] end.
  cbn [fst] in H4. unfold log_human. cbn [forallb human_opt_ok].
  rewrite H3, H4. printable_rw Hp. cbn. lia.
Qed.

Lemma burst_loop_raises : forall env want block headroom lim fuel s,
  printable env -> 0 <= block -> human_ok want = true -> Z.min block want < 2 ^ 63 ->
  human_opt_ok lim = true ->
  match mem_loop (burst_iter env want block headroom lim) fuel want 0 [] s with
  | LoopRaised e _ _ _ => e = MemoryError
  | _ => True
  end.
Proof.
  intros env want block headroom lim fuel s Hp Hb Hw Hbw Hl.
  apply (mem_loop_raises _ want (fun a => 0 <= a)); [|lia].
  intros a b s0 Ha Hlt. unfold burst_iter, read_mem_current. cbn [fst snd ncur].
  destruct (headroom_stop lim (cur_at env (ncur s0)) headroom) as [[c l]|] eqn:Eh.
  - pose proof (stop_iter_spec a b c l
                  (mkSt (S (ncur s0)) (nlim s0) (npeak s0) (nrss s0) (nalloc s0) (logs s0))) as H.
    destruct (stop_iter _ _ _ _ _) as [| |e]; [tauto|auto|].
    destruct H as (-> & _ & _ & Hcl). exfalso.
    destruct lim as [l'|]; [|discriminate]. destruct (cur_at env (ncur s0)) as [c'|] eqn:Ec;
      [|discriminate].
    cbn in Eh. destruct (_ <=? _); [|discriminate]. injection Eh as <- <-.
    pose proof (proj1 (Hp (ncur s0))) as Hc. rewrite Ec in Hc. cbn in Hc, Hl.
    rewrite Hc, Hl in Hcl. discriminate.
  - apply alloc_block_raises; auto.
    + apply iter_ok_intro; auto; lia.
    + intros s1. cbn. rewrite Hl. reflexivity.
Qed.

Lemma slow_loop_raises : forall env total block pause headroom fuel s,
  printable env -> 0 <= block -> human_ok total = true -> Z.min block total < 2 ^ 63 ->
  py_sleep pause = POk tt ->
  match mem_loop (slow_iter env total block pause headroom) fuel total 0 [] s with
  | LoopRaised e _ _ _ => e = MemoryError
  | _ => True
  end.
Proof.
  intros env total block pause headroom fuel s Hp Hb Hw Hbw Hsl.
  apply (mem_loop_raises _ total (fun a => 0 <= a)); [|lia].
  intros a b s0 Ha Hlt. unfold slow_iter, read_mem_current, read_mem_limit. cbn [fst snd ncur nlim].
  destruct (headroom_stop _ _ headroom) as [[c l]|] eqn:Eh.
  - match goal with |- context [stop_iter a b c l ?s1] =>
      pose proof (stop_iter_spec a b c l s1) as H; destruct (stop_iter a b c l s1) as [| |e] end;
      [tauto|auto|].
    destruct H as (-> & _ & _ & Hcl). exfalso.
    destruct (lim_at env (nlim s0)) as [l'|] eqn:El; [|discriminate].
    destruct (cur_at env (ncur s0)) as [c'|] eqn:Ec; [|discriminate].
    cbn in Eh. destruct (_ <=? _); [|discriminate]. injection Eh as <- <-.
    pose proof (proj1 (Hp (ncur s0))) as Hc. rewrite Ec in Hc.
    pose proof (proj1 (proj2 (Hp (nlim s0)))) as Hl. rewrite El in Hl. cbn in Hc, Hl.
    rewrite Hc, Hl in Hcl. discriminate.
  - match goal with |- context [alloc_block env total block a b ?pv ?post ?s1] =>
      pose proof (alloc_block_raises env total block a b pv post s1) as H;
      destruct (alloc_block env total block a b pv post s1) end.
    + rewrite (sleep_ok pause Hsl). apply H; [apply iter_ok_intro; auto; lia|..].
      * cbn. printable_rw Hp. reflexivity.
      * intros s2. cbn. printable_rw Hp. reflexivity.
    + auto.
    + apply H; [apply iter_ok_intro; auto; lia|..].
      * cbn. printable_rw Hp. reflexivity.
      * intros s2. cbn. printable_rw Hp. reflexivity.
Qed.

(** ** C1 *)




(** ** C2 *)

(** C2.  Scenario with limit 200 MiB and headroom 50 MiB, blocks of 80 MiB
    and a target above 160 MiB: if the first two samples of current usage
    stay below limit - headroom = 150 MiB (or are absent), both allocations
    succeed, and the sample taken before the third allocation reports
    160 MiB, then mem_burst and allocate_slow return exactly the two blocks
    of 80 MiB (160 MiB) and their log holds the headroom-stop record.  This
    holds when every number logged can be formatted by [human] (the target
    and the telemetry values) and allocate_slow's pause is accepted by
    [time.sleep].  In general an iteration in which the limit and the
    current usage [c >= 0] are both known and [c >= limit - headroom] stops
    at once with the blocks allocated so far and logs the headroom-stop
    record (when [human] can print [c] and the limit). *)
Theorem headroom_stop_scenario : forall fuel env want headroom pause s,
  headroom = 50 * MiB -> printable env -> human_ok want = true -> py_sleep pause = POk tt ->
  (forall n, lim_at env n = Some (200 * MiB)) ->
  (forall c, cur_at env (ncur s) = Some c -> c < 150 * MiB) ->
  (forall c, cur_at env (ncur s + 2)%nat = Some c -> c < 150 * MiB) ->
  cur_at env (ncur s + 4)%nat = Some (160 * MiB) ->
  alloc_ok env (nalloc s) = true -> alloc_ok env (S (nalloc s)) = true ->
  160 * MiB < want -> (3 <= fuel)%nat ->
  (exists s', mem_burst fuel env want (80 * MiB) headroom s = Ret [80 * MiB; 80 * MiB] s'
              /\ In (LHeadroomStop (160 * MiB) (200 * MiB)) (logs s')) /\
  (exists s', allocate_slow fuel env want (80 * MiB) pause headroom s
                = Ret [80 * MiB; 80 * MiB] s'
              /\ In (LHeadroomStop (160 * MiB) (200 * MiB)) (logs s')) /\
  (forall env' want' block h lim a b s0 c l,
     cur_at env' (ncur s0) = Some c -> lim = Some l -> 0 <= c -> l - h <= c ->
     human_ok c = true -> human_ok l = true ->
     exists s1, burst_iter env' want' block h lim a b s0 = Break a b s1
                /\ In (LHeadroomStop c l) (logs s1)) /\
  (forall env' total block p h a b s0 c l,
     cur_at env' (ncur s0) = Some c -> lim_at env' (nlim s0) = Some l -> 0 <= c -> l - h <= c ->
     human_ok c = true -> human_ok l = true ->
     exists s1, slow_iter env' total block p h a b s0 = Break a b s1
                /\ In (LHeadroomStop c l) (logs s1)).
Proof.
  intros fuel env want headroom pause s Hh Hp Hw Hsl Hlim Hc0 Hc1 Hc2 Ha0 Ha1 Hwl Hf.
  assert (Hm1 : Z.min (80 * MiB) (want - 0) = 80 * MiB) by (unfold MiB in *; lia).
  assert (Hm2 : Z.min (80 * MiB) (want - (0 + 80 * MiB)) = 80 * MiB) by (unfold MiB in *; lia).
  assert (Hg1 : (0 <? want) = true) by (apply Z.ltb_lt; unfold MiB in *; lia).
  assert (Hg2 : (0 + 80 * MiB <? want) = true) by (apply Z.ltb_lt; unfold MiB in *; lia).
  assert (Hg3 : (0 + 80 * MiB + 80 * MiB <? want) = true) by (apply Z.ltb_lt; unfold MiB in *; lia).
  assert (Hok : forall a, 0 <= a < want -> iter_ok env want (80 * MiB) a).
  { intros a Ha. apply iter_ok_intro; auto; unfold MiB in *; lia. }
  assert (Hstop : headroom_stop (Some (200 * MiB)) (Some (160 * MiB)) headroom
                  = Some (160 * MiB, 200 * MiB))
    by (apply headroom_stop_some; subst; unfold MiB; lia).
  assert (Hmax : Z.max 0 (200 * MiB - headroom) = 150 * MiB) by (subst; unfold MiB; lia).
  assert (Hh160 : human_ok (160 * MiB) = true) by (vm_compute; reflexivity).
  assert (Hh200 : human_ok (200 * MiB) = true) by (vm_compute; reflexivity).
  assert (Hstart : forallb human_opt_ok [Some want; Some (80 * MiB); Some headroom] = true)
    by (subst; cbn; rewrite Hw; vm_compute; reflexivity).
  destruct fuel as [|[|[|f]]]; try lia.
  split; [|split; [|split]].
  - rewrite mem_burst_eq. cbv zeta. rewrite Hlim. unfold burst_start_vals.
    replace (forallb human_opt_ok [Some want; Some (80 * MiB); Some headroom; Some (200 * MiB)])
      with true by (subst; cbn; rewrite Hw; vm_compute; reflexivity).
    rewrite mem_loop_S, Hg1.
    match goal with |- context [burst_iter _ _ _ _ _ 0 [] ?s1] =>
      destruct (burst_iter_next env want (80 * MiB) headroom (Some (200 * MiB)) 0 [] s1)
        as (s2 & E2 & Hc2' & _ & Ha2) end;
      [apply Hok; lia | reflexivity
      | cbn [ncur log]; apply headroom_stop_none; rewrite Hmax; exact Hc0 | exact Ha0 |].
    rewrite E2, Hm1, mem_loop_S, Hg2.
    destruct (burst_iter_next env want (80 * MiB) headroom (Some (200 * MiB)) (0 + 80 * MiB)
                ([] ++ [80 * MiB]) s2) as (s3 & E3 & Hc3' & _ & Ha3);
      [apply Hok; unfold MiB in *; lia | reflexivity
      | apply headroom_stop_none; rewrite Hmax, Hc2'; cbn [ncur log];
        replace (S (S (ncur s))) with (ncur s + 2)%nat by lia; exact Hc1
      | rewrite Ha2; exact Ha1 |].
    rewrite E3, Hm2, mem_loop_S, Hg3.
    rewrite (burst_iter_stop env want (80 * MiB) headroom (Some (200 * MiB)) _ _ s3
               (160 * MiB) (200 * MiB));
      [|rewrite Hc3', Hc2'; cbn [ncur log];
        replace (S (S (S (S (ncur s))))) with (ncur s + 4)%nat by lia;
        rewrite Hc2; exact Hstop].
    rewrite stop_iter_break by assumption.
    eexists. split; [reflexivity|]. apply in_log.
  - rewrite allocate_slow_eq by exact Hstart.
    rewrite mem_loop_S, Hg1.
    match goal with |- context [slow_iter _ _ _ _ _ 0 [] ?s1] =>
      destruct (slow_iter_next env want (80 * MiB) pause headroom 0 [] s1)
        as (s2 & E2 & Hc2' & Hl2 & Ha2) end;
      [apply Hok; lia | exact Hsl
      | rewrite Hlim; apply headroom_stop_none; rewrite Hmax; exact Hc0 | exact Ha0 |].
    rewrite E2, Hm1, mem_loop_S, Hg2.
    destruct (slow_iter_next env want (80 * MiB) pause headroom (0 + 80 * MiB)
                ([] ++ [80 * MiB]) s2) as (s3 & E3 & Hc3' & Hl3 & Ha3);
      [apply Hok; unfold MiB in *; lia | exact Hsl
      | rewrite Hlim; apply headroom_stop_none; rewrite Hmax, Hc2'; cbn [ncur log];
        replace (S (S (ncur s))) with (ncur s + 2)%nat by lia; exact Hc1
      | rewrite Ha2; exact Ha1 |].
    rewrite E3, Hm2, mem_loop_S, Hg3.
    rewrite (slow_iter_stop env want (80 * MiB) pause headroom _ _ s3 (160 * MiB) (200 * MiB));
      [|rewrite Hlim, Hc3', Hc2'; cbn [ncur log];
        replace (S (S (S (S (ncur s))))) with (ncur s + 4)%nat by lia;
        rewrite Hc2; exact Hstop].
    rewrite stop_iter_break by assumption.
    unfold slow_done, log_human. cbn [forallb human_opt_ok].
    replace (human_ok (0 + 80 * MiB + 80 * MiB)) with true by (vm_compute; reflexivity).
    cbn [andb].
    eexists. split; [reflexivity|]. apply in_log_later, in_log.
  - intros env' want' block h lim a b s0 c l Hc -> H0 Hle Hhc Hhl.
    eexists. split.
    + rewrite (burst_iter_stop env' want' block h (Some l) a b s0 c l)
        by (rewrite Hc; apply headroom_stop_some; auto).
      apply stop_iter_break; assumption.
    + apply in_log.
  - intros env' total block p h a b s0 c l Hc Hl H0 Hle Hhc Hhl.
    eexists. split.
    + rewrite (slow_iter_stop env' total block p h a b s0 c l)
        by (rewrite Hc, Hl; apply headroom_stop_some; auto).
      apply stop_iter_break; assumption.
    + apply in_log.
Qed.

Lemma headroom_stop_scenario_witness :
  (forall n, lim_at env_headroom n = Some (200 * MiB)) /\
  exists s', mem_burst 3 env_headroom (240 * MiB) (80 * MiB) (50 * MiB) st0
               = Ret [80 * MiB; 80 * MiB] s'
             /\ In (LHeadroomStop (160 * MiB) (200 * MiB)) (logs s').
Proof.
  split; [reflexivity|].
  refine (proj1 (headroom_stop_scenario 3 env_headroom (240 * MiB) (50 * MiB) (Fin 0 0) st0
                   _ _ _ _ _ _ _ _ _ _ _ _)).
  all: try reflexivity.
  all: try (intros c Hc; vm_compute in Hc; injection Hc as <-; unfold MiB; lia).
  all: try (intro n; cbn; destruct (Nat.eqb n 4); vm_compute; repeat split).
  all: unfold MiB; lia.
Defined.

(** ** C3 *)

Lemma alloc_block_counters : forall env want block a b pv post s,
  (forall s0, ncur (snd (post s0)) = ncur s0 /\ nlim (snd (post s0)) = nlim s0) ->
  let r := alloc_block env want block a b pv post s in
  nlim (iter_state r) = nlim s /\ (ncur s <= ncur (iter_state r))%nat /\ is_break r = false.
Proof.
  intros env want block a b pv post s Hpost r. unfold r, alloc_block, log_human, bytearray,
    read_mem_current, read_mem_peak.
  cbv zeta. destruct (forallb _ _); [|cbn; auto].
  destruct (_ || _); [cbn; auto|]. destruct (_ <? 0); [cbn; auto|].
  destruct (alloc_ok _ _); [|cbn; auto].
  match goal with |- context [post ?s0] =>
    destruct (Hpost s0) as [H1 H2]; destruct (post s0) as [vals s2] end.
  cbn in H1, H2. destruct (forallb _ _); cbn; rewrite ?H1, ?H2; auto.
Qed.

(** C3 (amended).  Each iteration of allocate_slow reads the limit afresh:
    it performs exactly one limit read, and its stop decision is made on
    that read and on the current usage read in the same iteration.  An
    iteration of mem_burst reads the current usage afresh but performs no
    limit read: its decision is made on the value [lim] read once before the
    loop (by [burst_prelude], which reads the limit once).  An iteration
    that decides to stop ends the loop normally when [human] can print the
    two values of the headroom-stop line (it raises [OverflowError]
    otherwise). *)
Theorem limit_read_per_iteration :
  (forall env total block pause headroom a b s,
     let r := slow_iter env total block pause headroom a b s in
     nlim (iter_state r) = S (nlim s) /\ (ncur s < ncur (iter_state r))%nat /\
     is_break r = is_stop (headroom_stop (lim_at env (nlim s)) (cur_at env (ncur s)) headroom)
                  && human_opt_ok (cur_at env (ncur s)) && human_opt_ok (lim_at env (nlim s))) /\
  (forall env want block headroom lim a b s,
     let r := burst_iter env want block headroom lim a b s in
     nlim (iter_state r) = nlim s /\ (ncur s < ncur (iter_state r))%nat /\
     is_break r = is_stop (headroom_stop lim (cur_at env (ncur s)) headroom)
                  && human_opt_ok (cur_at env (ncur s)) && human_opt_ok lim) /\
  (forall env want block headroom s,
     fst (burst_prelude env want block headroom s) = lim_at env (nlim s) /\
     nlim (snd (burst_prelude env want block headroom s)) = S (nlim s)).
Proof.
  split; [|split].
  - intros env total block pause headroom a b s r. unfold r, slow_iter. simpl.
    destruct (headroom_stop _ _ _) as [[c l]|] eqn:Eh.
    + destruct (lim_at env (nlim s)) as [l'|]; [|discriminate].
      destruct (cur_at env (ncur s)) as [c'|]; [|discriminate].
      cbn in Eh. destruct (_ <=? _); [|discriminate]. injection Eh as <- <-.
      unfold stop_iter, log_human. cbn. rewrite andb_true_r.
      destruct (human_ok _ && human_ok _); cbn; auto.
    + match goal with |- context [alloc_block env total block a b ?pv ?post ?s1] =>
        pose proof (alloc_block_counters env total block a b pv post s1) as Hc;
        destruct (alloc_block env total block a b pv post s1) end;
        (destruct Hc as (H1 & H2 & H3); [intros s9; cbn; auto|]);
        cbn in *; try destruct (sleep pause); cbn; repeat split; try lia; congruence.
  - intros env want block headroom lim a b s r. unfold r, burst_iter. simpl.
    destruct (headroom_stop _ _ _) as [[c l]|] eqn:Eh.
    + destruct lim as [l'|]; [|discriminate].
      destruct (cur_at env (ncur s)) as [c'|]; [|discriminate].
      cbn in Eh. destruct (_ <=? _); [|discriminate]. injection Eh as <- <-.
      unfold stop_iter, log_human. cbn. rewrite andb_true_r.
      destruct (human_ok _ && human_ok _); cbn; auto.
    + match goal with |- context [alloc_block env want block a b ?pv ?post ?s1] =>
        pose proof (alloc_block_counters env want block a b pv post s1) as Hc;
        destruct (alloc_block env want block a b pv post s1) end;
        (destruct Hc as (H1 & H2 & H3); [intros s9; cbn; auto|]);
        cbn in *; repeat split; try lia; congruence.
  - intros. unfold burst_prelude, log_human. simpl. split_ifs; auto.
Qed.

(** C3 counterexample: the limit is 1000 at the first read and 0 at every
    later read, the usage is always 10.  mem_burst performs a single limit
    read and allocates a second block although the limit read fresh at the
    second iteration is already below the usage; allocate_slow, which
    re-reads it, stops after one block. *)
Lemma limit_cached_in_burst_cex :
  lim_at env_limit_drops 1 = Some 0 /\ cur_at env_limit_drops 2 = Some 10 /\
  (exists s', mem_burst 5 env_limit_drops 2 1 0 st0 = Ret [1; 1] s' /\ nlim s' = 1%nat) /\
  (exists s', allocate_slow 5 env_limit_drops 2 1 (Fin 0 0) 0 st0 = Ret [1] s').
Proof.
  split; [reflexivity|]. split; [reflexivity|].
  split; eexists; [split; [vm_compute; reflexivity|reflexivity] | vm_compute; reflexivity].
Qed.

(** ** C5 *)

(** C5.  An allocation of a size the platform may attempt ([0 <= size < 2^63])
    that raises [MemoryError] ends the iteration with the running total and
    the block list it had before the allocation; the exception never
    escapes mem_burst or allocate_slow; when the loop stops on it (the loop
    is only entered once the start line has been logged), mem_burst returns
    the blocks appended so far and logs a [MemoryError] record with the
    partial total, which is the sum of those blocks, and allocate_slow does
    the same. *)
Theorem memory_error_caught :
  (forall env want block a b pv post s,
     alloc_ok env (nalloc s) = false -> 0 <= Z.min block (want - a) < 2 ^ 63 ->
     forallb human_opt_ok (Some (Z.min block (want - a)) :: Some a :: pv) = true ->
     exists s', alloc_block env want block a b pv post s = Raise MemoryError a b s') /\
  (forall fuel env want block headroom s s',
     mem_burst fuel env want block headroom s <> Exc MemoryError s') /\
  (forall fuel env total block pause headroom s s',
     allocate_slow fuel env total block pause headroom s <> Exc MemoryError s') /\
  (forall fuel env want block headroom s a b s',
     let '(lim, s1) := burst_prelude env want block headroom s in
     forallb human_opt_ok (burst_start_vals want block headroom lim) = true ->
     mem_loop (burst_iter env want block headroom lim) fuel want 0 [] s1
       = LoopRaised MemoryError a b s' ->
     mem_burst fuel env want block headroom s = Ret b (log s' (LMemoryError a want))
     /\ a = sum b) /\
  (forall fuel env total block pause headroom s a b s',
     forallb human_opt_ok [Some total; Some block; Some headroom] = true ->
     mem_loop (slow_iter env total block pause headroom) fuel total 0 []
       (log s (LSlowStart total block pause headroom)) = LoopRaised MemoryError a b s' ->
     exists s'', allocate_slow fuel env total block pause headroom s = Ret b s''
                 /\ In (LMemoryError a total) (logs s'') /\ a = sum b).
Proof.
  split; [|split; [|split; [|split]]].
  - exact alloc_block_memory_error.
  - intros. rewrite mem_burst_eq. cbv zeta. destruct (forallb _ _); [|discriminate].
    destruct (mem_loop _ _ _ _ _ _) as [|[| |]| ]; unfold log_human;
      try destruct (forallb _ _); discriminate.
  - intros fuel env total block pause headroom s s'.
    destruct (forallb human_opt_ok [Some total; Some block; Some headroom]) eqn:Hst;
      [|rewrite allocate_slow_start_raises by exact Hst; discriminate].
    rewrite allocate_slow_eq by exact Hst.
    destruct (mem_loop _ _ _ _ _ _) as [|[| |]| ]; unfold slow_done, log_human;
      repeat destruct (forallb _ _); discriminate.
  - intros fuel env want block headroom s a b s'.
    destruct (burst_prelude env want block headroom s) as [lim s1] eqn:Ep. intros Hst E.
    pose proof (burst_loop_total fuel env want block headroom lim s1) as Hinv.
    rewrite E in Hinv. destruct Hinv as (Ha & Hs & Hn).
    unfold mem_burst. rewrite Ep, Hst. cbn [negb]. rewrite E.
    unfold burst_start_vals in Hst. cbn [forallb human_opt_ok] in Hst.
    destruct (human_ok want) eqn:Hw; [|discriminate].
    destruct (loop_total_range block want a b Ha Hs Hn) as [Ha0 [Haw|Ha1]].
    + unfold log_human. cbn [forallb human_opt_ok].
      rewrite (human_ok_mono a want) by (auto; lia). rewrite Hw. auto.
    + subst a. unfold log_human. cbn [forallb human_opt_ok]. rewrite Hw, Ha1. auto.
  - intros fuel env total block pause headroom s a b s' Hst E.
    pose proof (slow_loop_total fuel env total block pause headroom
                  (log s (LSlowStart total block pause headroom))) as Hinv.
    rewrite E in Hinv. destruct Hinv as (Ha & Hs & Hn).
    rewrite allocate_slow_eq by exact Hst. rewrite E.
    cbn [forallb human_opt_ok] in Hst.
    destruct (human_ok total) eqn:Hw; [|discriminate].
    assert (Hha : human_ok a = true).
    { destruct (loop_total_range block total a b Ha Hs Hn) as [Ha0 [Haw|Ha1]].
      - apply (human_ok_mono a total); auto; lia.
      - subst a. rewrite Ha1. reflexivity. }
    unfold slow_done, log_human. cbn [forallb human_opt_ok]. rewrite Hha, Hw. cbn.
    eexists. split; [reflexivity|]. split; [apply in_log_later, in_log | exact Ha].
Qed.

(** ** Number of iterations *)

Lemma burst_iter_total : forall env want block headroom lim,
  printable env -> human_ok want = true -> Z.min block want < 2 ^ 63 ->
  human_opt_ok lim = true ->
  (forall n, alloc_ok env n = true) ->
  (forall n, headroom_stop lim (cur_at env n) headroom = None) ->
  0 <= block -> body_total (burst_iter env want block headroom lim) want block.
Proof.
  intros env want block headroom lim Hp Hw Hbw Hl Hok Hh Hb a b s Ha.
  destruct (burst_iter_next env want block headroom lim a b s) as (s' & E & _);
    [apply iter_ok_intro; auto; lia|auto|auto|auto|eauto].
Qed.

Lemma slow_iter_total : forall env total block pause headroom,
  printable env -> human_ok total = true -> Z.min block total < 2 ^ 63 ->
  py_sleep pause = POk tt ->
  (forall n, alloc_ok env n = true) ->
  (forall n m, headroom_stop (lim_at env m) (cur_at env n) headroom = None) ->
  0 <= block -> body_total (slow_iter env total block pause headroom) total block.
Proof.
  intros env total block pause headroom Hp Hw Hbw Hsl Hok Hh Hb a b s Ha.
  destruct (slow_iter_next env total block pause headroom a b s) as (s' & E & _);
    [apply iter_ok_intro; auto; lia|auto|auto|auto|eauto].
Qed.

Lemma ceil_step : forall want block a,
  1 <= block -> a < want ->
  Z.to_nat ((want - a + block - 1) / block) =
  S (Z.to_nat ((want - (a + Z.min block (want - a)) + block - 1) / block)).
Proof.
  intros want block a Hb Ha.
  destruct (Z.le_gt_cases (want - a) block) as [Hle|Hgt].
  - rewrite Z.min_r by lia.
    replace (want - (a + (want - a)) + block - 1) with (block - 1) by lia.
    rewrite (Z.div_small (block - 1) block) by lia.
    assert (E : (want - a + block - 1) / block = 1).
    { symmetry. apply Z.div_unique with (r := want - a - 1); lia. }
    rewrite E. reflexivity.
  - rewrite Z.min_l by lia.
    replace (want - a + block - 1) with ((want - (a + block) + block - 1) + 1 * block) by lia.
    rewrite Z.div_add by lia.
    assert (0 <= (want - (a + block) + block - 1) / block) by (apply Z.div_pos; lia).
    rewrite Z2Nat.inj_add by lia. simpl. lia.
Qed.

Lemma loop_count : forall body want block,
  body_total body want block -> 1 <= block ->
  forall fuel a b s, 0 <= a <= want ->
  let k := Z.to_nat ((want - a + block - 1) / block) in
  ((k < fuel)%nat -> exists b' s', mem_loop body fuel want a b s = LoopDone want (b ++ b') s'
                                  /\ List.length b' = k) /\
  ((fuel <= k)%nat -> mem_loop body fuel want a b s = OutOfFuel).
Proof.
  intros body want block Ht Hb fuel. induction fuel as [|f IH]; intros a b s Ha k.
  - split; [lia|reflexivity].
  - rewrite mem_loop_S. destruct (a <? want) eqn:Hlt.
    + apply Z.ltb_lt in Hlt. destruct (Ht a b s ltac:(lia)) as (s' & ->).
      assert (Hk : k = S (Z.to_nat ((want - (a + Z.min block (want - a)) + block - 1) / block)))
        by (apply ceil_step; lia).
      destruct (IH (a + Z.min block (want - a)) (b ++ [Z.min block (want - a)]) s')
        as [IH1 IH2]; [lia|].
      split.
      * intro Hf. destruct IH1 as (b' & s'' & E & Hl); [lia|].
        exists (Z.min block (want - a) :: b'), s''. rewrite E, <- app_assoc.
        split; [reflexivity|]. simpl. lia.
      * intro Hf. apply IH2. lia.
    + apply Z.ltb_ge in Hlt. assert (a = want) by lia. subst a.
      assert (Hk : k = 0%nat).
      { unfold k. replace (want - want + block - 1) with (block - 1) by lia.
        rewrite Z.div_small by lia. reflexivity. }
      split.
      * intros _. exists [], s. rewrite app_nil_r, Hk. auto.
      * lia.
Qed.

Lemma loop_stuck : forall body want,
  body_total body want 0 ->
  forall fuel b s, 0 < want -> mem_loop body fuel want 0 b s = OutOfFuel.
Proof.
  intros body want Ht fuel. induction fuel as [|f IH]; intros b s Ha; [reflexivity|].
  rewrite mem_loop_S. replace (0 <? want) with true by (symmetry; apply Z.ltb_lt; lia).
  destruct (Ht 0 b s ltac:(lia)) as (s' & ->).
  rewrite Z.min_l by lia. apply IH. lia.
Qed.

(** ** C10 *)

(** C10 (amended).  When every allocation succeeds and the headroom check
    never fires, and moreover every number the engines log can be formatted
    by [human] (the telemetry, the target, the block size and the headroom),
    the first block is below 2^63 (the largest [bytearray]) and
    allocate_slow's pause is accepted by [time.sleep], then for
    [block >= 1] and [want >= 0] both allocation loops run exactly
    [ceil(want / block)] iterations and return that many blocks: with enough
    fuel for that many iterations plus the final test of the guard they
    return, with less they do not; for [block = 0] and [want > 0] the block
    size is 0, the total never grows and the loops never end. *)
Theorem mem_loop_iterations : forall env want block headroom pause s,
  (forall n, alloc_ok env n = true) ->
  (forall n m, headroom_stop (lim_at env m) (cur_at env n) headroom = None) ->
  printable env -> human_ok want = true -> human_ok block = true -> human_ok headroom = true ->
  Z.min block want < 2 ^ 63 -> py_sleep pause = POk tt ->
  0 <= want ->
  (1 <= block ->
     let k := Z.to_nat ((want + block - 1) / block) in
     (forall fuel, (k < fuel)%nat ->
        (exists b s', mem_burst fuel env want block headroom s = Ret b s'
                      /\ List.length b = k) /\
        (exists b s', allocate_slow fuel env want block pause headroom s = Ret b s'
                      /\ List.length b = k)) /\
     (forall fuel, (fuel <= k)%nat ->
        mem_burst fuel env want block headroom s = Diverges /\
        allocate_slow fuel env want block pause headroom s = Diverges)) /\
  (block = 0 -> 0 < want -> forall fuel,
     mem_burst fuel env want block headroom s = Diverges /\
     allocate_slow fuel env want block pause headroom s = Diverges).
Proof.
  intros env want block headroom pause s Hok Hh Hp Hw Hbk Hhd Hbw Hsl Hw0.
  assert (Hlim : human_opt_ok (lim_at env (nlim s)) = true) by apply Hp.
  assert (Hb1 : 0 <= block -> body_total (burst_iter env want block headroom
                                            (lim_at env (nlim s))) want block)
    by (intro; apply burst_iter_total; auto).
  assert (Hb2 : 0 <= block -> body_total (slow_iter env want block pause headroom) want block)
    by (intro; apply slow_iter_total; auto).
  assert (Hst1 : forallb human_opt_ok (burst_start_vals want block headroom (lim_at env (nlim s)))
                 = true) by (cbn; rewrite Hw, Hbk, Hhd, Hlim; reflexivity).
  assert (Hst2 : forallb human_opt_ok [Some want; Some block; Some headroom] = true)
    by (cbn; rewrite Hw, Hbk, Hhd; reflexivity).
  assert (Hdone : forall a b s', human_ok a = true -> exists s'', slow_done a b s' = Ret b s'').
  { intros a b s' H. unfold slow_done, log_human. cbn. rewrite H. eexists. reflexivity. }
  assert (Hrw : forall fuel, mem_burst fuel env want block headroom s =
                  match mem_loop (burst_iter env want block headroom (lim_at env (nlim s))) fuel
                          want 0 [] (log (mkSt (ncur s) (S (nlim s)) (npeak s) (nrss s) (nalloc s)
                                              (logs s))
                                         (LBurstStart want block headroom (lim_at env (nlim s)))) with
                  | LoopDone _ blocks s => Ret blocks s
                  | LoopRaised MemoryError allocated blocks s =>
                      match log_human [Some allocated; Some want] s
                              (LMemoryError allocated want) with
                      | (None, s) => Ret blocks s
                      | (Some e, s) => Exc e s
                      end
                  | LoopRaised e _ _ s => Exc e s
                  | OutOfFuel => Diverges
                  end).
  { intros fuel. rewrite mem_burst_eq. cbv zeta. rewrite Hst1. reflexivity. }
  split.
  - intros Hb k.
    assert (Hk : k = Z.to_nat ((want - 0 + block - 1) / block))
      by (unfold k; rewrite Z.sub_0_r; reflexivity).
    assert (Hb0 : 0 <= block) by lia.
    pose proof (fun f s0 => loop_count _ want block (Hb1 Hb0) Hb f 0 [] s0 ltac:(lia)) as L1.
    pose proof (fun f s0 => loop_count _ want block (Hb2 Hb0) Hb f 0 [] s0 ltac:(lia)) as L2.
    cbv zeta in L1, L2. rewrite <- Hk in L1, L2.
    split.
    + intros fuel Hf. rewrite Hrw, allocate_slow_eq by exact Hst2. split.
      * match goal with |- context [mem_loop (burst_iter _ _ _ _ _) fuel want 0 [] ?st] =>
          destruct (proj1 (L1 fuel st) Hf) as (b' & s' & -> & Hl) end. eauto.
      * match goal with |- context [mem_loop (slow_iter _ _ _ _ _) fuel want 0 [] ?st] =>
          destruct (proj1 (L2 fuel st) Hf) as (b' & s' & -> & Hl) end.
        destruct (Hdone want ([] ++ b') s' Hw) as (s'' & ->). eauto.
    + intros fuel Hf. rewrite Hrw, allocate_slow_eq by exact Hst2.
      match goal with |- context [mem_loop (burst_iter _ _ _ _ _) fuel want 0 [] ?st] =>
        rewrite (proj2 (L1 fuel st) Hf) end.
      match goal with |- context [mem_loop (slow_iter _ _ _ _ _) fuel want 0 [] ?st] =>
        rewrite (proj2 (L2 fuel st) Hf) end. auto.
  - intros -> Hwp fuel.
    assert (Hb0 : 0 <= 0) by lia. rewrite Hrw, allocate_slow_eq by exact Hst2.
    rewrite (loop_stuck _ want (Hb1 Hb0) fuel [] _ Hwp).
    rewrite (loop_stuck _ want (Hb2 Hb0) fuel [] _ Hwp). auto.
Qed.

Lemma mem_loop_iterations_witness :
  (forall n, alloc_ok env_free n = true) /\
  exists b s', mem_burst 5 env_free 10 3 0 st0 = Ret b s' /\ List.length b = 4%nat.
Proof.
  split; [reflexivity|].
  refine (proj1 (proj1 (proj1 (mem_loop_iterations env_free 10 3 0 (Fin 0 0) st0
                                 _ _ _ _ _ _ _ _ _) _) 5%nat _)).
  all: try reflexivity. all: try lia. all: try (intro n; repeat split).
  all: vm_compute; try reflexivity; lia.
Defined.

(** C10 counterexample: with every allocation succeeding and no headroom
    stop, mem_burst with a target of 2^1024 bytes raises [OverflowError]
    from [human] in its start line, before any iteration, and allocate_slow
    with a pause of 10^10 seconds raises [OverflowError] from [time.sleep]
    after its first block, instead of running ceil(target / block)
    iterations. *)
Lemma mem_loop_iterations_cex :
  (exists s', mem_burst 5 env_free (2 ^ 1024) (2 ^ 1000) 0 st0 = Exc OverflowError s'
              /\ nalloc s' = 0%nat) /\
  (exists s', allocate_slow 5 env_free 10 3 (Fin 10000000000 0) 0 st0 = Exc OverflowError s'
              /\ nalloc s' = 1%nat).
Proof. split; eexists; (split; [vm_compute; reflexivity | reflexivity]). Qed.

(** ** Negative and non-negative block sizes *)

(** mem_burst (qimi2_sim.py) and allocate_slow (stress.py) with a negative
    block size and a positive target, the target and the headroom printable
    by [human]: when the first headroom check does not stop the loop,
    [bytearray] of the negative size raises [ValueError], or
    [OverflowError] when the size is below [-2^63] (out of [Py_ssize_t]),
    and neither engine catches it; it escapes before any allocation.  A
    block size too large for [human] (at most [-(2^1024 - 2^970)]) raises
    [OverflowError] already in the start line. *)
Theorem negative_block_raises : forall fuel env want block pause headroom s,
  0 < want -> block < 0 -> printable env -> human_ok want = true -> human_ok headroom = true ->
  headroom_stop (lim_at env (nlim s)) (cur_at env (ncur s)) headroom = None ->
  let e := if block <? - 2 ^ 63 then OverflowError else ValueError in
  (exists s', mem_burst (S fuel) env want block headroom s = Exc e s' /\
              nalloc s' = nalloc s) /\
  (exists s', allocate_slow (S fuel) env want block pause headroom s = Exc e s' /\
              nalloc s' = nalloc s).
Proof.
  intros fuel env want block pause headroom s Hw Hb Hp Hhw Hhh Hh e.
  assert (Hlt : (0 <? want) = true) by (apply Z.ltb_lt; lia).
  assert (Hmin : Z.min block (want - 0) = block) by lia.
  assert (Hl : human_opt_ok (lim_at env (nlim s)) = true) by apply Hp.
  assert (Hc : human_opt_ok (cur_at env (ncur s)) = true) by apply Hp.
  assert (Hbig : human_ok block = false -> block < - 2 ^ 63).
  { intro H. rewrite human_ok_iff in H. apply Z.ltb_ge in H.
    assert (2 ^ 63 < human_max) by (apply Z.ltb_lt; vm_compute; reflexivity). lia. }
  assert (Hplan : forall pv, forallb human_opt_ok pv = true ->
            forallb human_opt_ok (Some block :: Some 0 :: pv) = human_ok block).
  { intros pv Hpv. cbn. rewrite Hpv. destruct (human_ok block); reflexivity. }
  assert (Hbyte : forall s0, bytearray env block s0 = (Some e, s0)).
  { intros s0. unfold bytearray, e.
    replace (block <? 0) with true by (symmetry; apply Z.ltb_lt; lia).
    destruct (Z.ltb_spec block (- 2 ^ 63)); [reflexivity|]. cbn [orb].
    replace (2 ^ 63 <=? block) with false by (symmetry; apply Z.leb_gt; lia). reflexivity. }
  split.
  - rewrite mem_burst_eq. cbv zeta. unfold burst_start_vals. cbn [forallb human_opt_ok].
    rewrite Hhw, Hhh, Hl. cbn [andb]. rewrite andb_true_r.
    destruct (human_ok block) eqn:Hhb.
    + cbn [mem_loop]. rewrite Hlt. unfold burst_iter, read_mem_current.
      cbn [ncur nlim npeak nrss nalloc logs log fst snd]. rewrite Hh.
      unfold alloc_block. rewrite Hmin. unfold log_human at 1. rewrite Hplan by reflexivity.
      try rewrite Hhb. cbn [log]. rewrite Hbyte.
      unfold e; destruct (block <? - 2 ^ 63); eexists; split; reflexivity.
    + unfold e. rewrite (proj2 (Z.ltb_lt _ _) (Hbig eq_refl)). eexists. split; reflexivity.
  - destruct (human_ok block) eqn:Hhb.
    + rewrite allocate_slow_eq by (cbn; rewrite Hhw, Hhb, Hhh; reflexivity).
      cbn [mem_loop]. rewrite Hlt.
      unfold slow_iter, read_mem_current, read_mem_limit.
      cbn [ncur nlim npeak nrss nalloc logs log fst snd]. rewrite Hh.
      unfold alloc_block. rewrite Hmin. unfold log_human at 1.
      rewrite Hplan by (cbn; rewrite Hc; reflexivity).
      try rewrite Hhb. cbn [log]. rewrite Hbyte.
      unfold e; destruct (block <? - 2 ^ 63); eexists; split; reflexivity.
    + rewrite allocate_slow_start_raises by (cbn; rewrite Hhb, andb_false_r; reflexivity).
      unfold e. rewrite (proj2 (Z.ltb_lt _ _) (Hbig eq_refl)). eexists. split; reflexivity.
Qed.

Lemma negative_block_raises_witness :
  ((exists s', mem_burst 5 env_free (10 * MiB) (-1) 0 st0 = Exc ValueError s' /\
               nalloc s' = 0%nat) /\
   (exists s', allocate_slow 5 env_free (10 * MiB) (-1) (Fin 1 (-1)) 0 st0 = Exc ValueError s' /\
               nalloc s' = 0%nat)) /\
  ((exists s', mem_burst 5 env_free (10 * MiB) (- 2 ^ 64) 0 st0 = Exc OverflowError s' /\
               nalloc s' = 0%nat) /\
   (exists s', allocate_slow 5 env_free (10 * MiB) (- 2 ^ 64) (Fin 1 (-1)) 0 st0
                 = Exc OverflowError s' /\ nalloc s' = 0%nat)).
Proof.
  split.
  - exact (negative_block_raises 4 env_free (10 * MiB) (-1) (Fin 1 (-1)) 0 st0
             ltac:(unfold MiB; lia) ltac:(lia) ltac:(intro n; repeat split)
             ltac:(vm_compute; reflexivity) eq_refl eq_refl).
  - exact (negative_block_raises 4 env_free (10 * MiB) (- 2 ^ 64) (Fin 1 (-1)) 0 st0
             ltac:(unfold MiB; lia) ltac:(apply Z.ltb_lt; vm_compute; reflexivity)
             ltac:(intro n; repeat split)
             ltac:(vm_compute; reflexivity) eq_refl eq_refl).
Defined.

(** With a non-negative block size, no exception escapes mem_burst
    (qimi2_sim.py), nor allocate_slow (stress.py), provided the first block
    [min(block, want)] is below 2^63 (so [bytearray] accepts it), the
    target, the block size, the headroom and the telemetry can be printed by
    [human], and the pause is accepted by [time.sleep] (stress.py's main
    passes [max(0.0, mem_interval)], which is never negative): [bytearray]
    never gets a negative size and [MemoryError] is caught. *)
Theorem nonneg_block_no_escape : forall fuel env want block pause headroom s e s',
  0 <= block -> printable env ->
  human_ok want = true -> human_ok block = true -> human_ok headroom = true ->
  Z.min block want < 2 ^ 63 -> py_sleep pause = POk tt ->
  mem_burst fuel env want block headroom s <> Exc e s' /\
  allocate_slow fuel env want block pause headroom s <> Exc e s'.
Proof.
  intros fuel env want block pause headroom s e s' Hb Hp Hw Hbk Hhd Hbw Hsl.
  assert (Hlim : human_opt_ok (lim_at env (nlim s)) = true) by apply Hp.
  assert (Hhalf : forall a b, a = sum b -> shaped block want 0 b -> Forall (fun x => 0 <= x) b ->
            human_ok a = true).
  { intros a b Ha Hs Hn. destruct (loop_total_range block want a b Ha Hs Hn) as [Ha0 [Haw|Ha1]].
    - apply (human_ok_mono a want); auto; lia.
    - subst a. rewrite Ha1. reflexivity. }
  split.
  - rewrite mem_burst_eq. cbv zeta. unfold burst_start_vals. cbn [forallb human_opt_ok].
    rewrite Hw, Hbk, Hhd, Hlim. cbn [andb].
    match goal with |- context [mem_loop ?body fuel want 0 [] ?s1] =>
      pose proof (burst_loop_raises env want block headroom (lim_at env (nlim s)) fuel s1
                    Hp Hb Hw Hbw Hlim) as Hr;
      pose proof (burst_loop_total fuel env want block headroom (lim_at env (nlim s)) s1) as Hinv;
      destruct (mem_loop body fuel want 0 [] s1) as [a b s2|e1 a b s2|] end;
      try discriminate.
    subst e1. destruct Hinv as (Ha & Hs & Hn).
    unfold log_human. cbn [forallb human_opt_ok]. rewrite (Hhalf a b Ha Hs Hn), Hw. discriminate.
  - rewrite allocate_slow_eq by (cbn; rewrite Hw, Hbk, Hhd; reflexivity).
    match goal with |- context [mem_loop ?body fuel want 0 [] ?s1] =>
      pose proof (slow_loop_raises env want block pause headroom fuel s1 Hp Hb Hw Hbw Hsl) as Hr;
      pose proof (slow_loop_total fuel env want block pause headroom s1) as Hinv;
      destruct (mem_loop body fuel want 0 [] s1) as [a b s2|e1 a b s2|] end;
      try discriminate.
    + destruct Hinv as (Ha & Hs & Hn). unfold slow_done, log_human. cbn [forallb human_opt_ok].
      rewrite (Hhalf a b Ha Hs Hn). discriminate.
    + subst e1. destruct Hinv as (Ha & Hs & Hn).
      unfold slow_done, log_human. cbn [forallb human_opt_ok].
      rewrite (Hhalf a b Ha Hs Hn), Hw. discriminate.
Qed.

Lemma nonneg_block_no_escape_witness :
  mem_burst 10 env_free (3 * MiB) MiB 0 st0 <> Exc ValueError st0 /\
  allocate_slow 10 env_free (3 * MiB) MiB (Fin 1 (-1)) 0 st0 <> Exc ValueError st0.
Proof.
  exact (nonneg_block_no_escape 10 env_free (3 * MiB) MiB (Fin 1 (-1)) 0 st0 ValueError st0
           ltac:(unfold MiB; lia) ltac:(intro n; repeat split)
           ltac:(vm_compute; reflexivity) ltac:(vm_compute; reflexivity)
           ltac:(vm_compute; reflexivity) ltac:(unfold MiB; lia) ltac:(vm_compute; reflexivity)).
Defined.
End MemProofs.

(* ------------------------------------------------------------------------- *)
(** * Proofs about io_burst *)

Module IoProofs.
Import Human Io.

Lemma written_app : forall t1 t2, written (t1 ++ t2) = written t1 + written t2.
Proof.
  induction t1 as [|a t1 IH]; intros t2; simpl; [reflexivity|].
  destruct a as [| | | |n []| | | | |]; rewrite IH; ring.
Qed.

Lemma requested_app : forall t1 t2, requested (t1 ++ t2) = requested t1 + requested t2.
Proof.
  induction t1 as [|a t1 IH]; intros t2; simpl; [reflexivity|].
  destruct a as [| | | |n []| | | | |]; rewrite IH; ring.
Qed.

Lemma ceil_chunks_step : forall left,
  chunk_len < left ->
  (left - chunk_len + chunk_len - 1) / chunk_len = (left + chunk_len - 1) / chunk_len - 1.
Proof.
  intros left H. replace (left - chunk_len + chunk_len - 1) with
    ((left + chunk_len - 1) + (-1) * chunk_len) by ring.
  rewrite Z.div_add by (unfold chunk_len; lia). ring.
Qed.

Lemma nchunks_step : forall left, 0 < left ->
  nchunks left = S (nchunks (left - Z.min left chunk_len)).
Proof.
  intros left Hl. unfold nchunks.
  assert (Hc : 1 <= (left + chunk_len - 1) / chunk_len)
    by (apply Z.div_le_lower_bound; unfold chunk_len in *; lia).
  destruct (Z.le_gt_cases left chunk_len) as [Hle|Hgt].
  - rewrite Z.min_l by lia. replace (left - left + chunk_len - 1) with (chunk_len - 1) by ring.
    rewrite (Z.div_small (chunk_len - 1)) by (unfold chunk_len; lia).
    assert (E1 : (left + chunk_len - 1) / chunk_len = 1).
    { symmetry; apply Z.div_unique with (r := left - 1); unfold chunk_len in *; lia. }
    rewrite E1. reflexivity.
  - rewrite Z.min_r by lia. rewrite ceil_chunks_step by assumption. lia.
Qed.

Lemma nchunks_small : forall left, left <= chunk_len ->
  nchunks (left - Z.min left chunk_len) = 0%nat.
Proof.
  intros left H. rewrite Z.min_l by lia. replace (left - left) with 0 by ring. reflexivity.
Qed.

Lemma nchunks_pos_big : forall left k, 0 < left ->
  (k < nchunks (left - Z.min left chunk_len))%nat -> chunk_len < left.
Proof.
  intros left k Hl Hk. destruct (Z.le_gt_cases left chunk_len) as [Hle|]; [|assumption].
  rewrite nchunks_small in Hk by assumption. lia.
Qed.

Lemma chunk_at_0 : forall left, chunk_at left 0 = Z.min left chunk_len.
Proof. intros left. unfold chunk_at. f_equal. simpl. ring. Qed.

Lemma chunk_at_S : forall left k, chunk_len < left ->
  chunk_at left (S k) = chunk_at (left - Z.min left chunk_len) k.
Proof.
  intros left k H. unfold chunk_at. rewrite (Z.min_r left chunk_len) by lia. f_equal.
  rewrite Nat2Z.inj_succ. ring.
Qed.

(** The write loop makes the writes of [ceil(left / 1 MiB)] chunks of 1 to
    1048576 bytes, subtracting each chunk from [left] whatever the write
    returned, or stops at the first write that raises. It ends normally
    exactly when none of its writes raises; then the chunks add up to
    [left]. The bytes written add up to [left] when every write writes its
    whole chunk. *)
Lemma write_loop_gen : forall fuel env i left tr,
  0 <= left -> (nchunks left < fuel)%nat ->
  exists ok tr',
    write_loop fuel env i left tr = Some (ok, tr ++ tr') /\
    Forall (fun a => exists n r, a = Write n r /\ 0 < n <= chunk_len) tr' /\
    (ok = true -> requested tr' = left) /\
    ((forall j n, write_ret env j n = Some n) -> written tr' = left) /\
    (ok = true <-> forall k, (k < nchunks left)%nat -> write_ret env (i + k) (chunk_at left k) <> None).
Proof.
  induction fuel as [|f IH]; intros env i left tr H0 Hf; [lia|].
  simpl. destruct (0 <? left) eqn:Hl.
  - apply Z.ltb_lt in Hl. pose proof (nchunks_step left Hl) as Hk.
    assert (Hn : 0 < Z.min left chunk_len <= chunk_len) by (unfold chunk_len in *; lia).
    destruct (write_ret env i (Z.min left chunk_len)) as [w|] eqn:Hw.
    + destruct (IH env (S i) (left - Z.min left chunk_len)
                  (tr ++ [Write (Z.min left chunk_len) (Some w)]))
        as (ok & tr' & E & HF & Hreq & Hfull & Hok); [lia|lia|].
      exists ok, (Write (Z.min left chunk_len) (Some w) :: tr'). rewrite <- app_assoc in E.
      split; [exact E|]. split; [constructor; [eauto|exact HF]|].
      split; [intros Ho; cbn [requested]; rewrite (Hreq Ho); ring|].
      split.
      { intros Hall. cbn [written]. rewrite (Hfull Hall). rewrite Hall in Hw.
        injection Hw as Hw'. rewrite <- Hw'. ring. }
      rewrite Hok, Hk. split.
      * intros Hall [|k] Hk'.
        -- rewrite Nat.add_0_r, chunk_at_0, Hw. discriminate.
        -- assert (Hlc : chunk_len < left) by (apply (nchunks_pos_big left k); lia).
           rewrite chunk_at_S by assumption. replace (i + S k)%nat with (S i + k)%nat by lia.
           apply Hall. lia.
      * intros Hall k Hk'.
        assert (Hlc : chunk_len < left) by (apply (nchunks_pos_big left k); assumption).
        specialize (Hall (S k) ltac:(lia)). rewrite chunk_at_S in Hall by assumption.
        replace (i + S k)%nat with (S i + k)%nat in Hall by lia. exact Hall.
    + exists false, [Write (Z.min left chunk_len) None]. split; [reflexivity|].
      split; [constructor; [eauto|constructor]|].
      split; [discriminate|].
      split; [intros Hall; rewrite Hall in Hw; discriminate|].
      split; [discriminate|]. intros Hall. exfalso. apply (Hall 0%nat); [lia|].
      rewrite Nat.add_0_r, chunk_at_0. exact Hw.
  - apply Z.ltb_ge in Hl. assert (left = 0) by lia. subst left.
    exists true, []. rewrite app_nil_r. split; [reflexivity|]. split; [constructor|].
    split; [reflexivity|]. split; [reflexivity|].
    split; [intros _ k Hk; change (nchunks 0) with 0%nat in Hk; lia|reflexivity].
Qed.

Lemma io_fuel_enough : forall size, 0 < size -> (nchunks size < io_fuel size)%nat.
Proof.
  intros size H. unfold io_fuel, nchunks.
  assert ((size + chunk_len - 1) / chunk_len <= size / chunk_len + 1).
  { replace (size + chunk_len - 1) with ((size - 1) + 1 * chunk_len) by ring.
    rewrite Z.div_add by (unfold chunk_len; lia).
    assert ((size - 1) / chunk_len <= size / chunk_len)
      by (apply Z.div_le_mono; unfold chunk_len; lia).
    lia. }
  assert (0 <= size / chunk_len) by (apply Z.div_pos; unfold chunk_len; lia).
  assert (0 <= (size + chunk_len - 1) / chunk_len) by (apply Z.div_pos; unfold chunk_len; lia).
  lia.
Qed.

Lemma chunk_ok_write : forall tr,
  Forall (fun a => exists n r, a = Write n r /\ 0 < n <= chunk_len) tr -> Forall chunk_ok tr.
Proof.
  intros tr H. eapply Forall_impl; [|exact H]. intros a (n & r & -> & Hn). exact Hn.
Qed.

Lemma no_log_write : forall tr,
  Forall (fun a => exists n r, a = Write n r /\ 0 < n <= chunk_len) tr ->
  Forall (fun a => forall m, a <> IoLog m) tr.
Proof.
  intros tr H. eapply Forall_impl; [|exact H]. intros a (n & r & -> & _) m. discriminate.
Qed.

Ltac trace_solve :=
  repeat first [ assumption | apply Forall_app; split | apply Forall_cons | apply Forall_nil
               | apply chunk_ok_write; assumption | apply no_log_write; assumption
               | exact I | intros ?m; discriminate ].

(** The [with] statement: its trace has no log record and only writes of 1
    to 1048576 bytes; it completes without raising exactly when fdopen, the
    chunk allocation, every write, the flush, the fsync and the close
    succeed. *)
Lemma with_file_gen : forall env size tr0, 0 < size ->
  exists ok tr2, with_file (io_fuel size) env size tr0 = Some (ok, tr0 ++ tr2) /\
  Forall chunk_ok tr2 /\ Forall (fun a => forall m, a <> IoLog m) tr2 /\
  (ok = true <->
     fdopen_ok env = true /\ chunk_alloc_ok env = true /\
     (forall k, (k < nchunks size)%nat -> write_ret env k (chunk_at size k) <> None) /\
     flush_ok env = true /\ fsync_ok env = true /\ close_ok env = true) /\
  (fdopen_ok env = true -> chunk_alloc_ok env = true ->
   (forall k, (k < nchunks size)%nat -> write_ret env k (chunk_at size k) <> None) ->
   requested tr2 = size) /\
  (fdopen_ok env = true -> chunk_alloc_ok env = true -> flush_ok env = true ->
   (forall j n, write_ret env j n = Some n) ->
   written tr2 = size /\ In (Fsync (fsync_ok env)) tr2).
Proof.
  intros env size tr0 H. unfold with_file.
  destruct (fdopen_ok env) eqn:Hfd; cbn [negb].
  2: { do 2 eexists. split; [reflexivity|]. split; [trace_solve|]. split; [trace_solve|].
       split; [split; [discriminate|intros (H1 & _); discriminate]|].
       split; intros H1; discriminate. }
  destruct (chunk_alloc_ok env) eqn:Hca; cbn [negb].
  2: { do 2 eexists. split; [reflexivity|].
       split; [trace_solve|]. split; [trace_solve|].
       split; [split; [discriminate|intros (_ & H1 & _); discriminate]|].
       split; intros _ H1; discriminate. }
  destruct (write_loop_gen (io_fuel size) env 0 size (tr0 ++ [Fdopen true; Chunk true]))
    as (wok & tr' & E & HF & Hreq & Hfull & Hw); [lia|apply io_fuel_enough; lia|].
  rewrite E. cbn [Nat.add] in Hw.
  assert (Hrq : forall tr3, requested ([Fdopen true; Chunk true] ++ tr' ++ tr3) =
                           requested tr' + requested tr3).
  { intros tr3. rewrite requested_app, requested_app. reflexivity. }
  assert (Hwr : forall tr3, written ([Fdopen true; Chunk true] ++ tr' ++ tr3) =
                           written tr' + written tr3).
  { intros tr3. rewrite written_app, written_app. reflexivity. }
  destruct wok; cbn [negb]; [destruct (flush_ok env) eqn:Hfl; cbn [negb]|].
  - exists (fsync_ok env && close_ok env),
      ([Fdopen true; Chunk true] ++ tr' ++ [Flush true; Fsync (fsync_ok env); Close (close_ok env)]).
    split; [rewrite <- !app_assoc; reflexivity|]. split; [trace_solve|]. split; [trace_solve|].
    split.
    + rewrite andb_true_iff. split.
      * intros [H1 H2]. repeat split; auto. apply Hw. reflexivity.
      * intros (_ & _ & _ & _ & H1 & H2). auto.
    + split.
      * intros _ _ _. rewrite Hrq, Hreq by reflexivity. simpl; ring.
      * intros _ _ _ Hall. rewrite Hwr, (Hfull Hall). split; [simpl; ring|].
        rewrite !in_app_iff. simpl. tauto.
  - exists false, ([Fdopen true; Chunk true] ++ tr' ++ [Flush false; Close (close_ok env)]).
    split; [rewrite <- !app_assoc; reflexivity|]. split; [trace_solve|]. split; [trace_solve|].
    split; [split; [discriminate|intros (_ & _ & _ & H1 & _); discriminate]|].
    split; [intros _ _ _; rewrite Hrq, Hreq by reflexivity; simpl; ring|].
    intros _ _ H1. discriminate.
  - exists false, ([Fdopen true; Chunk true] ++ tr' ++ [Close (close_ok env)]).
    split; [rewrite <- !app_assoc; reflexivity|]. split; [trace_solve|]. split; [trace_solve|].
    split; [split; [discriminate|intros (_ & _ & H1 & _); apply Hw in H1; discriminate]|].
    split.
    + intros _ _ H1. apply Hw in H1. discriminate.
    + intros _ _ _ Hall. exfalso. assert (Hx : false = true); [|discriminate].
      apply Hw. intros k _. rewrite Hall. discriminate.
Qed.




(** io_burst (qimi2_sim.py), for [size > 0] once the directory and the
    temporary file are created and [human(size)] does not raise: it logs
    [[io] done] exactly when opening the file, allocating the chunk, every
    write (there are [ceil(size / 1 MiB)] of them; none may raise, but a
    short write counts as done), the flush, the fsync and the close all
    succeed, and logs [[io] error] exactly when it does not log
    [[io] done]. *)
Theorem io_burst_done_iff : forall env size,
  0 < size -> makedirs_ok env = true -> mkstemp_ok env = true -> human_ok size = true ->
  exists tr, io_burst (io_fuel size) env size = IoReturn tr /\
  (In (IoLog MDone) tr <->
     fdopen_ok env = true /\ chunk_alloc_ok env = true /\
     (forall k, (k < nchunks size)%nat -> write_ret env k (chunk_at size k) <> None) /\
     flush_ok env = true /\ fsync_ok env = true /\ close_ok env = true) /\
  (In (IoLog MError) tr <-> ~ In (IoLog MDone) tr).
Proof.
  intros env size H Hmk Hst Hh. unfold io_burst.
  replace (size <=? 0) with false by (symmetry; apply Z.leb_gt; lia).
  rewrite Hmk, Hst, Hh. cbn [negb].
  destruct (with_file_gen env size [Makedirs true; Mkstemp true; IoLog MWriting] H)
    as (ok & tr2 & E & _ & HF & Hok & _).
  rewrite E. eexists. split; [reflexivity|].
  assert (N : forall m, ~ In (IoLog m) tr2).
  { intros m Hm. rewrite Forall_forall in HF. exact (HF _ Hm m eq_refl). }
  pose proof (N MDone) as N1. pose proof (N MError) as N2.
  rewrite <- Hok. rewrite !in_app_iff. cbn [In].
  destruct ok, (remove_ok env); cbn [In]; intuition congruence.
Qed.

Lemma io_burst_done_iff_witness :
  exists tr, io_burst (io_fuel (3 * chunk_len)) all_writes_ok (3 * chunk_len) = IoReturn tr /\
             In (IoLog MDone) tr.
Proof.
  destruct (io_burst_done_iff all_writes_ok (3 * chunk_len) ltac:(unfold chunk_len; lia)
              eq_refl eq_refl ltac:(vm_compute; reflexivity)) as (tr & E & Hd & _).
  exists tr. split; [exact E|]. apply Hd. repeat split; try reflexivity.
  intros k _. discriminate.
Defined.
End IoProofs.
(* ------------------------------------------------------------------------- *)
(** * Proofs about the orchestration *)

Module OrchProofs.
Import Size Time Orch.

Lemma idx_app_notin : forall a l1 l2, ~ In a l1 -> idx a (l1 ++ l2) = (List.length l1 + idx a l2)%nat.
Proof.
  intros a l1 l2 H. induction l1 as [|x l1 IH]; [reflexivity|].
  simpl. destruct (action_eq_dec x a) as [->|Hne]; [exfalso; apply H; left; reflexivity|].
  rewrite IH; [reflexivity|]. intro Hin. apply H. right. exact Hin.
Qed.

Lemma workers_part_length : forall avail na s n, List.length (workers_part avail na s n) = (2 * n)%nat.
Proof.
  intros avail na s n. revert s. induction n as [|n IH]; intros s; [reflexivity|].
  unfold workers_part in *. cbn [seq flat_map]. rewrite length_app, IH. cbn [List.length]. lia.
Qed.

Lemma workers_part_notin : forall avail na s n a,
  (forall i p, a <> StartCpuWorker i p) -> (forall i, a <> LogWorkerStarted i) ->
  ~ In a (workers_part avail na s n).
Proof.
  intros avail na s n a H1 H2 Hin. unfold workers_part in Hin.
  apply in_flat_map in Hin as (i & _ & Hin). simpl in Hin.
  destruct Hin as [E|[E|[]]]; [eapply H1|eapply H2]; symmetry; exact E.
Qed.

Lemma joins_part_notin : forall s n a, (forall i t, a <> JoinCpuWorker i t) -> ~ In a (joins_part s n).
Proof.
  intros s n a H Hin. unfold joins_part in Hin. apply in_map_iff in Hin as (i & E & _).
  eapply H. symmetry. exact E.
Qed.

Lemma idx_worker : forall avail na n s i rest, (s <= i < s + n)%nat ->
  idx (StartCpuWorker i (pin_for avail na i)) (workers_part avail na s n ++ rest) = (2 * (i - s))%nat.
Proof.
  intros avail na n. induction n as [|n IH]; intros s i rest Hi; [lia|].
  unfold workers_part in *. cbn [seq flat_map app idx].
  destruct (action_eq_dec (StartCpuWorker s (pin_for avail na s))
                          (StartCpuWorker i (pin_for avail na i))) as [E|Hne].
  - injection E as ->. lia.
  - destruct (action_eq_dec (LogWorkerStarted s) (StartCpuWorker i (pin_for avail na i)));
      [discriminate|].
    assert (s <> i) by (intros ->; apply Hne; reflexivity).
    rewrite IH by lia. lia.
Qed.

Lemma idx_join : forall n s i rest, (s <= i < s + n)%nat ->
  idx (JoinCpuWorker i None) (joins_part s n ++ rest) = (i - s)%nat.
Proof.
  induction n as [|n IH]; intros s i rest Hi; [lia|].
  unfold joins_part in *. cbn [seq map app idx].
  destruct (action_eq_dec (JoinCpuWorker s None) (JoinCpuWorker i None)) as [E|Hne].
  - injection E as ->. lia.
  - assert (s <> i) by (intros ->; apply Hne; reflexivity).
    rewrite IH by lia. lia.
Qed.

Lemma main_burst_eq : forall cpus avail na,
  main_burst cpus avail na =
  [ReadLimits; LogLimits; ReadCpuStat; ParseSizes; RunMemEngine; ParseSizes; StartUnit IOUnit;
   GetAffinity]
  ++ workers_part avail na 0 (Z.to_nat (Z.max 1 cpus)) ++ joins_part 0 (Z.to_nat (Z.max 1 cpus))
  ++ [JoinUnit IOUnit (Some 1000); ReadMemCurrent; ReadMemPeak; ReadCpuStat; LogSummary; CloseLog].
Proof.
  intros cpus avail na. unfold main_burst, cpu_burst, workers_part, joins_part.
  simpl. rewrite <- app_assoc. reflexivity.
Qed.

Lemma idx_app_in : forall a l1 l2, In a l1 -> idx a (l1 ++ l2) = idx a l1.
Proof.
  intros a l1 l2 H. induction l1 as [|x l1 IH]; [destruct H|].
  simpl. destruct (action_eq_dec x a) as [->|Hne]; [reflexivity|].
  rewrite IH; [reflexivity|]. destruct H as [->|H]; [congruence|exact H].
Qed.

Ltac not_in_prefix := simpl; intuition discriminate.

(** C4 counterexample: in Burst mode the memory engine runs before the IO
    unit is started (here with two CPU workers). *)
Lemma burst_mem_before_io_cex :
  beforeb RunMemEngine (StartUnit IOUnit) (main_burst 2 None false) = true /\
  beforeb (StartUnit IOUnit) RunMemEngine (main_burst 2 None false) = false /\
  beforeb RunMemEngine (StartCpuWorker 0 None) (main_burst 2 None false) = true.
Proof. vm_compute. repeat split. Qed.

(** C4 (amended): in Burst mode, main runs the memory engine inline first;
    only then it starts the IO unit, and after that the CPU phase starts
    each worker and joins it without timeout; then the IO unit is joined
    with a timeout of one second, and only after that the final usage is
    read and the summary logged. *)
Theorem burst_main_order : forall cpus avail na,
  before RunMemEngine (StartUnit IOUnit) (main_burst cpus avail na) /\
  (forall i, (i < Z.to_nat (Z.max 1 cpus))%nat ->
     before (StartUnit IOUnit) (StartCpuWorker i (pin_for avail na i)) (main_burst cpus avail na) /\
     before (StartCpuWorker i (pin_for avail na i)) (JoinCpuWorker i None) (main_burst cpus avail na) /\
     before (JoinCpuWorker i None) (JoinUnit IOUnit (Some 1000)) (main_burst cpus avail na)) /\
  before (JoinUnit IOUnit (Some 1000)) ReadMemCurrent (main_burst cpus avail na) /\
  before ReadMemCurrent LogSummary (main_burst cpus avail na).
Proof.
  intros cpus avail na. unfold before. rewrite main_burst_eq.
  set (n := Z.to_nat (Z.max 1 cpus)).
  set (P := [ReadLimits; LogLimits; ReadCpuStat; ParseSizes; RunMemEngine; ParseSizes;
             StartUnit IOUnit; GetAffinity]).
  set (Q := [JoinUnit IOUnit (Some 1000); ReadMemCurrent; ReadMemPeak; ReadCpuStat;
             LogSummary; CloseLog]).
  assert (Hlen : List.length (P ++ workers_part avail na 0 n ++ joins_part 0 n ++ Q)
                 = (8 + 2 * n + n + 6)%nat).
  { rewrite !length_app, workers_part_length. unfold joins_part.
    rewrite length_map, length_seq. simpl. lia. }
  assert (Hq : forall a, ~ In a P ->
            (forall i p, a <> StartCpuWorker i p) -> (forall i, a <> LogWorkerStarted i) ->
            (forall i t, a <> JoinCpuWorker i t) ->
            idx a (P ++ workers_part avail na 0 n ++ joins_part 0 n ++ Q) = (8 + 2 * n + n + idx a Q)%nat).
  { intros a H0 H1 H2 H3.
    rewrite idx_app_notin, idx_app_notin, idx_app_notin by
      (assumption || apply workers_part_notin || apply joins_part_notin; assumption).
    rewrite workers_part_length. unfold joins_part. rewrite length_map, length_seq.
    simpl (List.length P). lia. }
  assert (Hmem : idx RunMemEngine (P ++ workers_part avail na 0 n ++ joins_part 0 n ++ Q) = 4%nat)
    by (rewrite idx_app_in; [reflexivity | simpl; tauto]).
  assert (Hio : idx (StartUnit IOUnit) (P ++ workers_part avail na 0 n ++ joins_part 0 n ++ Q) = 6%nat)
    by (rewrite idx_app_in; [reflexivity | simpl; tauto]).
  assert (Hjio : idx (JoinUnit IOUnit (Some 1000)) (P ++ workers_part avail na 0 n ++ joins_part 0 n ++ Q)
                 = (8 + 2 * n + n + 0)%nat)
    by (apply Hq; [not_in_prefix | intros; discriminate.. ]).
  assert (Hcur : idx ReadMemCurrent (P ++ workers_part avail na 0 n ++ joins_part 0 n ++ Q)
                 = (8 + 2 * n + n + 1)%nat)
    by (apply Hq; [not_in_prefix | intros; discriminate.. ]).
  assert (Hsum : idx LogSummary (P ++ workers_part avail na 0 n ++ joins_part 0 n ++ Q)
                 = (8 + 2 * n + n + 4)%nat)
    by (apply Hq; [not_in_prefix | intros; discriminate.. ]).
  assert (Hw : forall i, (i < n)%nat ->
            idx (StartCpuWorker i (pin_for avail na i))
                (P ++ workers_part avail na 0 n ++ joins_part 0 n ++ Q) = (8 + 2 * i)%nat).
  { intros i Hi. rewrite idx_app_notin by not_in_prefix.
    rewrite idx_worker by lia. simpl (List.length P). lia. }
  assert (Hj : forall i, (i < n)%nat ->
            idx (JoinCpuWorker i None)
                (P ++ workers_part avail na 0 n ++ joins_part 0 n ++ Q) = (8 + 2 * n + i)%nat).
  { intros i Hi. rewrite idx_app_notin by not_in_prefix.
    rewrite idx_app_notin by (apply workers_part_notin; intros; discriminate).
    rewrite idx_join by lia. rewrite workers_part_length. simpl (List.length P). lia. }
  rewrite Hmem, Hio, Hjio, Hcur, Hsum, Hlen.
  repeat split; try lia; rewrite ?Hw, ?Hj by assumption; lia.
Qed.

Lemma burst_main_order_witness :
  (1 < Z.to_nat (Z.max 1 2))%nat /\
  before (StartUnit IOUnit) (StartCpuWorker 1 (Some 5)) (main_burst 2 (Some [4; 5]) false).
Proof.
  split; [lia|].
  exact (proj1 (proj1 (proj2 (burst_main_order 2 (Some [4; 5]) false)) 1%nat ltac:(lia))).
Defined.

(** ** CPU workers and their joins *)

(** C7 counterexample: cpu_burst (qimi2_sim.py) joins its worker with
    [p.join()], which has no timeout. *)
Lemma cpu_burst_unbounded_join_cex :
  In (StartCpuWorker 0 None) (cpu_burst 1 None false) /\
  In (JoinCpuWorker 0 None) (cpu_burst 1 None false).
Proof. simpl. tauto. Qed.

Lemma cpu_burst_joins_untimed : forall n avail na i t,
  In (JoinCpuWorker i t) (cpu_burst n avail na) -> t = None.
Proof.
  intros n avail na i t H. unfold cpu_burst in H. destruct H as [H|H]; [discriminate|].
  apply in_app_iff in H as [H|H].
  - apply in_flat_map in H as (j & _ & H). simpl in H. intuition discriminate.
  - apply in_map_iff in H as (j & E & _). congruence.
Qed.

Lemma sleep_half_ok : py_sleep half_second = POk tt.
Proof. vm_compute. reflexivity. Qed.

(** One step of the ramp loop, with the outcome of its sleep named. *)
Lemma ramp_loop_S : forall f clock k stop_at total re avail na started tr,
  ramp_loop (S f) clock k stop_at total re avail na started tr =
  if clock k <? stop_at then
    if (started <? total)%nat then
      let tr1 := tr ++ [StartCpuWorker started (pin_for avail na started);
                        LogWorkerStarted started; Sleep re] in
      match py_sleep re with
      | POk _ => ramp_loop f clock (S k) stop_at total re avail na (S started) tr1
      | _ => Some (RampRaised tr1)
      end
    else ramp_loop f clock (S k) stop_at total re avail na started (tr ++ [Sleep half_second])
  else Some (RampDone started tr).
Proof.
  intros. cbn [ramp_loop]. rewrite sleep_half_ok. reflexivity.
Qed.

Lemma ramp_loop_inv : forall fuel clock k stop_at total re avail na started tr r,
  ramp_loop fuel clock k stop_at total re avail na started tr = Some r ->
  (forall i p, In (StartCpuWorker i p) tr -> (i < started)%nat) ->
  (forall i t, ~ In (JoinCpuWorker i t) tr) ->
  match r with
  | RampDone started' tr' =>
      (forall i p, In (StartCpuWorker i p) tr' -> (i < started')%nat) /\
      (forall i t, ~ In (JoinCpuWorker i t) tr')
  | RampRaised tr' => forall i t, ~ In (JoinCpuWorker i t) tr'
  end.
Proof.
  induction fuel as [|f IH]; intros clock k stop_at total re avail na started tr r
    H Hs Hj; [discriminate|].
  rewrite ramp_loop_S in H. destruct (clock k <? stop_at).
  - destruct (started <? total)%nat.
    + assert (Hj1 : forall i t, ~ In (JoinCpuWorker i t)
                      (tr ++ [StartCpuWorker started (pin_for avail na started);
                              LogWorkerStarted started; Sleep re])).
      { intros i t Hin. apply in_app_iff in Hin as [Hin|Hin]; [exact (Hj i t Hin)|].
        simpl in Hin. intuition discriminate. }
      destruct (py_sleep re); [|injection H as <-; exact Hj1..].
      eapply IH; [exact H| |exact Hj1].
      intros i p Hin. apply in_app_iff in Hin as [Hin|Hin].
      * specialize (Hs i p Hin). lia.
      * simpl in Hin. destruct Hin as [E|[E|[E|[]]]]; try discriminate.
        injection E as -> _. lia.
    + eapply IH; [exact H| |].
      * intros i p Hin. apply in_app_iff in Hin as [Hin|Hin]; [exact (Hs i p Hin)|].
        simpl in Hin. intuition discriminate.
      * intros i t Hin. apply in_app_iff in Hin as [Hin|Hin]; [exact (Hj i t Hin)|].
        simpl in Hin. intuition discriminate.
  - injection H as <-. split; assumption.
Qed.

(** C7 (amended): in run_cpu_ramp (stress.py), when the ramp loop ends
    because the clock reached [stop_at], every worker the ramp has started
    is joined at the end with a timeout of one second, and these are its
    only joins; when [time.sleep] in the loop raises, the exception leaves
    run_cpu_ramp with no worker joined. cpu_burst (qimi2_sim.py) instead
    joins each worker with no timeout ([cpu_burst_joins_untimed]). *)
Theorem ramp_joins_bounded : forall fuel clock total duration re avail na r,
  run_cpu_ramp fuel clock total duration re avail na = Some r ->
  match r with
  | RampDone started tr =>
      (forall i t, In (JoinCpuWorker i t) tr -> t = Some 1000) /\
      (forall i p, In (StartCpuWorker i p) tr -> In (JoinCpuWorker i (Some 1000)) tr)
  | RampRaised tr => forall i t, ~ In (JoinCpuWorker i t) tr
  end.
Proof.
  intros fuel clock total duration re avail na r H.
  unfold run_cpu_ramp in H.
  destruct (ramp_loop fuel clock 1 _ total re avail na 0 [GetAffinity]) as [[s0 t0|t0]|] eqn:E;
    try discriminate.
  - injection H as <-.
    pose proof (ramp_loop_inv _ _ _ _ _ _ _ _ _ _ _ E) as Hinv. cbv beta iota in Hinv.
    destruct Hinv as [Hs Hj].
    { intros i p Hin. simpl in Hin. intuition discriminate. }
    { intros i t Hin. simpl in Hin. intuition discriminate. }
    split.
    + intros i t Hin. apply in_app_iff in Hin as [Hin|Hin]; [exfalso; exact (Hj i t Hin)|].
      apply in_map_iff in Hin as (j & Ej & _). congruence.
    + intros i p Hin. apply in_app_iff in Hin as [Hin|Hin].
      * apply in_app_iff. right. apply in_map_iff. exists i. split; [reflexivity|].
        apply in_seq. specialize (Hs i p Hin). lia.
      * apply in_map_iff in Hin as (j & Ej & _). discriminate.
  - injection H as <-.
    apply (ramp_loop_inv _ _ _ _ _ _ _ _ _ _ _ E).
    { intros i p Hin. simpl in Hin. intuition discriminate. }
    { intros i t Hin. simpl in Hin. intuition discriminate. }
Qed.

Lemma ramp_joins_bounded_witness :
  exists tr, run_cpu_ramp 20 clock_1s 2 5 (Fin 3 (-1)) None false = Some (RampDone 2 tr) /\
             In (JoinCpuWorker 1 (Some 1000)) tr.
Proof.
  eexists. split; [vm_compute; reflexivity|].
  refine (proj2 (ramp_joins_bounded 20 clock_1s 2 5 (Fin 3 (-1)) None false (RampDone 2 _)
                   ltac:(vm_compute; reflexivity)) 1%nat None _).
  simpl. tauto.
Defined.

Lemma ramp_loop_starts : forall fuel clock k stop_at total re avail na started tr started' tr',
  ramp_loop fuel clock k stop_at total re avail na started tr = Some (RampDone started' tr') ->
  (started <= total)%nat ->
  (forall i p, In (StartCpuWorker i p) tr <-> (i < started)%nat /\ p = pin_for avail na i) ->
  (started' <= total)%nat /\
  (forall i p, In (StartCpuWorker i p) tr' <-> (i < started')%nat /\ p = pin_for avail na i).
Proof.
  induction fuel as [|f IH]; intros clock k stop_at total re avail na started tr started' tr'
    H Hle Hs; [discriminate|].
  rewrite ramp_loop_S in H. destruct (clock k <? stop_at).
  - destruct (started <? total)%nat eqn:Et.
    + apply Nat.ltb_lt in Et. destruct (py_sleep re); [|discriminate..].
      eapply IH; [exact H|lia|].
      intros i p. rewrite in_app_iff, Hs. cbn [In]. split.
      * intros [[Hi Hp]|[E|[E|[E|[]]]]]; try discriminate; [split; [lia|exact Hp]|].
        injection E as -> <-. split; [lia|reflexivity].
      * intros [Hi Hp]. destruct (Nat.eq_dec i started) as [->|Hne].
        -- right. left. rewrite Hp. reflexivity.
        -- left. split; [lia|exact Hp].
    + eapply IH; [exact H|exact Hle|].
      intros i p. rewrite in_app_iff, Hs. cbn [In].
      split; [intros [Hx|[E|[]]]; [exact Hx|discriminate]|intros Hx; left; exact Hx].
  - injection H as <- <-. split; assumption.
Qed.

(** run_cpu_ramp (stress.py): when the ramp ends normally it has started
    at most [total_cpus] workers, and the workers it started are exactly
    [0 .. started - 1], worker [i] pinned to [available[i % len(available)]]
    (or unpinned with [--no-affinity] or no affinity set). *)
Theorem ramp_starts_exact : forall fuel clock total duration re avail na started tr,
  run_cpu_ramp fuel clock total duration re avail na = Some (RampDone started tr) ->
  (started <= total)%nat /\
  (forall i p, In (StartCpuWorker i p) tr <-> (i < started)%nat /\ p = pin_for avail na i).
Proof.
  intros fuel clock total duration re avail na started tr H.
  unfold run_cpu_ramp in H.
  destruct (ramp_loop fuel clock 1 _ total re avail na 0 [GetAffinity]) as [[s0 t0|t0]|] eqn:E;
    try discriminate.
  injection H as <- <-.
  destruct (ramp_loop_starts _ _ _ _ _ _ _ _ _ _ _ _ E) as [Hle Hs]; [lia| |].
  { intros i p. cbn [In]. split; [intros [Hx|[]]; discriminate|intros [Hx _]; lia]. }
  split; [exact Hle|]. intros i p. rewrite in_app_iff, <- Hs. split.
  - intros [Hx|Hx]; [exact Hx|]. apply in_map_iff in Hx as (j & Ej & _). discriminate.
  - intros Hx. left. exact Hx.
Qed.

Lemma ramp_starts_exact_witness :
  exists tr, run_cpu_ramp 20 clock_1s 3 5 half_second (Some [2; 3]) false = Some (RampDone 3 tr) /\
             In (StartCpuWorker 2 (Some 2)) tr.
Proof.
  eexists. split; [vm_compute; reflexivity|].
  apply (proj2 (ramp_starts_exact 20 clock_1s 3 5 half_second (Some [2; 3]) false 3 _
                  ltac:(vm_compute; reflexivity)) 2%nat (Some 2)).
  split; [lia|reflexivity].
Defined.

(** run_cpu_ramp (stress.py) with a [ramp_every] that [time.sleep] refuses
    (negative, NaN, or so large that its nanoseconds overflow): if the ramp
    has time left and at least one worker to start, it starts worker 0,
    then [time.sleep(ramp_every)] raises; the exception leaves run_cpu_ramp
    before any worker is joined. *)
Theorem ramp_negative_sleep_raises : forall fuel clock total duration re avail na,
  py_sleep re <> POk tt -> (0 < total)%nat -> clock 1%nat < clock 0%nat + Z.max 1 duration * 1000 ->
  run_cpu_ramp (S fuel) clock total duration re avail na =
  Some (RampRaised [GetAffinity; StartCpuWorker 0 (pin_for avail na 0); LogWorkerStarted 0;
                    Sleep re]).
Proof.
  intros fuel clock total duration re avail na Hr Ht Hc.
  unfold run_cpu_ramp. rewrite ramp_loop_S.
  rewrite (proj2 (Z.ltb_lt _ _) Hc), (proj2 (Nat.ltb_lt _ _) Ht). cbv zeta.
  destruct (py_sleep re) as [[]| |]; [contradiction|reflexivity|reflexivity].
Qed.

Lemma ramp_negative_sleep_raises_witness :
  run_cpu_ramp 10 clock_1s 2 5 (Fin (-1) 0) None false =
  Some (RampRaised [GetAffinity; StartCpuWorker 0 None; LogWorkerStarted 0; Sleep (Fin (-1) 0)]).
Proof.
  exact (ramp_negative_sleep_raises 9 clock_1s 2 5 (Fin (-1) 0) None false
           ltac:(vm_compute; discriminate) ltac:(lia) ltac:(unfold clock_1s; simpl; lia)).
Defined.

Lemma pin_for_in : forall avail na i c,
  pin_for avail na i = Some c -> na = false /\ exists l, avail = Some l /\ In c l.
Proof.
  intros avail na i c H. unfold pin_for in H. destruct na; [discriminate|].
  destruct avail as [[|x r]|]; try discriminate.
  pose proof (nth_In (x :: r) 0 (Nat.mod_upper_bound i (List.length (x :: r)) ltac:(discriminate)))
    as Hn.
  injection H as H. split; [reflexivity|]. exists (x :: r). split; [reflexivity|].
  rewrite <- H. exact Hn.
Qed.

(** cpu_burst (qimi2_sim.py): it starts exactly the workers [0 .. nproc - 1];
    a worker is pinned only without [--no-affinity], and then to a CPU of
    the process's affinity set; with that set known and non-empty and
    without [--no-affinity], every worker is pinned. *)
Theorem cpu_burst_pins : forall n avail na i p,
  In (StartCpuWorker i p) (cpu_burst n avail na) <->
  (i < n)%nat /\ p = pin_for avail na i /\
  (forall c, p = Some c -> na = false /\ exists l, avail = Some l /\ In c l) /\
  (na = false -> (exists x r, avail = Some (x :: r)) -> p <> None).
Proof.
  intros n avail na i p. unfold cpu_burst. cbn [In]. rewrite in_app_iff. split.
  - intros [E|[Hx|Hx]]; [discriminate| |].
    + apply in_flat_map in Hx as (j & Hj & Hx). apply in_seq in Hj. cbn [In] in Hx.
      destruct Hx as [E|[E|[]]]; [|discriminate]. injection E as -> <-.
      split; [lia|]. split; [reflexivity|]. split; [apply pin_for_in|].
      intros -> (x & r & ->). unfold pin_for. discriminate.
    + apply in_map_iff in Hx as (j & E & _). discriminate.
  - intros (Hi & -> & _). right. left. apply in_flat_map. exists i.
    split; [apply in_seq; lia|]. left. reflexivity.
Qed.
End OrchProofs.

(* ------------------------------------------------------------------------- *)
(** * Proofs about the telemetry readers and touch_pages *)

Module FilesProofs.
Import Size Files.

Lemma set_nth_length : forall l j v, List.length (set_nth l j v) = List.length l.
Proof. induction l as [|x r IH]; intros [|j] v; simpl; auto. Qed.

Lemma set_nth_nth : forall l j v i,
  nth i (set_nth l j v) 0 =
  if Nat.eqb i j && (j <? List.length l)%nat then v else nth i l 0.
Proof.
  induction l as [|x r IH]; intros j v i.
  - destruct j, i; simpl; rewrite ?andb_false_r; reflexivity.
  - destruct j as [|j], i as [|i]; simpl; try reflexivity.
    rewrite IH. reflexivity.
Qed.

Lemma touch_fold_nth : forall offs l i,
  nth i (fold_left (fun b off => set_nth b (Z.to_nat off) 1) offs l) 0 =
  if existsb (fun off => Nat.eqb i (Z.to_nat off) && (Z.to_nat off <? List.length l)%nat) offs
  then 1 else nth i l 0.
Proof.
  induction offs as [|o r IH]; intros l i; simpl; [reflexivity|].
  rewrite IH, set_nth_length, set_nth_nth.
  destruct (Nat.eqb i (Z.to_nat o) && (Z.to_nat o <? List.length l)%nat); simpl;
    destruct (existsb _ r); reflexivity.
Qed.

Lemma touch_fold_length : forall offs l,
  List.length (fold_left (fun b off => set_nth b (Z.to_nat off) 1) offs l) = List.length l.
Proof.
  induction offs as [|o r IH]; intros l; simpl; [reflexivity|].
  rewrite IH. apply set_nth_length.
Qed.

Lemma page_offsets_hit : forall n i,
  existsb (fun off => Nat.eqb i (Z.to_nat off) && (Z.to_nat off <? n)%nat)
          (range 0 (Z.of_nat n) PAGE_SIZE) =
  (i <? n)%nat && (Z.of_nat i mod PAGE_SIZE =? 0).
Proof.
  intros n i. unfold range, PAGE_SIZE.
  apply eq_true_iff_eq. rewrite existsb_exists, andb_true_iff, Nat.ltb_lt, Z.eqb_eq.
  split.
  - intros (off & Hin & H). apply andb_true_iff in H as [H1 H2].
    apply Nat.eqb_eq in H1. apply Nat.ltb_lt in H2.
    apply in_map_iff in Hin as (k & <- & Hk).
    subst i. rewrite Z2Nat.id by lia. split; [lia|].
    rewrite Z.add_0_l, Z.mul_comm. apply Z.mod_mul. lia.
  - intros [Hi Hm]. exists (4096 * (Z.of_nat i / 4096)). split.
    + apply in_map_iff. exists (Z.to_nat (Z.of_nat i / 4096)).
      rewrite Z2Nat.id by (apply Z.div_pos; lia). split; [lia|].
      apply in_seq. split; [lia|].
      assert (Z.of_nat i / 4096 < (Z.of_nat n - 0 + 4096 - 1) / 4096).
      { apply Z.div_lt_upper_bound; [lia|].
        pose proof (Z.mul_div_le (Z.of_nat n - 0 + 4096 - 1) 4096 ltac:(lia)).
        pose proof (Z.mod_pos_bound (Z.of_nat n - 0 + 4096 - 1) 4096 ltac:(lia)).
        pose proof (Z.div_mod (Z.of_nat n - 0 + 4096 - 1) 4096 ltac:(lia)).
        pose proof (Z.div_mod (Z.of_nat i) 4096 ltac:(lia)). nia. }
      apply Z2Nat.inj_lt in H; try (apply Z.div_pos; lia). lia.
    + pose proof (Z.div_mod (Z.of_nat i) 4096 ltac:(lia)).
      apply andb_true_iff. split; apply Nat.eqb_eq || apply Nat.ltb_lt; lia.
Qed.

(** touch_pages on a fresh [bytearray(n)] keeps its length and sets to 1
    exactly the bytes at the offsets that are multiples of the page size
    (0, 4096, 8192, ... below [n]); every other byte stays 0. *)
Theorem touch_pages_bytes : forall n i,
  List.length (touch_pages (zeros (Z.of_nat n))) = n /\
  nth i (touch_pages (zeros (Z.of_nat n))) 0 =
  if (i <? n)%nat && (Z.of_nat i mod PAGE_SIZE =? 0) then 1 else 0.
Proof.
  intros n i. unfold touch_pages, zeros. rewrite Nat2Z.id, repeat_length.
  split; [rewrite touch_fold_length; apply repeat_length|].
  rewrite touch_fold_nth, repeat_length, page_offsets_hit.
  destruct (_ && _); [reflexivity|].
  destruct (Nat.lt_ge_cases i n) as [H|H].
  - apply nth_repeat_lt. exact H.
  - apply nth_overflow. rewrite repeat_length. exact H.
Qed.

Import SizeProofs.

(** ** The fallback over several files *)

(** The loop of read_mem_current and read_mem_peak (and of the cgroup v1
    memory limit in read_cgroup_limits): the value returned is that of the
    first file of the list that can be read and holds an integer, every
    file before it being unreadable or not an integer; the result is [None]
    exactly when no file of the list holds an integer. *)
Theorem first_int_first : forall fs ps,
  (forall n, first_int fs ps = Some n <->
     exists pre p post, ps = pre ++ p :: post /\
       Forall (fun q => read_int fs q = None) pre /\ read_int fs p = Some n) /\
  (first_int fs ps = None <-> Forall (fun q => read_int fs q = None) ps).
Proof.
  intros fs ps. induction ps as [|p r [IH1 IH2]].
  - split.
    + intros n. split; [discriminate|]. intros (pre & p & post & E & _).
      destruct pre; discriminate.
    + split; auto.
  - simpl. destruct (read_int fs p) as [m|] eqn:E.
    + split.
      * intros n. split.
        -- intros H. injection H as <-. exists [], p, r. repeat split; auto.
        -- intros ([|x pre] & p' & post & Eq & Hpre & Hp); injection Eq as -> ->.
           ++ congruence.
           ++ inversion Hpre; congruence.
      * split; [discriminate|]. intros H. inversion H; congruence.
    + split.
      * intros n. rewrite IH1. split.
        -- intros (pre & p' & post & -> & Hpre & Hp). exists (p :: pre), p', post.
           repeat split; auto.
        -- intros ([|x pre] & p' & post & Eq & Hpre & Hp); injection Eq as -> ->.
           ++ congruence.
           ++ inversion Hpre; subst. exists pre, p', post. repeat split; auto.
      * rewrite IH2. split; [auto|]. intros H. inversion H; assumption.
Qed.

Lemma first_int_first_witness :
  first_int (fun p => if String.eqb p "b" then Some (chars " 42") else Some (chars "x"))
            ["a"; "b"; "c"]%string = Some 42 /\
  exists pre p post, ["a"; "b"; "c"]%string = pre ++ p :: post /\
    Forall (fun q => read_int (fun p => if String.eqb p "b" then Some (chars " 42")
                                        else Some (chars "x")) q = None) pre /\
    read_int (fun p => if String.eqb p "b" then Some (chars " 42") else Some (chars "x")) p
    = Some 42.
Proof.
  split; [reflexivity|].
  apply (proj1 (first_int_first _ ["a"; "b"; "c"]%string) 42). reflexivity.
Defined.

(** ** read_cgroup_limits *)

(** A [memory.max] that says [max] (no v2 limit) does not make the memory
    limit [None]: the cgroup v1 files are then read, and the first of them
    that holds an integer gives the limit. *)
Theorem cgroup_max_uses_v1 : forall fs c,
  fs "/sys/fs/cgroup/memory.max"%string = Some c -> strip c = chars "max" ->
  fst (fst (read_cgroup_limits fs)) =
  first_int fs ["/sys/fs/cgroup/memory/memory.limit_in_bytes";
                "/sys/fs/cgroup/memory.limit_in_bytes"]%string.
Proof.
  intros fs c Hc Hs. unfold read_cgroup_limits, read_memory_max. rewrite Hc. cbv zeta.
  rewrite Hs, chars_eqb_refl.
  destruct (read_cpu_max fs) as [[q|] [p|]]; try destruct (cpu_v1 fs _); reflexivity.
Qed.

Lemma cgroup_max_uses_v1_witness :
  fst (fst (read_cgroup_limits
    (fun p => if String.eqb p "/sys/fs/cgroup/memory.max" then Some (chars "max")
              else if String.eqb p "/sys/fs/cgroup/memory/memory.limit_in_bytes"
              then Some (chars "1073741824") else None))) = Some 1073741824.
Proof.
  rewrite (cgroup_max_uses_v1 _ (chars "max") eq_refl eq_refl). reflexivity.
Defined.

(** The CPU quota returned is either the one read from [cpu.max] or a
    positive quota read from the cgroup v1 file: a v1 quota of 0 or below
    (-1 is "no limit") is never returned. *)
Theorem cgroup_quota_source : forall fs q,
  snd (fst (read_cgroup_limits fs)) = Some q ->
  fst (read_cpu_max fs) = Some q \/
  (0 < q /\ read_int fs "/sys/fs/cgroup/cpu/cpu.cfs_quota_us"%string = Some q).
Proof.
  intros fs q H. unfold read_cgroup_limits in H. cbv zeta in H.
  destruct (read_cpu_max fs) as [q1 p1] eqn:E.
  assert (Hv1 : forall qp, fst (cpu_v1 fs qp) = Some q -> fst qp = Some q \/
            (0 < q /\ read_int fs "/sys/fs/cgroup/cpu/cpu.cfs_quota_us"%string = Some q)).
  { intros [q2 p2] Hq. unfold cpu_v1 in Hq.
    destruct (read_int fs "/sys/fs/cgroup/cpu/cpu.cfs_quota_us"%string) as [q0|] eqn:Eq;
      [|left; exact Hq].
    destruct (read_int fs "/sys/fs/cgroup/cpu/cpu.cfs_period_us"%string) as [p0|];
      [|left; exact Hq].
    destruct (0 <? q0) eqn:Ep; [|left; exact Hq].
    right. apply Z.ltb_lt in Ep. simpl in Hq. injection Hq as ->. auto. }
  destruct q1 as [q1|], p1 as [p1|].
  - left. exact H.
  - apply (Hv1 (Some q1, None)).
    destruct (cpu_v1 fs (Some q1, None)) as [q3 p3]. exact H.
  - apply (Hv1 (None, Some p1)).
    destruct (cpu_v1 fs (None, Some p1)) as [q3 p3]. exact H.
  - apply (Hv1 (None, None)).
    destruct (cpu_v1 fs (None, None)) as [q3 p3]. exact H.
Qed.

Lemma cgroup_quota_source_witness :
  let fs := fun p =>
    if String.eqb p "/sys/fs/cgroup/cpu/cpu.cfs_quota_us" then Some (chars "-1")
    else if String.eqb p "/sys/fs/cgroup/cpu/cpu.cfs_period_us" then Some (chars "100000")
    else if String.eqb p "/sys/fs/cgroup/cpu.max" then Some (chars "50000 100000")
    else None in
  fst (read_cpu_max fs) = Some 50000 \/
  (0 < 50000 /\ read_int fs "/sys/fs/cgroup/cpu/cpu.cfs_quota_us"%string = Some 50000).
Proof. intros fs. apply cgroup_quota_source. reflexivity. Defined.

(** In [cpu.max], the quota is stored before the period is converted: a
    valid quota followed by a period that is not an integer, with no
    readable cgroup v1 quota, gives a quota without a period. *)
Theorem cgroup_quota_without_period : forall fs c a0 a1 q,
  fs "/sys/fs/cgroup/cpu.max"%string = Some c -> split_ws (strip c) = [a0; a1] ->
  chars_eqb a0 (chars "max") = false -> py_int a0 = POk q -> (forall n, py_int a1 <> POk n) ->
  read_int fs "/sys/fs/cgroup/cpu/cpu.cfs_quota_us"%string = None ->
  snd (fst (read_cgroup_limits fs)) = Some q /\ snd (read_cgroup_limits fs) = None.
Proof.
  intros fs c a0 a1 q Hc Hs Hm Hq Hp Hv.
  assert (E : read_cpu_max fs = (Some q, None)).
  { unfold read_cpu_max. rewrite Hc, Hs, Hm, Hq.
    destruct (py_int a1) as [n| |] eqn:E1; [exfalso; exact (Hp n eq_refl)|reflexivity|reflexivity]. }
  unfold read_cgroup_limits. cbv zeta. rewrite E. unfold cpu_v1. rewrite Hv. auto.
Qed.

Lemma cgroup_quota_without_period_witness :
  snd (fst (read_cgroup_limits
    (fun p => if String.eqb p "/sys/fs/cgroup/cpu.max" then Some (chars "50000 abc") else None)))
  = Some 50000 /\
  snd (read_cgroup_limits
    (fun p => if String.eqb p "/sys/fs/cgroup/cpu.max" then Some (chars "50000 abc") else None))
  = None.
Proof.
  apply (cgroup_quota_without_period _ (chars "50000 abc") (chars "50000") (chars "abc"));
    try reflexivity.
  intros n H. vm_compute in H. discriminate.
Defined.

(** ** The key-value files *)

Lemma kv_lines_prefix : forall ls1 bad ls2 d,
  Forall (fun l => kv_line l <> None) ls1 -> kv_line bad = None ->
  kv_lines (ls1 ++ bad :: ls2) d = (false, snd (kv_lines ls1 d)).
Proof.
  induction ls1 as [|l r IH]; intros bad ls2 d Hok Hbad.
  - simpl. rewrite Hbad. reflexivity.
  - inversion Hok as [|? ? Hl Hr]; subst. simpl.
    destruct (kv_line l) as [[k v]|]; [|contradiction]. apply IH; assumption.
Qed.

Lemma dict_get_set : forall d k' v k def,
  dict_get (dict_set d k' v) k def = if chars_eqb k' k then v else dict_get d k def.
Proof.
  induction d as [|[k1 v1] r IH]; intros k' v k def; simpl.
  - destruct (chars_eqb k' k); reflexivity.
  - destruct (chars_eqb k1 k') eqn:E1.
    + apply chars_eqb_eq in E1. subst k1. simpl.
      destruct (chars_eqb k' k); reflexivity.
    + simpl. rewrite IH.
      destruct (chars_eqb k1 k) eqn:E2, (chars_eqb k' k) eqn:E3; try reflexivity.
      apply chars_eqb_eq in E2. apply chars_eqb_eq in E3. subst.
      rewrite chars_eqb_refl in E1. discriminate.
Qed.

Lemma kv_lines_get : forall ls d k def,
  Forall (fun l => kv_line l <> None) ls ->
  dict_get (snd (kv_lines ls d)) k def =
  match last_value ls k with Some v => v | None => dict_get d k def end.
Proof.
  induction ls as [|l r IH]; intros d k def Hok; [reflexivity|].
  inversion Hok as [|? ? Hl Hr]; subst. cbn [kv_lines last_value].
  destruct (kv_line l) as [[k' v]|]; [|contradiction].
  rewrite IH by assumption. destruct (last_value r k); [reflexivity|].
  rewrite dict_get_set. destruct (chars_eqb k' k); reflexivity.
Qed.

(** read_cpu_stat_v2 (qimi2_sim.py): a malformed line of cpu.stat (not two
    fields, or a value that is not an integer) ends the reading without
    emptying the dict: the result holds the entries of the lines before it,
    and the lines after it are ignored. *)
Theorem cpu_stat_malformed_line : forall fs c ls1 bad ls2,
  fs "/sys/fs/cgroup/cpu.stat"%string = Some c -> lines c = ls1 ++ bad :: ls2 ->
  Forall (fun l => kv_line l <> None) ls1 -> kv_line bad = None ->
  read_cpu_stat_v2 fs = snd (kv_lines ls1 []).
Proof.
  intros fs c ls1 bad ls2 Hc Hl Hok Hbad. unfold read_cpu_stat_v2.
  rewrite Hc, Hl, kv_lines_prefix by assumption. reflexivity.
Qed.

Lemma cpu_stat_malformed_line_witness :
  let nl := String (ascii_of_nat 10) EmptyString in
  read_cpu_stat_v2 (fun p => if String.eqb p "/sys/fs/cgroup/cpu.stat"
    then Some (chars ("usage_usec 10" ++ nl ++ "nr_periods" ++ nl ++ "nr_throttled 2" ++ nl))
    else None) = snd (kv_lines [chars ("usage_usec 10" ++ nl)] []).
Proof.
  intros nl.
  apply (cpu_stat_malformed_line _
           (chars ("usage_usec 10" ++ nl ++ "nr_periods" ++ nl ++ "nr_throttled 2" ++ nl))
           _ (chars ("nr_periods" ++ nl))
                      [chars ("nr_throttled 2" ++ nl)]); try reflexivity.
  repeat constructor. intros H. vm_compute in H. discriminate H.
Defined.

(** read_cpu_stat_v2 on a cpu.stat whose lines are all well formed:
    [d.get(k, default)] on the result is the value of the last line that
    names [k], or [default] when no line does. *)
Theorem cpu_stat_lookup : forall fs c k def,
  fs "/sys/fs/cgroup/cpu.stat"%string = Some c ->
  Forall (fun l => kv_line l <> None) (lines c) ->
  dict_get (read_cpu_stat_v2 fs) k def =
  match last_value (lines c) k with Some v => v | None => def end.
Proof.
  intros fs c k def Hc Hok. unfold read_cpu_stat_v2. rewrite Hc, kv_lines_get by assumption.
  reflexivity.
Qed.

Lemma cpu_stat_lookup_witness :
  let nl := String (ascii_of_nat 10) EmptyString in
  let fs := fun p => if String.eqb p "/sys/fs/cgroup/cpu.stat"
    then Some (chars ("nr_periods 3" ++ nl ++ "throttled_usec 7" ++ nl ++ "nr_periods 4" ++ nl))
    else None in
  dict_get (read_cpu_stat_v2 fs) (chars "nr_periods") 0 = 4.
Proof.
  intros nl fs. rewrite (cpu_stat_lookup fs _ _ _ eq_refl); [reflexivity|].
  repeat constructor; intros H; vm_compute in H; discriminate H.
Defined.

(** read_mem_events_v2 (stress.py) keeps one dict across both files: when
    memory.events.local stops at a malformed line and memory.events is read
    to its end, a key takes its value from the last line of memory.events
    that names it, and otherwise keeps the value read from
    memory.events.local before the malformed line. *)
Theorem mem_events_merge : forall fs c1 c2 k def,
  fs "/sys/fs/cgroup/memory.events.local"%string = Some c1 ->
  fst (kv_lines (lines c1) []) = false ->
  fs "/sys/fs/cgroup/memory.events"%string = Some c2 ->
  Forall (fun l => kv_line l <> None) (lines c2) ->
  dict_get (read_mem_events_v2 fs) k def =
  match last_value (lines c2) k with
  | Some v => v
  | None => dict_get (snd (kv_lines (lines c1) [])) k def
  end.
Proof.
  intros fs c1 c2 k def H1 Hf H2 Hok. unfold read_mem_events_v2. cbn [events_loop String.append].
  rewrite H1. destruct (kv_lines (lines c1) []) as [b1 d1] eqn:E1. simpl in Hf. subst b1.
  rewrite H2. pose proof (kv_lines_get (lines c2) d1 k def Hok) as G.
  destruct (kv_lines (lines c2) d1) as [b2 d2]. simpl in G.
  destruct b2; exact G.
Qed.

Lemma mem_events_merge_witness :
  let nl := String (ascii_of_nat 10) EmptyString in
  let fs := fun p =>
    if String.eqb p "/sys/fs/cgroup/memory.events.local"
    then Some (chars ("low 3" ++ nl ++ "oom" ++ nl))
    else if String.eqb p "/sys/fs/cgroup/memory.events"
    then Some (chars ("oom 2" ++ nl ++ "max 5" ++ nl))
    else None in
  dict_get (read_mem_events_v2 fs) (chars "low") 0 = 3.
Proof.
  intros nl fs. rewrite (mem_events_merge fs _ _ _ _ eq_refl eq_refl eq_refl); [reflexivity|].
  repeat constructor; intros H; vm_compute in H; discriminate H.
Defined.

(** ** read_self_rss *)

Lemma split_solid : forall w l cur, Forall (fun x => is_space x = false) w ->
  split_ws_aux (w ++ l) cur = split_ws_aux l (rev w ++ cur).
Proof.
  induction w as [|x w IH]; intros l cur Hw; [reflexivity|].
  inversion Hw as [|? ? Hx Hr]; subst. simpl. rewrite Hx, IH by assumption.
  rewrite <- app_assoc. reflexivity.
Qed.

Lemma split_spaces : forall w l, Forall (fun x => is_space x = true) w ->
  split_ws_aux (w ++ l) [] = split_ws_aux l [].
Proof.
  induction w as [|x w IH]; intros l Hw; [reflexivity|].
  inversion Hw as [|? ? Hx Hr]; subst. simpl. rewrite Hx. apply IH. assumption.
Qed.

Lemma rev_not_nil : forall (d : list ascii), d <> [] -> rev d <> [].
Proof.
  intros d Hd H. apply (f_equal (@rev ascii)) in H. rewrite rev_involutive in H. auto.
Qed.

Lemma split_word : forall d rest, d <> [] -> Forall (fun x => is_space x = false) d ->
  (rest = [] \/ exists s r, rest = s :: r /\ is_space s = true) ->
  exists tl, split_ws_aux (d ++ rest) [] = d :: tl.
Proof.
  intros d rest Hd Hs Hr. rewrite split_solid, app_nil_r by assumption.
  pose proof (rev_not_nil d Hd) as Hrev.
  destruct Hr as [->|(s & r & -> & Hsp)].
  - exists []. simpl. destruct (rev d) eqn:E; [congruence|].
    rewrite <- E, rev_involutive. reflexivity.
  - exists (split_ws_aux r []). simpl. rewrite Hsp. destruct (rev d) eqn:E; [congruence|].
    rewrite <- E, rev_involutive. reflexivity.
Qed.

Lemma vmrss_solid : Forall (fun x => is_space x = false) (chars "VmRSS:").
Proof. repeat constructor. Qed.

Lemma rss_lines_skip : forall pre l post,
  Forall (fun l => starts_with l (chars "VmRSS:") = false) pre ->
  rss_lines (pre ++ l :: post) = rss_lines (l :: post).
Proof.
  induction pre as [|x pre IH]; intros l post H; [reflexivity|].
  inversion H as [|? ? Hx Hr]; subst. cbn [app rss_lines]. rewrite Hx. apply IH. assumption.
Qed.

(** read_self_rss (stress.py): the first line of /proc/self/status that
    starts with [VmRSS:] decides; when it reads [VmRSS:], blanks, a number,
    and nothing more or a blank and anything, the result is that number
    times 1024 (kB to bytes), or [None] when the number has more than 4300
    digits (int() raises [ValueError], which is caught). *)
Theorem self_rss_kb : forall fs c pre w d rest post,
  fs "/proc/self/status"%string = Some c ->
  lines c = pre ++ (chars "VmRSS:" ++ w ++ d ++ rest) :: post ->
  Forall (fun l => starts_with l (chars "VmRSS:") = false) pre ->
  w <> [] -> Forall (fun x => is_space x = true) w ->
  d <> [] -> Forall (fun x => is_digit x = true) d ->
  (rest = [] \/ exists s r, rest = s :: r /\ is_space s = true) ->
  read_self_rss fs = if (List.length d <=? int_max_str_digits)%nat
                     then Some (digits_value d * 1024) else None.
Proof.
  intros fs c pre w d rest post Hc Hl Hpre Hw Hws Hd Hdd Hr.
  unfold read_self_rss. rewrite Hc, Hl, rss_lines_skip by assumption.
  cbn [rss_lines].
  replace (starts_with (chars "VmRSS:" ++ w ++ d ++ rest) (chars "VmRSS:")) with true
    by reflexivity.
  assert (Hds : Forall (fun x => is_space x = false) d)
    by (eapply Forall_impl; [|exact Hdd]; intros x; apply digit_not_space).
  destruct (split_word d rest Hd Hds Hr) as [tl Etl].
  destruct w as [|x w']; [congruence|]. inversion Hws as [|? ? Hx Hw']; subst.
  unfold split_ws. rewrite split_solid by exact vmrss_solid.
  cbn [app split_ws_aux]. rewrite Hx. cbn [rev app].
  rewrite split_spaces, Etl by assumption. cbn [nth_error].
  cbn [chars list_ascii_of_string rev app nth_error].
  rewrite py_int_digits by assumption. destruct (_ <=? _)%nat; reflexivity.
Qed.

Lemma self_rss_kb_witness :
  let nl := String (ascii_of_nat 10) EmptyString in
  let tab := ascii_of_nat 9 in
  read_self_rss (fun p => if String.eqb p "/proc/self/status"
    then Some (chars ("Name:" ++ String tab "python" ++ nl ++ "VmRSS:" ++ String tab "  5120 kB" ++ nl))
    else None) = Some (digits_value (chars "5120") * 1024).
Proof.
  intros nl tab.
  apply (self_rss_kb _
           (chars ("Name:" ++ String tab "python" ++ nl ++ "VmRSS:" ++ String tab "  5120 kB" ++ nl))
           [chars ("Name:" ++ String tab "python" ++ nl)] [tab; " "%char; " "%char]
           (chars "5120") (chars (" kB" ++ nl)) []); try reflexivity.
  - repeat constructor.
  - discriminate.
  - repeat constructor.
  - discriminate.
  - repeat constructor.
  - right. exists " "%char, (chars ("kB" ++ nl)). split; reflexivity.
Defined.

End FilesProofs.

